(** * DefiDash ETH/BTC liquidity-pool pipeline: normalizer, validator, scorer

    A shallow embedding of the data pipeline of [script.js] (the revision with
    parallel fetching, fees and APR) together with [config.js]:

      raw records -> normalizeAllPools -> filterPools -> categorizePools

    - Numbers.  JavaScript numbers are IEEE-754 binary64 values and are
      modelled by Rocq's primitive [float]; comparisons and arithmetic are the
      primitive ones, and the facts used about them are derived from the
      library's specification of the primitives ([Floats.FloatAxioms]).
    - Strings are sequences of code units below 256 ([string] of [ascii]).
    - Values.  Loosely typed object fields are modelled by the scalar
      JavaScript values [jsval]; a field that the upstream schema types as a
      string is an [option string], [None] standing for an absent or null
      field.  Object and array values are not modelled.
    - Objects used as tables ([CONFIG.CHAIN_ID_MAP] and the like) are
      association lists of their own properties.
    - [Math.random] is an explicit oracle threaded through the normalizer.
    - The network is an oracle from URLs to answers; [dataCache] is a state
      threaded through the fetchers.
    - The page is the cache, the categories kept for sorting and the arrays
      last rendered; the DOM is not modelled.
    - Logging is left out. *)

From Stdlib Require Import ZArith Lia Bool List PArith Floats.
From Stdlib Require Import Ascii String.
From Stdlib Require Import Sorted Permutation.
Import ListNotations.
Import SpecFloat.

(* Decimal literals denote the nearest binary64 number, as in JavaScript. *)
Set Warnings "-inexact-float".

(** * IEEE-754 facts used by the pipeline *)

Module JsNumber.

Local Open Scope Z_scope.

Lemma digits2_pos_size (m : positive) : digits2_pos m = Pos.size m.
Proof. induction m; simpl; congruence. Qed.

Lemma size_lower (m : positive) : 2 ^ (Zpos (Pos.size m) - 1) <= Zpos m.
Proof.
  pose proof (Pos.size_le m) as H.
  assert (Hz : 2 ^ Zpos (Pos.size m) <= 2 * Zpos m).
  { change 2 with (Zpos 2) at 1. rewrite <- Pos2Z.inj_pow. 
    change (2 * Zpos m) with (Zpos m~0). lia. }
  replace (Zpos (Pos.size m)) with (Z.succ (Zpos (Pos.size m) - 1)) in Hz by lia.
  rewrite Z.pow_succ_r in Hz by lia. lia.
Qed.

Lemma size_upper (m : positive) : Zpos m < 2 ^ Zpos (Pos.size m).
Proof.
  pose proof (Pos.size_gt m) as H.
  change 2 with (Zpos 2). rewrite <- Pos2Z.inj_pow. lia.
Qed.

Lemma iter_xO_pow (m d : positive) : Zpos (Pos.iter xO m d) = Zpos m * 2 ^ Zpos d.
Proof.
  induction d using Pos.peano_ind.
  - simpl. lia.
  - rewrite Pos.iter_succ, Pos2Z.inj_succ, Z.pow_succ_r by lia.
    change (Zpos (Pos.iter xO m d)~0) with (2 * Zpos (Pos.iter xO m d)). lia.
Qed.

Lemma shl_align_value (m : positive) (e e' : Z) :
  e' <= e -> Zpos (fst (shl_align m e e')) = Zpos m * 2 ^ (e - e') /\ snd (shl_align m e e') = e'.
Proof.
  intros H. unfold shl_align.
  destruct (e' - e) as [|d|d] eqn:E; try lia.
  - replace (e - e') with 0 by lia. simpl. split; lia.
  - simpl. rewrite iter_xO_pow. replace (e - e') with (Zpos d) by lia. split; reflexivity.
Qed.

Lemma shr_m_shr_1 (mrs : shr_record) : 0 <= shr_m mrs -> shr_m (shr_1 mrs) = shr_m mrs / 2.
Proof.
  destruct mrs as [m r s]. simpl. intros H.
  destruct m as [|p|p]; try lia; [reflexivity|].
  destruct p; simpl.
  - apply Z.div_unique with (r := 1); lia.
  - apply Z.div_unique with (r := 0); lia.
  - reflexivity.
Qed.

Lemma pow2_xO (p : positive) : 2 ^ Zpos p~0 = 2 ^ Zpos p * 2 ^ Zpos p.
Proof. replace (Zpos p~0) with (Zpos p + Zpos p) by lia. apply Z.pow_add_r; lia. Qed.

Lemma pow2_xI (p : positive) : 2 ^ Zpos p~1 = 2 * (2 ^ Zpos p * 2 ^ Zpos p).
Proof.
  replace (Zpos p~1) with (Z.succ (Zpos p + Zpos p)) by lia.
  rewrite Z.pow_succ_r, Z.pow_add_r by lia. reflexivity.
Qed.

Lemma shr_m_iter (p : positive) : forall mrs, 0 <= shr_m mrs ->
  shr_m (iter_pos shr_1 p mrs) = shr_m mrs / 2 ^ Zpos p.
Proof.
  induction p as [p IH|p IH|]; intros mrs H; simpl iter_pos.
  - assert (H1 : 0 <= shr_m (shr_1 mrs)) by (rewrite shr_m_shr_1 by lia; apply Z.div_pos; lia).
    assert (H2 : 0 <= shr_m (iter_pos shr_1 p (shr_1 mrs))) by (rewrite IH by lia; apply Z.div_pos; lia).
    rewrite IH, IH, shr_m_shr_1 by lia.
    rewrite !Z.div_div by lia. rewrite pow2_xI. reflexivity.
  - assert (H2 : 0 <= shr_m (iter_pos shr_1 p mrs)) by (rewrite IH by lia; apply Z.div_pos; lia).
    rewrite IH, IH by lia. rewrite Z.div_div by lia. rewrite pow2_xO. reflexivity.
  - rewrite shr_m_shr_1 by lia. reflexivity.
Qed.

Abbreviation fexp64 := (fexp prec emax).

Lemma fexp64_eq (d : Z) : fexp64 d = Z.max (d - 53) (-1074).
Proof. reflexivity. Qed.

(** Shifting a positive mantissa to its canonical exponent never loses it. *)
Lemma shr_fexp_pos (m e : Z) (l : location) :
  0 < m -> -1074 <= e ->
  0 < shr_m (fst (shr_fexp prec emax m e l)) /\ -1074 <= snd (shr_fexp prec emax m e l).
Proof.
  intros Hm He. destruct m as [|m|m]; try lia.
  unfold shr_fexp, shr. cbn [Zdigits2]. rewrite digits2_pos_size, fexp64_eq.
  assert (Hrec : shr_m (shr_record_of_loc (Zpos m) l) = Zpos m)
    by (destruct l as [|[]]; reflexivity).
  destruct (Z.max (Zpos (Pos.size m) + e - 53) (-1074) - e) as [|p|p] eqn:E; cbn [fst snd].
  - rewrite Hrec. lia.
  - rewrite shr_m_iter by (rewrite Hrec; lia). rewrite Hrec. split; [|lia].
    apply Z.div_str_pos. split; [apply Z.pow_pos_nonneg; lia|].
    pose proof (size_lower m) as Hs.
    assert (Hp : Zpos p <= Zpos (Pos.size m) - 1) by lia.
    pose proof (Z.pow_le_mono_r 2 (Zpos p) (Zpos (Pos.size m) - 1)) as Hpow. lia.
  - rewrite Hrec. lia.
Qed.

Lemma round_nearest_even_pos (m : Z) (l : location) : 0 < m -> 0 < round_nearest_even m l.
Proof.
  intros H. destruct l as [|[]]; simpl; try lia. destruct (Z.even m); lia.
Qed.

(** Sign and non-nullity of a rounded non-zero mantissa. *)
Definition SFsign_is (s : bool) (x : spec_float) : Prop :=
  match x with
  | S754_finite s' _ _ | S754_infinity s' => s' = s
  | _ => False
  end.

Lemma binary_round_aux_sign (s : bool) (m e : Z) (l : location) :
  0 < m -> -1074 <= e -> SFsign_is s (binary_round_aux prec emax s m e l).
Proof.
  intros Hm He. unfold binary_round_aux.
  destruct (shr_fexp_pos m e l Hm He) as [H1 H2].
  destruct (shr_fexp prec emax m e l) as [mrs' e'] eqn:E1. cbn [fst snd] in H1, H2.
  pose proof (round_nearest_even_pos (shr_m mrs') (loc_of_shr_record mrs') H1) as Hr.
  destruct (shr_fexp_pos _ _ loc_Exact Hr H2) as [H3 H4].
  destruct (shr_fexp prec emax _ e' loc_Exact) as [mrs'' e''] eqn:E2. cbn [fst snd] in H3, H4.
  destruct (shr_m mrs'') as [|q|q]; try lia.
  destruct (e'' <=? emax - prec); reflexivity.
Qed.

Lemma binary_round_sign (s : bool) (m : positive) (e : Z) :
  -1074 <= e -> SFsign_is s (binary_round prec emax s m e).
Proof.
  intros He. unfold binary_round.
  destruct (shl_align m e (fexp64 (Zpos (digits2_pos m) + e))) as [mz ez] eqn:E.
  apply binary_round_aux_sign; [lia|].
  unfold shl_align in E. rewrite fexp64_eq in E.
  destruct (Z.max (Zpos (digits2_pos m) + e - 53) (-1074) - e) eqn:E'; inversion E; subst; lia.
Qed.

Lemma binary_normalize_sign (m e : Z) :
  -1074 <= e -> m <> 0 ->
  SFsign_is (m <? 0) (binary_normalize prec emax m e false).
Proof.
  intros He Hm. destruct m as [|p|p]; try lia; simpl; apply binary_round_sign; exact He.
Qed.

Lemma bounded_facts (m : positive) (e : Z) :
  bounded prec emax m e = true ->
  -1074 <= e /\ Zpos (Pos.size m) <= 53 /\ (-1074 < e -> Zpos (Pos.size m) = 53).
Proof.
  unfold bounded, canonical_mantissa. rewrite digits2_pos_size, fexp64_eq.
  intros H. apply andb_true_iff in H. destruct H as [H _].
  apply Z.eqb_eq in H. lia.
Qed.

(** The aligned difference of two canonical floats has the sign of their comparison. *)
Lemma aligned_diff_compare (sx sy : bool) (mx my : positive) (ex ey : Z) :
  bounded prec emax mx ex = true -> bounded prec emax my ey = true ->
  let ez := Z.min ey ex in
  SFcompare (S754_finite sx mx ex) (S754_finite sy my ey) =
  Some (0 ?= cond_Zopp sy (Zpos (fst (shl_align my ey ez)))
             - cond_Zopp sx (Zpos (fst (shl_align mx ex ez)))).
Proof.
  intros Hx Hy ez.
  destruct (bounded_facts _ _ Hx) as (Hx1 & Hx2 & Hx3).
  destruct (bounded_facts _ _ Hy) as (Hy1 & Hy2 & Hy3).
  destruct (shl_align_value mx ex ez ltac:(lia)) as [Ax _].
  destruct (shl_align_value my ey ez ltac:(lia)) as [Ay _].
  rewrite Ax, Ay. clear Ax Ay.
  pose proof (size_lower mx) as Lx. pose proof (size_upper mx) as Ux.
  pose proof (size_lower my) as Ly. pose proof (size_upper my) as Uy.
  assert (P53 : forall m, Zpos m < 2 ^ Zpos (Pos.size m) -> Zpos (Pos.size m) <= 53 -> Zpos m < 2 ^ 53).
  { intros m U S. pose proof (Z.pow_le_mono_r 2 (Zpos (Pos.size m)) 53). lia. }
  pose proof (P53 _ Ux Hx2) as Bx. pose proof (P53 _ Uy Hy2) as By.
  assert (Big : forall m e e', e' < e -> Zpos (Pos.size m) = 53 ->
                 2 ^ (Zpos (Pos.size m) - 1) <= Zpos m -> 2 ^ 53 <= Zpos m * 2 ^ (e - e')).
  { intros m e e' He S L. rewrite S in L. change (53 - 1) with 52 in L.
    assert (2 ^ 1 <= 2 ^ (e - e')) by (apply Z.pow_le_mono_r; lia).
    change (2 ^ 53) with (2 ^ 52 * 2 ^ 1). apply Z.mul_le_mono_nonneg; lia. }
  unfold SFcompare.
  destruct (Z.compare_spec ex ey) as [E|E|E].
  - subst ey. replace ez with ex by lia. rewrite Z.sub_diag, Z.pow_0_r, !Z.mul_1_r.
    change (Pos.compare_cont Eq mx my) with (Zpos mx ?= Zpos my).
    destruct sx, sy; unfold cond_Zopp.
    + f_equal.
      destruct (Z.compare_spec (Zpos mx) (Zpos my));
        match goal with |- _ = (0 ?= ?D) => destruct (Z.compare_spec 0 D) end;
        cbn [CompOpp]; try reflexivity; lia.
    + reflexivity.
    + reflexivity.
    + f_equal.
      destruct (Z.compare_spec (Zpos mx) (Zpos my));
        match goal with |- _ = (0 ?= ?D) => destruct (Z.compare_spec 0 D) end;
        try reflexivity; lia.
  - replace ez with ex by lia. rewrite Z.sub_diag, Z.pow_0_r, Z.mul_1_r.
    pose proof (Big my ey ex E (Hy3 ltac:(lia)) Ly) as B.
    destruct sx, sy; unfold cond_Zopp;
      first [reflexivity
            | f_equal; symmetry; first [apply Z.compare_lt_iff; lia | apply Z.compare_gt_iff; lia]].
  - replace ez with ey by lia. rewrite Z.sub_diag, Z.pow_0_r, Z.mul_1_r.
    pose proof (Big mx ex ey E (Hx3 ltac:(lia)) Lx) as B.
    destruct sx, sy; unfold cond_Zopp;
      first [reflexivity
            | f_equal; symmetry; first [apply Z.compare_lt_iff; lia | apply Z.compare_gt_iff; lia]].
Qed.

Definition SFis_nan (x : spec_float) : bool :=
  match x with S754_nan => true | _ => false end.

Lemma SFltb_zero_sign (s : bool) (r : spec_float) :
  SFsign_is s r -> SFltb (S754_zero false) r = negb s.
Proof. destruct r as [| s' | | s' m e]; simpl; try tauto; intros ->; destruct s; reflexivity. Qed.

(** IEEE subtraction is faithful to the order: [0 < y - x] exactly when [x < y]. *)
Lemma SFltb_zero_sub (x y : spec_float) :
  valid_binary prec emax x = true -> valid_binary prec emax y = true ->
  SFis_nan x = false -> SFis_nan y = false ->
  SFltb (S754_zero false) (SF64sub y x) = SFltb x y.
Proof.
  intros Vx Vy Nx Ny.
  destruct x as [sx|sx| |sx mx ex], y as [sy|sy| |sy my ey]; try discriminate;
    try (destruct sx, sy; reflexivity); try (destruct sx; reflexivity);
    try (destruct sy; reflexivity).
  simpl in Vx, Vy. unfold SFltb at 2.
  rewrite (aligned_diff_compare sx sy mx my ex ey Vx Vy).
  unfold SF64sub, SFsub. cbv zeta.
  set (M := cond_Zopp sy _ - cond_Zopp sx _).
  destruct (bounded_facts _ _ Vx) as (Hx1 & _). destruct (bounded_facts _ _ Vy) as (Hy1 & _).
  destruct (Z.eq_dec M 0) as [E|E].
  - rewrite E. reflexivity.
  - rewrite (SFltb_zero_sign (M <? 0)) by (apply binary_normalize_sign; lia).
    destruct (Z.compare_spec 0 M); destruct (Z.ltb_spec M 0); try reflexivity; lia.
Qed.

(** [SFcompare] is a total preorder on the floats that are not NaN. *)
Lemma SFcompare_refl (x : spec_float) : SFis_nan x = false -> SFcompare x x = Some Eq.
Proof.
  destruct x as [s|s| |s m e]; try discriminate; intros _; simpl; try (destruct s; reflexivity).
  rewrite Z.compare_refl. change (Pos.compare_cont Eq m m) with (Pos.compare m m).
  rewrite Pos.compare_refl. destruct s; reflexivity.
Qed.

Lemma SFcompare_antisym (x y : spec_float) :
  SFcompare y x = option_map CompOpp (SFcompare x y).
Proof.
  destruct x as [sx|sx| |sx mx ex], y as [sy|sy| |sy my ey]; simpl;
    try reflexivity; try (destruct sx, sy; reflexivity);
    try (destruct sx; reflexivity); try (destruct sy; reflexivity).
  change (Pos.compare_cont Eq my mx) with (Pos.compare my mx).
  change (Pos.compare_cont Eq mx my) with (Pos.compare mx my).
  rewrite (Z.compare_antisym ex ey), (Pos.compare_antisym mx my).
  destruct sx, sy; try reflexivity;
    destruct (ex ?= ey); simpl; try reflexivity; destruct (mx ?= my)%positive; reflexivity.
Qed.

Ltac SFcompare_cases :=
  repeat match goal with
  | |- context [Pos.compare_cont Eq ?a ?b] => change (Pos.compare_cont Eq a b) with (Pos.compare a b)
  | H : context [Pos.compare_cont Eq ?a ?b] |- _ => change (Pos.compare_cont Eq a b) with (Pos.compare a b) in H
  end;
  repeat match goal with
  | H : context [Z.compare ?a ?b] |- _ => destruct (Z.compare_spec a b); simpl in H
  | H : context [Pos.compare ?a ?b] |- _ => destruct (Pos.compare_spec a b); simpl in H
  | |- context [Z.compare ?a ?b] => destruct (Z.compare_spec a b); simpl
  | |- context [Pos.compare ?a ?b] => destruct (Pos.compare_spec a b); simpl
  end;
  try discriminate; try reflexivity; try lia.

Lemma SFcompare_trans_lt (x y z : spec_float) :
  SFcompare x y = Some Lt -> SFcompare y z = Some Lt -> SFcompare x z = Some Lt.
Proof.
  destruct x as [sx|sx| |sx mx ex], y as [sy|sy| |sy my ey], z as [sz|sz| |sz mz ez];
    simpl; try discriminate; try reflexivity;
    try (destruct sx; discriminate); try (destruct sy; discriminate);
    try (destruct sz; discriminate);
    try (destruct sx; try discriminate; destruct sy; try discriminate; destruct sz;
         try discriminate; try reflexivity; fail).
  destruct sx, sy, sz; intros H1 H2; try discriminate; try reflexivity; SFcompare_cases.
Qed.

Lemma SFcompare_trans_eq (x y z : spec_float) :
  SFcompare x y = Some Eq -> SFcompare y z = Some Eq -> SFcompare x z = Some Eq.
Proof.
  destruct x as [sx|sx| |sx mx ex], y as [sy|sy| |sy my ey], z as [sz|sz| |sz mz ez];
    simpl; try discriminate; try reflexivity;
    try (destruct sx; discriminate); try (destruct sy; discriminate);
    try (destruct sz; discriminate);
    try (destruct sx; try discriminate; destruct sy; try discriminate; destruct sz;
         try discriminate; try reflexivity; fail).
  destruct sx, sy, sz; intros H1 H2; try discriminate; try reflexivity; SFcompare_cases.
Qed.

Lemma SFcompare_trans_lt_eq (x y z : spec_float) :
  SFcompare x y = Some Lt -> SFcompare y z = Some Eq -> SFcompare x z = Some Lt.
Proof.
  destruct x as [sx|sx| |sx mx ex], y as [sy|sy| |sy my ey], z as [sz|sz| |sz mz ez];
    simpl; try discriminate; try reflexivity;
    try (destruct sx; discriminate); try (destruct sy; discriminate);
    try (destruct sz; discriminate);
    try (destruct sx; try discriminate; destruct sy; try discriminate; destruct sz;
         try discriminate; try reflexivity; fail).
  destruct sx, sy, sz; intros H1 H2; try discriminate; try reflexivity; SFcompare_cases.
Qed.

Lemma SFcompare_trans_eq_lt (x y z : spec_float) :
  SFcompare x y = Some Eq -> SFcompare y z = Some Lt -> SFcompare x z = Some Lt.
Proof.
  destruct x as [sx|sx| |sx mx ex], y as [sy|sy| |sy my ey], z as [sz|sz| |sz mz ez];
    simpl; try discriminate; try reflexivity;
    try (destruct sx; discriminate); try (destruct sy; discriminate);
    try (destruct sz; discriminate);
    try (destruct sx; try discriminate; destruct sy; try discriminate; destruct sz;
         try discriminate; try reflexivity; fail).
  destruct sx, sy, sz; intros H1 H2; try discriminate; try reflexivity; SFcompare_cases.
Qed.

(** ** Facts on the primitive binary64 numbers, through their specification *)

Local Open Scope float_scope.

Definition fcompare (a b : float) : option comparison := SFcompare (Prim2SF a) (Prim2SF b).

Lemma ltb_fcompare (a b : float) : (a <? b) = match fcompare a b with Some Lt => true | _ => false end.
Proof. apply FloatAxioms.ltb_spec. Qed.

Lemma leb_fcompare (a b : float) :
  (a <=? b) = match fcompare a b with Some (Lt | Eq) => true | _ => false end.
Proof. apply FloatAxioms.leb_spec. Qed.

Lemma eqb_fcompare (a b : float) : (a =? b) = match fcompare a b with Some Eq => true | _ => false end.
Proof. apply FloatAxioms.eqb_spec. Qed.

Lemma fcompare_antisym (a b : float) : fcompare b a = option_map CompOpp (fcompare a b).
Proof. apply SFcompare_antisym. Qed.

Lemma is_nan_spec (a : float) : is_nan a = SFis_nan (Prim2SF a).
Proof.
  unfold is_nan. rewrite FloatAxioms.eqb_spec. unfold SFeqb.
  destruct (SFis_nan (Prim2SF a)) eqn:E.
  - destruct (Prim2SF a); try discriminate. reflexivity.
  - rewrite SFcompare_refl by exact E. reflexivity.
Qed.

Lemma fcompare_nan (a b : float) :
  fcompare a b = None <-> is_nan a = true \/ is_nan b = true.
Proof.
  rewrite !is_nan_spec. unfold fcompare.
  destruct (Prim2SF a) as [sa|sa| |sa ma ea], (Prim2SF b) as [sb|sb| |sb mb eb]; simpl;
    split; intros H; try discriminate; try tauto; try reflexivity;
    destruct H; discriminate.
Qed.

Lemma fcompare_some (a b : float) :
  is_nan a = false -> is_nan b = false -> exists c, fcompare a b = Some c.
Proof.
  intros Ha Hb. destruct (fcompare a b) as [c|] eqn:E; [eauto|].
  apply fcompare_nan in E. destruct E; congruence.
Qed.

(** JavaScript [b - a > 0] decides [b > a] on numbers that are not NaN. *)
Lemma ltb_zero_sub (a b : float) :
  is_nan a = false -> is_nan b = false -> (0 <? b - a) = (a <? b).
Proof.
  intros Ha Hb. rewrite is_nan_spec in Ha, Hb.
  rewrite (FloatAxioms.ltb_spec 0), (FloatAxioms.ltb_spec a), FloatAxioms.sub_spec.
  change (Prim2SF 0) with (S754_zero false).
  apply SFltb_zero_sub; auto using Prim2SF_valid.
Qed.

Lemma ltb_asym (a b : float) : (a <? b) = true -> (b <? a) = false.
Proof.
  rewrite !ltb_fcompare, (fcompare_antisym a b).
  destruct (fcompare a b) as [[]|]; simpl; congruence.
Qed.

Lemma leb_not_ltb (a b : float) : (a <=? b) = true -> (b <? a) = false.
Proof.
  rewrite leb_fcompare, ltb_fcompare, (fcompare_antisym a b).
  destruct (fcompare a b) as [[]|]; simpl; congruence.
Qed.

Lemma not_ltb_leb (a b : float) :
  is_nan a = false -> is_nan b = false -> (a <? b) = false -> (b <=? a) = true.
Proof.
  intros Ha Hb. destruct (fcompare_some a b Ha Hb) as [c Hc].
  rewrite leb_fcompare, ltb_fcompare, (fcompare_antisym a b), Hc.
  destruct c; simpl; congruence.
Qed.

Lemma ltb_trans (a b c : float) : (a <? b) = true -> (b <? c) = true -> (a <? c) = true.
Proof.
  rewrite !ltb_fcompare. unfold fcompare. intros H1 H2.
  rewrite (SFcompare_trans_lt (Prim2SF a) (Prim2SF b) (Prim2SF c)); [reflexivity| |].
  - destruct (SFcompare (Prim2SF a) (Prim2SF b)) as [[]|]; congruence.
  - destruct (SFcompare (Prim2SF b) (Prim2SF c)) as [[]|]; congruence.
Qed.

Lemma eqb_sym (a b : float) : (a =? b) = (b =? a).
Proof.
  rewrite !eqb_fcompare, (fcompare_antisym a b).
  destruct (fcompare a b) as [[]|]; reflexivity.
Qed.

Lemma eqb_trans (a b c : float) : (a =? b) = true -> (b =? c) = true -> (a =? c) = true.
Proof.
  rewrite !eqb_fcompare. unfold fcompare. intros H1 H2.
  rewrite (SFcompare_trans_eq (Prim2SF a) (Prim2SF b) (Prim2SF c)); [reflexivity| |].
  - destruct (SFcompare (Prim2SF a) (Prim2SF b)) as [[]|]; congruence.
  - destruct (SFcompare (Prim2SF b) (Prim2SF c)) as [[]|]; congruence.
Qed.

Lemma eqb_not_ltb (a b : float) : (a =? b) = true -> (a <? b) = false.
Proof.
  rewrite eqb_fcompare, ltb_fcompare. destruct (fcompare a b) as [[]|]; congruence.
Qed.

Lemma eqb_leb (a b : float) : (a =? b) = true -> (a <=? b) = true.
Proof.
  rewrite eqb_fcompare, leb_fcompare. destruct (fcompare a b) as [[]|]; congruence.
Qed.

Lemma eqb_not_nan (a b : float) : (a =? b) = true -> is_nan a = false /\ is_nan b = false.
Proof.
  rewrite eqb_fcompare. intros H.
  destruct (is_nan a) eqn:Ha; [|destruct (is_nan b) eqn:Hb; [|auto]].
  - rewrite (proj2 (fcompare_nan a b)) in H by auto. discriminate.
  - rewrite (proj2 (fcompare_nan a b)) in H by auto. discriminate.
Qed.

Lemma leb_trans (a b c : float) : (a <=? b) = true -> (b <=? c) = true -> (a <=? c) = true.
Proof.
  rewrite !leb_fcompare. unfold fcompare.
  destruct (SFcompare (Prim2SF a) (Prim2SF b)) as [[]|] eqn:E1; try discriminate;
    destruct (SFcompare (Prim2SF b) (Prim2SF c)) as [[]|] eqn:E2; try discriminate; intros _ _.
  - rewrite (SFcompare_trans_eq _ _ _ E1 E2). reflexivity.
  - rewrite (SFcompare_trans_eq_lt _ _ _ E1 E2). reflexivity.
  - rewrite (SFcompare_trans_lt_eq _ _ _ E1 E2). reflexivity.
  - rewrite (SFcompare_trans_lt _ _ _ E1 E2). reflexivity.
Qed.

End JsNumber.

(** * JavaScript strings *)

Module JsString.

Local Open Scope string_scope.

Definition code (c : ascii) : N := N_of_ascii c.

Definition in_range (lo hi : N) (c : ascii) : bool :=
  (N.leb lo (code c) && N.leb (code c) hi)%bool.

(** [String.prototype.toLowerCase] on code units below 256: [A-Z] and the
    Latin-1 capitals U+00C0..U+00DE (but U+00D7) move up by 32. *)
Definition lower_char (c : ascii) : ascii :=
  if (in_range 65 90 c || (in_range 192 222 c && negb (N.eqb (code c) 215)))%bool
  then ascii_of_N (code c + 32) else c.

Fixpoint toLowerCase (s : string) : string :=
  match s with
  | EmptyString => EmptyString
  | String c s' => String (lower_char c) (toLowerCase s')
  end.

(** [String.prototype.includes]: [sub] occurs in [s] as a contiguous substring. *)
Fixpoint includes (s sub : string) : bool :=
  if prefix sub s then true
  else match s with
       | EmptyString => false
       | String _ s' => includes s' sub
       end.

Definition is_empty (s : string) : bool :=
  match s with EmptyString => true | _ => false end.

(** White space and line terminators below 256: TAB, LF, VT, FF, CR, SP, NBSP. *)
Definition is_space (c : ascii) : bool :=
  (in_range 9 13 c || N.eqb (code c) 32 || N.eqb (code c) 160)%bool.

Fixpoint trimStart (s : string) : string :=
  match s with
  | String c s' => if is_space c then trimStart s' else s
  | EmptyString => EmptyString
  end.

Fixpoint trimEnd (s : string) : string :=
  match s with
  | EmptyString => EmptyString
  | String c s' =>
      let t := trimEnd s' in
      if (is_space c && is_empty t)%bool then EmptyString else String c t
  end.

Definition trim (s : string) : string := trimEnd (trimStart s).

(** [s.replace(c, '')] for a one-character pattern: the first occurrence goes. *)
Fixpoint remove_first (c : ascii) (s : string) : string :=
  match s with
  | EmptyString => EmptyString
  | String a s' => if Ascii.eqb a c then s' else String a (remove_first c s')
  end.

Fixpoint has_char (c : ascii) (s : string) : bool :=
  match s with
  | EmptyString => false
  | String a s' => (Ascii.eqb a c || has_char c s')%bool
  end.

(** [s.split(sep).pop()]: what follows the last separator. *)
Fixpoint split_pop (sep : ascii) (s : string) : string :=
  match s with
  | EmptyString => EmptyString
  | String c s' =>
      if (Ascii.eqb c sep || has_char sep s')%bool then split_pop sep s' else s
  end.

Definition is_digit (c : ascii) : bool := in_range 48 57 c.

(** Word characters of a regular expression: [A-Za-z0-9_]. *)
Definition is_word (c : ascii) : bool :=
  (in_range 65 90 c || in_range 97 122 c || is_digit c || N.eqb (code c) 95)%bool.

(** The longest run of decimal digits at the head of [s], and the rest. *)
Fixpoint span_digits (s : string) : string * string :=
  match s with
  | String c s' =>
      if is_digit c then let (d, r) := span_digits s' in (String c d, r)
      else (EmptyString, s)
  | EmptyString => (EmptyString, EmptyString)
  end.

Fixpoint digits_value (acc : Z) (s : string) : Z :=
  match s with
  | EmptyString => acc
  | String c s' => digits_value (10 * acc + (Z.of_N (code c) - 48)) s'
  end.

End JsString.

(** * JavaScript scalar values, number parsing and coercions *)

Module JsValue.

Import JsString.
Local Open Scope string_scope.

(** The binary64 number nearest to [m * 2^e] (ties to even). *)
Definition round_Z (m e : Z) : float := SF2Prim (binary_normalize prec emax m e false).

(** The binary64 number nearest to the decimal [m * 10^e10], for [0 <= m]: the
    mathematical value of a decimal literal, rounded once.  A negative exponent
    divides with 64 guard bits and a sticky bit for the remainder. *)
Definition decimal_value (m e10 : Z) : float :=
  if (m =? 0)%Z then 0%float
  else if (0 <=? e10)%Z then round_Z (m * 10 ^ e10) 0
  else
    let den := (10 ^ (- e10))%Z in
    let s := (64 + Z.log2_up den)%Z in
    let (q, r) := Z.div_eucl (m * 2 ^ s) den in
    round_Z (2 * q + (if (r =? 0)%Z then 0 else 1)) (- s - 1).

Fixpoint drop (n : nat) (s : string) : string :=
  match n, s with
  | S n', String _ s' => drop n' s'
  | _, _ => s
  end.

(** The exponent part [e[+-]digits] of a decimal literal, when it is complete. *)
Definition parse_exponent (s : string) : Z * string :=
  match s with
  | String c r =>
      if (Ascii.eqb c "e" || Ascii.eqb c "E")%bool then
        let '(neg, r') :=
          match r with
          | String "-" t => (true, t)
          | String "+" t => (false, t)
          | _ => (false, r)
          end in
        let (d, rest) := span_digits r' in
        if is_empty d then (0%Z, s)
        else ((if neg then - digits_value 0 d else digits_value 0 d)%Z, rest)
      else (0%Z, s)
  | EmptyString => (0%Z, s)
  end.

(** The longest prefix of [s] that is an unsigned [StrDecimalLiteral], with its
    value and what follows it. *)
Definition parse_unsigned (s : string) : option (float * string) :=
  if prefix "Infinity" s then Some (infinity, drop 8 s)
  else
    let (d1, r1) := span_digits s in
    let '(d2, r2, ok) :=
      match r1 with
      | String "." r =>
          let (d2, r2) := span_digits r in
          if (is_empty d1 && is_empty d2)%bool then (EmptyString, r1, false)
          else (d2, r2, true)
      | _ => (EmptyString, r1, negb (is_empty d1))
      end in
    if ok then
      let '(e10, r3) := parse_exponent r2 in
      Some (decimal_value (digits_value 0 (d1 ++ d2)) (e10 - Z.of_nat (length d2)), r3)
    else None.

Definition parse_signed (s : string) : option (float * string) :=
  match s with
  | String "-" s' =>
      match parse_unsigned s' with
      | Some (f, r) => Some ((- f)%float, r)
      | None => None
      end
  | String "+" s' => parse_unsigned s'
  | _ => parse_unsigned s
  end.

(** The global [parseFloat] on a string argument. *)
Definition parseFloat_string (s : string) : float :=
  match parse_signed (trimStart s) with
  | Some (f, _) => f
  | None => nan
  end.

(** Digits of a non-decimal integer literal in the given radix. *)
Definition digit_of (radix : Z) (c : ascii) : option Z :=
  let n := Z.of_N (code c) in
  let v := if is_digit c then Some (n - 48)%Z
           else if in_range 97 102 c then Some (n - 87)%Z
           else if in_range 65 70 c then Some (n - 55)%Z
           else None in
  match v with
  | Some d => if (d <? radix)%Z then Some d else None
  | None => None
  end.

Fixpoint radix_value (radix acc : Z) (s : string) : option Z :=
  match s with
  | EmptyString => Some acc
  | String c s' =>
      match digit_of radix c with
      | Some d => radix_value radix (radix * acc + d)%Z s'
      | None => None
      end
  end.

Definition parse_radix (radix : Z) (s : string) : float :=
  if is_empty s then nan
  else match radix_value radix 0 s with
       | Some n => if (n =? 0)%Z then 0%float else round_Z n 0
       | None => nan
       end.

(** [StringToNumber]: the whole trimmed string must be a numeric literal. *)
Definition StringToNumber (s : string) : float :=
  let t := trim s in
  match t with
  | EmptyString => 0%float
  | String "0" (String c r) =>
      if (Ascii.eqb c "x" || Ascii.eqb c "X")%bool then parse_radix 16 r
      else if (Ascii.eqb c "o" || Ascii.eqb c "O")%bool then parse_radix 8 r
      else if (Ascii.eqb c "b" || Ascii.eqb c "B")%bool then parse_radix 2 r
      else match parse_signed t with
           | Some (f, EmptyString) => f
           | _ => nan
           end
  | _ => match parse_signed t with
         | Some (f, EmptyString) => f
         | _ => nan
         end
  end.

(** Scalar JavaScript values. *)
Inductive jsval : Type :=
  | JUndefined
  | JNull
  | JBool (b : bool)
  | JNum (n : float)
  | JStr (s : string).

(** [ToBoolean]. *)
Definition truthy (v : jsval) : bool :=
  match v with
  | JUndefined | JNull => false
  | JBool b => b
  | JNum n => negb (is_zero n || is_nan n)
  | JStr s => negb (is_empty s)
  end.

Definition is_number (v : jsval) : bool :=
  match v with JNum _ => true | _ => false end.

(** [ToNumber]. *)
Definition to_number (v : jsval) : float :=
  match v with
  | JUndefined => nan
  | JNull => 0%float
  | JBool b => if b then 1%float else 0%float
  | JNum n => n
  | JStr s => StringToNumber s
  end.

(** [parseFloat(v)] converts its argument to a string first.  A number prints
    to the shortest decimal that reads back as itself (the sign of zero is
    lost); [undefined], [null] and booleans print to words that do not parse. *)
Definition parseFloat (v : jsval) : float :=
  match v with
  | JStr s => parseFloat_string s
  | JNum n => if is_zero n then 0%float else n
  | _ => nan
  end.

(** [SameValueZero], the equality of [Set.prototype.has]. *)
Definition same_value_zero (x y : jsval) : bool :=
  match x, y with
  | JUndefined, JUndefined => true
  | JNull, JNull => true
  | JBool a, JBool b => Bool.eqb a b
  | JNum a, JNum b => ((a =? b)%float || (is_nan a && is_nan b))%bool
  | JStr a, JStr b => String.eqb a b
  | _, _ => false
  end.

(** Strict equality [===]. *)
Definition strict_eq (x y : jsval) : bool :=
  match x, y with
  | JUndefined, JUndefined => true
  | JNull, JNull => true
  | JBool a, JBool b => Bool.eqb a b
  | JNum a, JNum b => (a =? b)%float
  | JStr a, JStr b => String.eqb a b
  | _, _ => false
  end.

(** [x || d] on a number. *)
Definition num_or (x d : float) : float :=
  if truthy (JNum x) then x else d.

(** [o || d] on a field that holds a string when it is present. *)
Definition str_or (o : option string) (d : string) : string :=
  match o with
  | Some s => if is_empty s then d else s
  | None => d
  end.

Definition str_truthy (o : option string) : bool :=
  match o with
  | Some s => negb (is_empty s)
  | None => false
  end.

End JsValue.

Import JsString JsValue.
Local Open Scope string_scope.

(** * Configuration ([config.js]) *)

Inductive AssetClass : Type := BTC | ETH | STABLE.

Inductive PairType : Type := btc_stable | eth_stable | btc_eth | wrapped.

Definition AssetClass_eqb (a b : AssetClass) : bool :=
  match a, b with
  | BTC, BTC | ETH, ETH | STABLE, STABLE => true
  | _, _ => false
  end.

(** [a === b] on asset classes that may be [null]. *)
Definition class_eq (a b : option AssetClass) : bool :=
  match a, b with
  | Some x, Some y => AssetClass_eqb x y
  | None, None => true
  | _, _ => false
  end.

Definition is_class (c : AssetClass) (a : option AssetClass) : bool := class_eq a (Some c).

Module CONFIG.

Definition ASSET_CLASSES : list (AssetClass * list string) :=
  [ (BTC, ["btc"; "wbtc"; "cbbtc"; "kbtc"; "tbtc"; "ebtc"; "renbtc"; "sbtc"; "hbtc"]);
    (ETH, ["eth"; "weth"; "eeth"; "steth"; "wsteth"; "reth"; "cbeth"; "seth"; "meth"]);
    (STABLE, ["usdc"; "usdt"; "dai"; "usdbc"; "frax"; "lusd"; "usds"; "crvusd"; "tusd";
              "busd"; "gusd"; "usdp"; "usdd"]) ].

Definition MIN_LIQUIDITY : float := 100000%float.
Definition MIN_VOLUME_24H : float := 10000%float.
Definition DEFAULT_FEE_PERCENT : float := 0.3%float.

Definition CHAIN_TO_GECKO_ID : list (string * string) :=
  [ ("ethereum", "eth"); ("arbitrum", "arbitrum"); ("optimism", "optimism");
    ("base", "base"); ("polygon", "polygon_pos"); ("zksync", "zksync");
    ("linea", "linea"); ("scroll", "scroll"); ("blast", "blast") ].

Definition CHAIN_ID_MAP : list (string * string) :=
  [ ("eth", "ethereum"); ("ethereum", "ethereum"); ("arbitrum", "arbitrum");
    ("optimism", "optimism"); ("base", "base"); ("polygon", "polygon");
    ("polygon_pos", "polygon"); ("zksync", "zksync"); ("linea", "linea");
    ("scroll", "scroll"); ("blast", "blast"); ("sol", "solana"); ("bsc", "bsc") ].

End CONFIG.

(** [obj[key]] on an object literal with string values (own properties). *)
Fixpoint lookup (key : string) (obj : list (string * string)) : option string :=
  match obj with
  | [] => None
  | (k, v) :: rest => if String.eqb k key then Some v else lookup key rest
  end.

(** [CONFIG.ASSET_CLASSES[assetClass]]. *)
Fixpoint aliases_in (table : list (AssetClass * list string)) (c : AssetClass) : option (list string) :=
  match table with
  | [] => None
  | (k, v) :: rest => if AssetClass_eqb k c then Some v else aliases_in rest c
  end.

(** * Utility functions: fees and APR *)

Definition heuristic_percent (n : float) : float :=
  if (100 <? n)%float then (n / 10000)%float
  else if (n <? 1)%float then (n * 100)%float
  else n.

(** [parseFeeToPercent]: [None] is [null]. *)
Definition parseFeeToPercent (feeValue : jsval) : option float :=
  match feeValue with
  | JNull | JUndefined => None
  | JNum n => Some (heuristic_percent n)
  | JStr s =>
      let cleaned := trim (remove_first "%" s) in
      let parsed := parseFloat_string cleaned in
      if is_nan parsed then None
      else if includes s "%" then Some parsed
      else Some (heuristic_percent parsed)
  | JBool _ => None
  end.

(** [calculateApr]; the third argument is a number in every call. *)
Definition calculateApr (volumeUsd24h liquidityUsd : jsval) (feePercent : float) : float :=
  if (negb (truthy liquidityUsd) || (to_number liquidityUsd <=? 0)%float
      || negb (truthy (JNum feePercent)))%bool
  then 0%float
  else
    let feeRate := (feePercent / 100)%float in
    let dailyFees := (to_number volumeUsd24h * feeRate)%float in
    let annualFees := (dailyFees * 365)%float in
    let apr := (annualFees / to_number liquidityUsd * 100)%float in
    apr.

(** * Normalization and resolution *)

Fixpoint first_matching_class (lowerSymbol : string) (table : list (AssetClass * list string))
  : option AssetClass :=
  match table with
  | [] => None
  | (assetClass, alts) :: rest =>
      if existsb (fun alt => includes lowerSymbol alt) alts then Some assetClass
      else first_matching_class lowerSymbol rest
  end.

(** [resolveAssetClass]; the symbol may be absent ([None]). *)
Definition resolveAssetClass (symbol : option string) : option AssetClass :=
  if negb (str_truthy symbol) then None
  else
    let lowerSymbol := toLowerCase (str_or symbol "") in
    first_matching_class lowerSymbol CONFIG.ASSET_CLASSES.

Definition determinePairType (baseAsset quoteAsset : option AssetClass) : option PairType :=
  if (is_class BTC baseAsset && is_class BTC quoteAsset)%bool then Some wrapped
  else if (is_class ETH baseAsset && is_class ETH quoteAsset)%bool then Some wrapped
  else if (is_class BTC baseAsset && is_class STABLE quoteAsset)%bool then Some btc_stable
  else if (is_class ETH baseAsset && is_class STABLE quoteAsset)%bool then Some eth_stable
  else if (is_class BTC baseAsset && is_class ETH quoteAsset)%bool then Some btc_eth
  else if (is_class ETH baseAsset && is_class BTC quoteAsset)%bool then Some btc_eth
  else if (is_class STABLE baseAsset && is_class BTC quoteAsset)%bool then Some btc_stable
  else if (is_class STABLE baseAsset && is_class ETH quoteAsset)%bool then Some eth_stable
  else None.

Definition areDifferentVariants (symbol1 symbol2 : option string) (assetClass : option AssetClass)
  : bool :=
  match assetClass with
  | None => false
  | Some c =>
      if (negb (str_truthy symbol1) || negb (str_truthy symbol2))%bool then false
      else
        let lower1 := toLowerCase (str_or symbol1 "") in
        let lower2 := toLowerCase (str_or symbol2 "") in
        if String.eqb lower1 lower2 then false
        else match aliases_in CONFIG.ASSET_CLASSES c with
             | None => false
             | Some variants =>
                 let match1 := existsb (fun v => includes lower1 v) variants in
                 let match2 := existsb (fun v => includes lower2 v) variants in
                 (match1 && match2)%bool
             end
  end.

(** The fee pattern of the source: one or more digits, an optional dot, any
    digits (the captured group), any white space, a percent sign.  This is its
    match anchored at the head of [s]; the greedy reading is the only one that
    can succeed, so no backtracking is modelled. *)
Definition match_percent_at (s : string) : option string :=
  let (d1, r1) := span_digits s in
  if is_empty d1 then None
  else
    let '(group, r2) :=
      match r1 with
      | String "." r => let (d2, r2) := span_digits r in (d1 ++ "." ++ d2, r2)
      | _ => (d1, r1)
      end in
    match trimStart r2 with
    | String "%" _ => Some group
    | _ => None
    end.

(** [s.match] with the fee pattern: the group of the leftmost match. *)
Fixpoint match_percent (s : string) : option string :=
  match match_percent_at s with
  | Some g => Some g
  | None => match s with
            | String _ s' => match_percent s'
            | EmptyString => None
            end
  end.

Definition starts_with_word (s : string) : bool :=
  match s with
  | String c _ => is_word c
  | EmptyString => false
  end.

Definition fee_tier_literals : list string := ["0.01"; "0.05"; "0.3"; "0.30"; "1"; "1.0"].

(** [s.match] with the fee-tier pattern: one of the literals between two word
    boundaries.  The alternatives are tried in order at each position that
    does not follow a word character. *)
Fixpoint match_fee_tier (after_word : bool) (s : string) : option string :=
  let here :=
    if after_word then None
    else find (fun alt => (prefix alt s && negb (starts_with_word (drop (length alt) s)))%bool)
              fee_tier_literals in
  match here with
  | Some g => Some g
  | None => match s with
            | String c s' => match_fee_tier (is_word c) s'
            | EmptyString => None
            end
  end.

(** ** Raw records

    A raw record is the JSON object of either source, tagged with provenance
    by the orchestrator.  Only the fields the normalizers read are kept. *)

Module RawAttrs.
Record t : Type := {
  base_token_symbol : option string;
  quote_token_symbol : option string;
  name : option string;
  reserve_in_usd : jsval;
  volume_usd_h24 : jsval;          (* attrs.volume_usd?.h24 *)
  swap_fee : jsval;
  fee : jsval;
  pool_fee : jsval;
  network_identifier : option string; (* attrs.network?.identifier *)
  network_id : option string;
  pool_url : option string
}.

(** The empty object [{}]. *)
Definition empty : t :=
  {| base_token_symbol := None; quote_token_symbol := None; name := None;
     reserve_in_usd := JUndefined; volume_usd_h24 := JUndefined;
     swap_fee := JUndefined; fee := JUndefined; pool_fee := JUndefined;
     network_identifier := None; network_id := None; pool_url := None |}.
End RawAttrs.

Module RawToken.
Record t : Type := { symbol : option string }.
Definition empty : t := {| symbol := None |}.
End RawToken.

Module RawPool.
Record t : Type := {
  _source : jsval;
  _sourceRank : jsval;
  _chain : option string;
  (* GeckoTerminal shape *)
  id : option string;
  attributes : option RawAttrs.t;
  (* DexScreener shape *)
  baseToken : option RawToken.t;
  quoteToken : option RawToken.t;
  chainId : option string;
  labels : option (list string);
  feeTier : jsval;
  pairName : option string;
  pairAddress : jsval;
  liquidity_usd : jsval;           (* pool.liquidity?.usd *)
  volume_h24 : jsval;              (* pool.volume?.h24 *)
  url : option string
}.
End RawPool.

(** ** Canonical pools *)

Module Pool.
Record t : Type := {
  id : jsval;
  name : jsval;
  baseAsset : option AssetClass;
  quoteAsset : option AssetClass;
  pairType : option PairType;
  liquidityUsd : jsval;
  volumeUsd24h : jsval;
  feeTier : option float;
  chain : string;
  source : jsval;
  sourceRank : jsval;
  score : option float;
  apr : option float;
  poolUrl : option string
}.
End Pool.

(** ** The random oracle

    [Math.random().toString(36).substr(2, 9)] is the only source of
    non-determinism of the pipeline.  The n-th draw of a run is given by an
    oracle; a computation threads the number of draws made so far. *)

Definition Rand (A : Type) : Type := nat -> A * nat.

Definition ret {A : Type} (a : A) : Rand A := fun n => (a, n).

Definition bind {A B : Type} (m : Rand A) (f : A -> Rand B) : Rand B :=
  fun n => let (a, n') := m n in f a n'.

Notation "x <- m ;; k" := (bind m (fun x => k))
  (at level 61, m at next level, right associativity).

Definition draw (random36 : nat -> string) : Rand string := fun n => (random36 n, S n).

(** ** The normalizers *)

Definition option_float_truthy (o : option float) : bool :=
  match o with
  | Some f => truthy (JNum f)
  | None => false
  end.

Definition extractGeckoTerminalFee (attrs : RawAttrs.t) : option float :=
  if truthy (RawAttrs.swap_fee attrs) then parseFeeToPercent (RawAttrs.swap_fee attrs)
  else if truthy (RawAttrs.fee attrs) then parseFeeToPercent (RawAttrs.fee attrs)
  else if truthy (RawAttrs.pool_fee attrs) then parseFeeToPercent (RawAttrs.pool_fee attrs)
  else
    let name := str_or (RawAttrs.name attrs) "" in
    match match_percent name with
    | Some g => Some (parseFloat_string g)
    | None =>
        match match_fee_tier false name with
        | Some g => Some (parseFloat_string g)
        | None => None
        end
    end.

(** The orientation step shared by both normalizers: the wrapped-pair test
    comes first, and only a pair that is not wrapped may be swapped. *)
Definition isWrappedPair (baseSymbol quoteSymbol : string) : bool :=
  let baseAssetClass := resolveAssetClass (Some baseSymbol) in
  let quoteAssetClass := resolveAssetClass (Some quoteSymbol) in
  (class_eq baseAssetClass quoteAssetClass
   && (is_class BTC baseAssetClass || is_class ETH baseAssetClass)
   && areDifferentVariants (Some baseSymbol) (Some quoteSymbol) baseAssetClass)%bool.

Definition orient (baseSymbol quoteSymbol : string) : option AssetClass * option AssetClass :=
  let baseAssetClass := resolveAssetClass (Some baseSymbol) in
  let quoteAssetClass := resolveAssetClass (Some quoteSymbol) in
  if negb (isWrappedPair baseSymbol quoteSymbol) then
    if (is_class BTC quoteAssetClass
        || (is_class ETH quoteAssetClass && is_class STABLE baseAssetClass))%bool
    then (quoteAssetClass, baseAssetClass)
    else (baseAssetClass, quoteAssetClass)
  else (baseAssetClass, quoteAssetClass).

Section Normalizer.

Variable random36 : nat -> string.

Definition normalizeGeckoTerminalPool (pool : RawPool.t) : Rand (option Pool.t) :=
  let attrs := match RawPool.attributes pool with
               | Some a => a
               | None => RawAttrs.empty
               end in
  let baseSymbol := str_or (RawAttrs.base_token_symbol attrs) "" in
  let quoteSymbol := str_or (RawAttrs.quote_token_symbol attrs) "" in
  let isWrapped := isWrappedPair baseSymbol quoteSymbol in
  let '(baseAssetClass, quoteAssetClass) := orient baseSymbol quoteSymbol in
  match determinePairType baseAssetClass quoteAssetClass with
  | None => ret None
  | Some pairType =>
      if (negb isWrapped && class_eq baseAssetClass quoteAssetClass)%bool then ret None
      else
        let chainName :=
          if (negb (str_truthy (RawPool._chain pool))
              || String.eqb (str_or (RawPool._chain pool) "") "unknown")%bool
          then
            let networkId :=
              str_or (RawAttrs.network_identifier attrs) (str_or (RawAttrs.network_id attrs) "") in
            str_or (lookup networkId CONFIG.CHAIN_ID_MAP) (str_or (Some networkId) "unknown")
          else str_or (RawPool._chain pool) "" in
        let liquidityUsd := num_or (parseFloat (RawAttrs.reserve_in_usd attrs)) 0 in
        let volumeUsd24h := num_or (parseFloat (RawAttrs.volume_usd_h24 attrs)) 0 in
        let feeTier := extractGeckoTerminalFee attrs in
        id <- (if str_truthy (RawPool.id pool) then ret (str_or (RawPool.id pool) "")
               else (r <- draw random36 ;; ret ("gt-" ++ r))) ;;
        ret (Some
          {| Pool.id := JStr id;
             Pool.name := JStr (str_or (RawAttrs.name attrs) (baseSymbol ++ "/" ++ quoteSymbol));
             Pool.baseAsset := baseAssetClass;
             Pool.quoteAsset := quoteAssetClass;
             Pool.pairType := Some pairType;
             Pool.liquidityUsd := JNum liquidityUsd;
             Pool.volumeUsd24h := JNum volumeUsd24h;
             Pool.feeTier := feeTier;
             Pool.chain := chainName;
             Pool.source := RawPool._source pool;
             Pool.sourceRank := RawPool._sourceRank pool;
             Pool.score := None;
             Pool.apr := None;
             Pool.poolUrl :=
               if str_truthy (RawAttrs.pool_url attrs) then RawAttrs.pool_url attrs
               else if str_truthy (RawPool.id pool) then
                 Some ("https://www.geckoterminal.com/"
                       ++ str_or (lookup chainName CONFIG.CHAIN_TO_GECKO_ID) chainName
                       ++ "/pools/" ++ split_pop "_" (str_or (RawPool.id pool) ""))
               else None |})
  end.

(** The fee read from the labels: the first label that carries a percentage. *)
Fixpoint fee_of_labels (labels : list string) : option float :=
  match labels with
  | [] => None
  | label :: rest =>
      match match_percent label with
      | Some g => Some (parseFloat_string g)
      | None => fee_of_labels rest
      end
  end.

Definition normalizeDexScreenerPool (pool : RawPool.t) : option Pool.t :=
  let baseToken := match RawPool.baseToken pool with Some t => t | None => RawToken.empty end in
  let quoteToken := match RawPool.quoteToken pool with Some t => t | None => RawToken.empty end in
  let baseSymbol := str_or (RawToken.symbol baseToken) "" in
  let quoteSymbol := str_or (RawToken.symbol quoteToken) "" in
  let isWrapped := isWrappedPair baseSymbol quoteSymbol in
  let '(baseAssetClass, quoteAssetClass) := orient baseSymbol quoteSymbol in
  match determinePairType baseAssetClass quoteAssetClass with
  | None => None
  | Some pairType =>
      if (negb isWrapped && class_eq baseAssetClass quoteAssetClass)%bool then None
      else
        let chainName :=
          str_or (lookup (toLowerCase (str_or (RawPool.chainId pool) "")) CONFIG.CHAIN_ID_MAP)
                 (str_or (RawPool.chainId pool) "unknown") in
        let feeTier0 := match RawPool.labels pool with
                        | Some labels => fee_of_labels labels
                        | None => None
                        end in
        let feeTier1 :=
          if (negb (option_float_truthy feeTier0) && truthy (RawPool.feeTier pool))%bool
          then parseFeeToPercent (RawPool.feeTier pool) else feeTier0 in
        let feeTier2 :=
          if negb (option_float_truthy feeTier1) then
            let pairName := str_or (RawPool.pairName pool) (baseSymbol ++ "/" ++ quoteSymbol) in
            match match_percent pairName with
            | Some g => Some (parseFloat_string g)
            | None => feeTier1
            end
          else feeTier1 in
        Some
          {| Pool.id := RawPool.pairAddress pool;
             Pool.name := JStr (baseSymbol ++ "/" ++ quoteSymbol);
             Pool.baseAsset := baseAssetClass;
             Pool.quoteAsset := quoteAssetClass;
             Pool.pairType := Some pairType;
             Pool.liquidityUsd := JNum (num_or (parseFloat (RawPool.liquidity_usd pool)) 0);
             Pool.volumeUsd24h := JNum (num_or (parseFloat (RawPool.volume_h24 pool)) 0);
             Pool.feeTier := feeTier2;
             Pool.chain := chainName;
             Pool.source := RawPool._source pool;
             Pool.sourceRank := RawPool._sourceRank pool;
             Pool.score := None;
             Pool.apr := None;
             Pool.poolUrl := if str_truthy (RawPool.url pool) then RawPool.url pool else None |}
  end.

(** [seenIds.has(x)] on the set kept as the list of the ids added so far. *)
Definition set_has (seenIds : list jsval) (x : jsval) : bool :=
  existsb (fun y => same_value_zero y x) seenIds.

Definition normalizeOne (pool : RawPool.t) : Rand (option Pool.t) :=
  if strict_eq (RawPool._source pool) (JStr "GeckoTerminal") then normalizeGeckoTerminalPool pool
  else if strict_eq (RawPool._source pool) (JStr "DexScreener") then ret (normalizeDexScreenerPool pool)
  else ret None.

(** The loop of [normalizeAllPools]: [normalizedPools] is kept in push order. *)
Fixpoint normalizeLoop (rawPools : list RawPool.t) (normalizedPools : list Pool.t)
  (seenIds : list jsval) : Rand (list Pool.t) :=
  match rawPools with
  | [] => ret normalizedPools
  | pool :: rest =>
      normalized <- normalizeOne pool ;;
      match normalized with
      | Some p =>
          if negb (set_has seenIds (Pool.id p))
          then normalizeLoop rest (normalizedPools ++ [p])%list (seenIds ++ [Pool.id p])%list
          else normalizeLoop rest normalizedPools seenIds
      | None => normalizeLoop rest normalizedPools seenIds
      end
  end.

Definition normalizeAllPools (rawPools : list RawPool.t) : Rand (list Pool.t) :=
  match rawPools with
  | [] => ret []
  | _ => normalizeLoop rawPools [] []
  end.

End Normalizer.

(** * Validation and scoring *)

Definition is_none {A : Type} (o : option A) : bool :=
  match o with None => true | Some _ => false end.

Definition validatePool (pool : Pool.t) : bool :=
  if (negb (truthy (Pool.id pool)) || negb (truthy (Pool.name pool))
      || is_none (Pool.baseAsset pool) || is_none (Pool.pairType pool))%bool then false
  else if (negb (is_number (Pool.liquidityUsd pool))
           || negb (is_number (Pool.volumeUsd24h pool)))%bool then false
  else if (to_number (Pool.liquidityUsd pool) <? CONFIG.MIN_LIQUIDITY)%float then false
  else if (to_number (Pool.volumeUsd24h pool) <? CONFIG.MIN_VOLUME_24H)%float then false
  else if (to_number (Pool.liquidityUsd pool) <=? 0)%float then false
  else true.

Definition filterPools (pools : list Pool.t) : list Pool.t :=
  filter (fun pool => validatePool pool) pools.

Definition calculateTurnoverScore (pool : Pool.t) : float :=
  if (to_number (Pool.liquidityUsd pool) <=? 0)%float then 0%float
  else (to_number (Pool.volumeUsd24h pool) / to_number (Pool.liquidityUsd pool))%float.

(** [pool.feeTier || CONFIG.DEFAULT_FEE_PERCENT || 0.3]. *)
Definition effectiveFee (pool : Pool.t) : float :=
  match Pool.feeTier pool with
  | Some f => if truthy (JNum f) then f else num_or CONFIG.DEFAULT_FEE_PERCENT 0.3
  | None => num_or CONFIG.DEFAULT_FEE_PERCENT 0.3
  end.

(** The object [{...pool, score, apr}]. *)
Definition with_score (pool : Pool.t) (score apr : float) : Pool.t :=
  {| Pool.id := Pool.id pool;
     Pool.name := Pool.name pool;
     Pool.baseAsset := Pool.baseAsset pool;
     Pool.quoteAsset := Pool.quoteAsset pool;
     Pool.pairType := Pool.pairType pool;
     Pool.liquidityUsd := Pool.liquidityUsd pool;
     Pool.volumeUsd24h := Pool.volumeUsd24h pool;
     Pool.feeTier := Pool.feeTier pool;
     Pool.chain := Pool.chain pool;
     Pool.source := Pool.source pool;
     Pool.sourceRank := Pool.sourceRank pool;
     Pool.score := Some score;
     Pool.apr := Some apr;
     Pool.poolUrl := Pool.poolUrl pool |}.

Definition scorePool (pool : Pool.t) : Pool.t :=
  let score := calculateTurnoverScore pool in
  let apr := calculateApr (Pool.volumeUsd24h pool) (Pool.liquidityUsd pool) (effectiveFee pool) in
  with_score pool score apr.

(** A [score] field as a value: [null] before scoring. *)
Definition score_value (o : option float) : jsval :=
  match o with
  | Some f => JNum f
  | None => JNull
  end.

(** The comparator of [scoreAndRankPools]. *)
Definition compareScored (a b : Pool.t) : float :=
  let sa := score_value (Pool.score a) in
  let sb := score_value (Pool.score b) in
  if negb (strict_eq sb sa) then (to_number sb - to_number sa)%float
  else (to_number (Pool.liquidityUsd b) - to_number (Pool.liquidityUsd a))%float.

(** [Array.prototype.sort(comparefn)].  The standard leaves the algorithm to
    the engine and requires the result to be stable; with a consistent
    comparator every conforming engine returns the same array.  It is modelled
    by the stable insertion sort: [x] moves behind [y] exactly when
    [comparefn(x, y) > 0] (a NaN result counts as zero). *)
Section JsSort.

Context {A : Type}.
Variable comparefn : A -> A -> float.

Fixpoint sort_insert (x : A) (l : list A) : list A :=
  match l with
  | [] => [x]
  | y :: l' => if (0 <? comparefn x y)%float then y :: sort_insert x l' else x :: l
  end.

Definition js_sort (l : list A) : list A := fold_right sort_insert [] l.

End JsSort.

Definition scoreAndRankPools (pools : list Pool.t) : list Pool.t :=
  let scoredPools := map scorePool pools in
  js_sort compareScored scoredPools.

(** * Categorization *)

Definition PairType_eqb (a b : PairType) : bool :=
  match a, b with
  | btc_stable, btc_stable | eth_stable, eth_stable
  | btc_eth, btc_eth | wrapped, wrapped => true
  | _, _ => false
  end.

Definition Categories : Type := list (PairType * list Pool.t).

(** [if (categories[pool.pairType]) categories[pool.pairType].push(pool)]. *)
Definition push_category (categories : Categories) (pool : Pool.t) : Categories :=
  match Pool.pairType pool with
  | None => categories
  | Some k =>
      map (fun '(key, members) =>
             if PairType_eqb key k then (key, (members ++ [pool])%list) else (key, members))
          categories
  end.

Definition categorizePools (pools : list Pool.t) : Categories :=
  let categories :=
    fold_left push_category pools
      [ (btc_stable, []); (eth_stable, []); (btc_eth, []); (wrapped, []) ] in
  map (fun '(key, members) => (key, scoreAndRankPools members)) categories.

(** * The pipeline of [mainApp]: normalize, filter, categorize *)

Definition pipeline (random36 : nat -> string) (allRawPools : list RawPool.t) : Categories :=
  let normalizedPools := fst (normalizeAllPools random36 allRawPools 0) in
  let validPools := filterPools normalizedPools in
  categorizePools validPools.

(** * Presentation classes *)

Definition getAprColorClass (apr : float) : string :=
  if (50 <=? apr)%float then "apr-excellent"
  else if (20 <=? apr)%float then "apr-good"
  else if (5 <=? apr)%float then "apr-moderate"
  else "apr-low".

Definition getFeeBadgeClass (feePercent : float) : string :=
  if (feePercent <=? 0.05)%float then "fee-low"
  else if (feePercent <=? 0.3)%float then "fee-medium"
  else "fee-high".

(** * Fetching *)

(** The rest of [config.js]. *)
Module SOURCES.

Definition HIGH_CONFIDENCE_CHAINS : list string := ["ethereum"].

Definition MEDIUM_CONFIDENCE_CHAINS : list string :=
  ["arbitrum"; "optimism"; "base"; "polygon"; "zksync"; "linea"; "scroll"; "blast"].

Definition GeckoTerminal_baseUrl : string := "https://api.geckoterminal.com/api/v2".
Definition GeckoTerminal_rank : float := 1%float.

Definition DexScreener_baseUrl : string := "https://api.dexscreener.com/latest/dex".
Definition DexScreener_rank : float := 2%float.

End SOURCES.

(** A record as a source answers it: the fields the normalizers read, and
    [attributes.network], which only the orchestrator reads. *)
Module Upstream.
Record t : Type := {
  record : RawPool.t;
  attributes_network : option string
}.
End Upstream.

(** The body of an answer as far as the fetchers look at it: the array under
    [data] and the array under [pairs]; [None] stands for a field that is
    absent, falsy or not an array. *)
Module Body.
Record t : Type := {
  data : option (list Upstream.t);
  pairs : option (list Upstream.t)
}.
End Body.

(** The network: what a request for a URL is answered with at the time of a
    run.  [None] is the [null] of [fetchWithTimeout]: the request failed, timed
    out, or was answered with a status that is not ok. *)
Definition Network : Type := string -> option Body.t.

Definition fetchWithTimeout (network : Network) (url : string) : option Body.t := network url.

(** [encodeURIComponent] on code units below 256: the unreserved characters
    stay, any other is written as the percent-escaped bytes of its UTF-8 form. *)
Definition is_unreserved (c : ascii) : bool :=
  (in_range 65 90 c || in_range 97 122 c || is_digit c || has_char c "-_.!~*'()")%bool.

Definition hex_digit (n : N) : ascii :=
  if N.ltb n 10 then ascii_of_N (48 + n) else ascii_of_N (55 + n).

Definition percent_byte (byte : N) : string :=
  String "%" (String (hex_digit (N.div byte 16)) (String (hex_digit (N.modulo byte 16)) "")).

Definition encode_char (c : ascii) : string :=
  if is_unreserved c then String c ""
  else if N.ltb (code c) 128 then percent_byte (code c)
  else percent_byte (192 + N.div (code c) 64) ++ percent_byte (128 + N.modulo (code c) 64).

Fixpoint encodeURIComponent (s : string) : string :=
  match s with
  | EmptyString => EmptyString
  | String c s' => encode_char c ++ encodeURIComponent s'
  end.

(** [dataCache], a [Map] from keys to arrays of records. *)
Definition Cache : Type := list (string * list Upstream.t).

(** [dataCache.get(key)]; [None] when [dataCache.has(key)] is false. *)
Fixpoint cache_get (key : string) (cache : Cache) : option (list Upstream.t) :=
  match cache with
  | [] => None
  | (k, v) :: rest => if String.eqb k key then Some v else cache_get key rest
  end.

(** [dataCache.set(key, value)]. *)
Fixpoint cache_set (key : string) (value : list Upstream.t) (cache : Cache) : Cache :=
  match cache with
  | [] => [(key, value)]
  | (k, v) :: rest =>
      if String.eqb k key then (k, value) :: rest else (k, v) :: cache_set key value rest
  end.

(** [dataCache.clear()]. *)
Definition clearCache (cache : Cache) : Cache := [].

Definition fetchGeckoTerminalPoolsForChain (network : Network) (chainName : string)
  (cache : Cache) : list Upstream.t * Cache :=
  match lookup chainName CONFIG.CHAIN_TO_GECKO_ID with
  | None => ([], cache)
  | Some geckoChainId =>
      if is_empty geckoChainId then ([], cache)
      else
        let cacheKey := "gt-" ++ geckoChainId in
        match cache_get cacheKey cache with
        | Some cached => (cached, cache)
        | None =>
            let url := SOURCES.GeckoTerminal_baseUrl ++ "/networks/" ++ geckoChainId
                       ++ "/pools?page=1" in
            match fetchWithTimeout network url with
            | Some {| Body.data := Some data |} => (data, cache_set cacheKey data cache)
            | _ => ([], cache)
            end
        end
  end.

Definition fetchGeckoTerminalTokenSearch (network : Network) (query : string)
  (cache : Cache) : list Upstream.t * Cache :=
  let cacheKey := "gt-search-" ++ query in
  match cache_get cacheKey cache with
  | Some cached => (cached, cache)
  | None =>
      let url := SOURCES.GeckoTerminal_baseUrl ++ "/search/pools?query="
                 ++ encodeURIComponent query ++ "&page=1" in
      match fetchWithTimeout network url with
      | Some {| Body.data := Some data |} => (data, cache_set cacheKey data cache)
      | _ => ([], cache)
      end
  end.

Definition fetchDexScreenerQuery (network : Network) (query : string) : list Upstream.t :=
  let url := SOURCES.DexScreener_baseUrl ++ "/search?q=" ++ encodeURIComponent query in
  match fetchWithTimeout network url with
  | Some {| Body.pairs := Some pairs |} => pairs
  | _ => []
  end.

(** The object [{...p, _source, _sourceRank, _chain}]. *)
Definition with_provenance (p : RawPool.t) (source : jsval) (sourceRank : jsval)
  (chain : option string) : RawPool.t :=
  {| RawPool._source := source;
     RawPool._sourceRank := sourceRank;
     RawPool._chain := chain;
     RawPool.id := RawPool.id p;
     RawPool.attributes := RawPool.attributes p;
     RawPool.baseToken := RawPool.baseToken p;
     RawPool.quoteToken := RawPool.quoteToken p;
     RawPool.chainId := RawPool.chainId p;
     RawPool.labels := RawPool.labels p;
     RawPool.feeTier := RawPool.feeTier p;
     RawPool.pairName := RawPool.pairName p;
     RawPool.pairAddress := RawPool.pairAddress p;
     RawPool.liquidity_usd := RawPool.liquidity_usd p;
     RawPool.volume_h24 := RawPool.volume_h24 p;
     RawPool.url := RawPool.url p |}.

(** A settled answer is the array fetched and the chain or query it was
    fetched for.  The records of one chain answer, tagged: *)
Definition tagChainResult (result : list Upstream.t * string) : list RawPool.t :=
  let (data, chain) := result in
  match data with
  | [] => []
  | _ =>
      map (fun p => with_provenance (Upstream.record p) (JStr "GeckoTerminal")
                      (JNum SOURCES.GeckoTerminal_rank) (Some chain))
          data
  end.

(** The records of one search answer, tagged. *)
Definition tagSearchResult (result : list Upstream.t * string) : list RawPool.t :=
  let (data, _) := result in
  match data with
  | [] => []
  | _ =>
      map (fun p => with_provenance (Upstream.record p) (JStr "GeckoTerminal")
                      (JNum SOURCES.GeckoTerminal_rank)
                      (Some (str_or (Upstream.attributes_network p) "unknown")))
          data
  end.

(** The object [{...pair, _source, _sourceRank}]: [_chain] stays as it is. *)
Definition tagDexPair (dexPair : Upstream.t) : RawPool.t :=
  with_provenance (Upstream.record dexPair) (JStr "DexScreener")
    (JNum SOURCES.DexScreener_rank) (RawPool._chain (Upstream.record dexPair)).

(** The inner loop over the pairs of one DexScreener answer. *)
Fixpoint pushDexPairs (data : list Upstream.t) (allRawPools : list RawPool.t)
  (seenDexPairs : list jsval) : list RawPool.t * list jsval :=
  match data with
  | [] => (allRawPools, seenDexPairs)
  | dexPair :: rest =>
      let pairAddress := RawPool.pairAddress (Upstream.record dexPair) in
      if negb (set_has seenDexPairs pairAddress)
      then pushDexPairs rest (allRawPools ++ [tagDexPair dexPair])%list
                        (seenDexPairs ++ [pairAddress])%list
      else pushDexPairs rest allRawPools seenDexPairs
  end.

(** The loop over the DexScreener answers. *)
Fixpoint processDexResults (dexResults : list (list Upstream.t * string))
  (allRawPools : list RawPool.t) (seenDexPairs : list jsval) : list RawPool.t * list jsval :=
  match dexResults with
  | [] => (allRawPools, seenDexPairs)
  | (data, _) :: rest =>
      let (allRawPools', seenDexPairs') := pushDexPairs data allRawPools seenDexPairs in
      processDexResults rest allRawPools' seenDexPairs'
  end.

(** What [fetchAllPoolData] does with the settled answers. *)
Definition collectRawPools (chainResults searchResults dexResults : list (list Upstream.t * string))
  : list RawPool.t :=
  let allRawPools := flat_map tagChainResult chainResults in
  let allRawPools := (allRawPools ++ flat_map tagSearchResult searchResults)%list in
  fst (processDexResults dexResults allRawPools []).

(** The requests of one kind.  They are started together: each looks the
    cache up when it starts and writes it when its answer arrives.  The
    requests of a run have distinct cache keys, so the order in which the
    answers arrive cannot be observed; they are threaded in the order of the
    promise list.  Every promise is fulfilled, since a fetcher never rejects. *)
Fixpoint fetchEach (fetch : string -> Cache -> list Upstream.t * Cache) (queries : list string)
  (cache : Cache) : list (list Upstream.t * string) * Cache :=
  match queries with
  | [] => ([], cache)
  | query :: rest =>
      let (data, cache1) := fetch query cache in
      let (results, cache2) := fetchEach fetch rest cache1 in
      ((data, query) :: results, cache2)
  end.

Definition chainsToFetch : list string :=
  (SOURCES.HIGH_CONFIDENCE_CHAINS ++ SOURCES.MEDIUM_CONFIDENCE_CHAINS)%list.

Definition tokenSearches : list string := ["WBTC"; "cbBTC"; "WETH"; "stETH"; "wstETH"; "rETH"].

Definition dexScreenerQueries : list string := ["WBTC"; "WETH"].

Definition fetchAllPoolData (network : Network) (cache : Cache) : list RawPool.t * Cache :=
  let (chainResults, cache1) :=
    fetchEach (fetchGeckoTerminalPoolsForChain network) chainsToFetch cache in
  let (searchResults, cache2) :=
    fetchEach (fetchGeckoTerminalTokenSearch network) tokenSearches cache1 in
  let dexResults := map (fun query => (fetchDexScreenerQuery network query, query))
                        dexScreenerQueries in
  (collectRawPools chainResults searchResults dexResults, cache2).

(** * The dashboard: refresh and column sort *)

(** [Object.values(categorizedPools).reduce((sum, arr) => sum + arr.length, 0)]. *)
Definition totalPools (categorizedPools : Categories) : nat :=
  fold_left (fun sum arr => sum + List.length arr) (map snd categorizedPools) 0.

(** The last message of a refresh in the status bar: the number of pools
    loaded, or the message of the error. *)
Inductive StatusBar : Type :=
  | status_success (totalPools : nat)
  | status_error (message : string).

(** The state of the page: the cache, the categories kept for sorting, and for
    each section the array last handed to [renderPoolsToTable]. *)
Module Dashboard.
Record t : Type := {
  dataCache : Cache;
  currentCategorizedPools : Categories;
  rendered : Categories;
  statusBar : StatusBar
}.
End Dashboard.

Definition emptyCategories : Categories :=
  [ (btc_stable, []); (eth_stable, []); (btc_eth, []); (wrapped, []) ].

(** [categories[sectionId]]. *)
Fixpoint section_pools (sectionId : PairType) (categories : Categories)
  : option (list Pool.t) :=
  match categories with
  | [] => None
  | (key, members) :: rest =>
      if PairType_eqb key sectionId then Some members else section_pools sectionId rest
  end.

(** The categories with the array of one section replaced. *)
Definition set_section (sectionId : PairType) (pools : list Pool.t) (categories : Categories)
  : Categories :=
  map (fun '(key, members) =>
         if PairType_eqb key sectionId then (key, pools) else (key, members))
      categories.

(** [mainApp]: a refresh.  [random36] gives the draws of this run, [network]
    the answers of this run.  An empty fetch is the error that the function
    throws and catches itself. *)
Definition mainApp (random36 : nat -> string) (network : Network) (d : Dashboard.t)
  : Dashboard.t :=
  let (allRawPools, dataCache) := fetchAllPoolData network (Dashboard.dataCache d) in
  match allRawPools with
  | [] =>
      {| Dashboard.dataCache := dataCache;
         Dashboard.currentCategorizedPools := Dashboard.currentCategorizedPools d;
         Dashboard.rendered := emptyCategories;
         Dashboard.statusBar := status_error "All data sources failed to return pool data." |}
  | _ =>
      let categorizedPools := pipeline random36 allRawPools in
      {| Dashboard.dataCache := dataCache;
         Dashboard.currentCategorizedPools := categorizedPools;
         Dashboard.rendered := categorizedPools;
         Dashboard.statusBar := status_success (totalPools categorizedPools) |}
  end.

(** The click handler of the refresh button: the cache is cleared, then the
    dashboard is refreshed. *)
Definition manualRefresh (random36 : nat -> string) (network : Network) (d : Dashboard.t)
  : Dashboard.t :=
  mainApp random36 network
    {| Dashboard.dataCache := clearCache (Dashboard.dataCache d);
       Dashboard.currentCategorizedPools := Dashboard.currentCategorizedPools d;
       Dashboard.rendered := Dashboard.rendered d;
       Dashboard.statusBar := Dashboard.statusBar d |}.

(** The numeric columns of the table.  The columns [name] and [chain] are
    compared by [localeCompare], which is left to the host, and are not
    modelled. *)
Inductive SortKey : Type :=
  sort_feeTier | sort_apr | sort_liquidityUsd | sort_volumeUsd24h | sort_score.

Inductive SortOrder : Type := asc | desc.

(** [a[sortKey]]. *)
Definition sort_field (sortKey : SortKey) (a : Pool.t) : jsval :=
  match sortKey with
  | sort_feeTier => score_value (Pool.feeTier a)
  | sort_apr => score_value (Pool.apr a)
  | sort_liquidityUsd => Pool.liquidityUsd a
  | sort_volumeUsd24h => Pool.volumeUsd24h a
  | sort_score => score_value (Pool.score a)
  end.

(** [v || 0]. *)
Definition value_or_zero (v : jsval) : jsval := if truthy v then v else JNum 0.

(** The comparator of [sortSectionByKey] on a numeric column. *)
Definition compareByKey (sortKey : SortKey) (newOrder : SortOrder) (a b : Pool.t) : float :=
  let aVal := value_or_zero (sort_field sortKey a) in
  let bVal := value_or_zero (sort_field sortKey b) in
  match newOrder with
  | asc => (to_number aVal - to_number bVal)%float
  | desc => (to_number bVal - to_number aVal)%float
  end.

(** [sortSectionByKey] on a numeric column.  [isCurrentlyDesc] tells whether
    the clicked header carries the class [sort-desc]; the order returned is the
    one written to the header, [None] when the function returns at once.  The
    array of the section is sorted in place and rendered. *)
Definition sortSectionByKey (sectionId : PairType) (sortKey : SortKey) (isCurrentlyDesc : bool)
  (d : Dashboard.t) : Dashboard.t * option SortOrder :=
  match section_pools sectionId (Dashboard.currentCategorizedPools d) with
  | None | Some [] => (d, None)
  | Some pools =>
      let newOrder := if isCurrentlyDesc then asc else desc in
      let sorted := js_sort (compareByKey sortKey newOrder) pools in
      ({| Dashboard.dataCache := Dashboard.dataCache d;
          Dashboard.currentCategorizedPools :=
            set_section sectionId sorted (Dashboard.currentCategorizedPools d);
          Dashboard.rendered := set_section sectionId sorted (Dashboard.rendered d);
          Dashboard.statusBar := Dashboard.statusBar d |},
       Some newOrder)
  end.

(** * Definitions used to state the properties *)

(** ** Asset classes *)

(** The resolution rule as the specification words it: the lower-cased symbol
    is a member of the alias list. *)
Fixpoint first_member_class (lowerSymbol : string) (table : list (AssetClass * list string))
  : option AssetClass :=
  match table with
  | [] => None
  | (assetClass, alts) :: rest =>
      if existsb (String.eqb lowerSymbol) alts then Some assetClass
      else first_member_class lowerSymbol rest
  end.

Definition resolveAssetClass_by_membership (symbol : option string) : option AssetClass :=
  if negb (str_truthy symbol) then None
  else first_member_class (toLowerCase (str_or symbol "")) CONFIG.ASSET_CLASSES.

(** The order in which the classes are tested. *)
Definition class_rank (c : AssetClass) : nat :=
  match c with BTC => 0 | ETH => 1 | STABLE => 2 end.

(** Some alias of class [c] occurs in [lowerSymbol] as a substring. *)
Definition alias_occurs (c : AssetClass) (lowerSymbol : string) : Prop :=
  exists alts alt, aliases_in CONFIG.ASSET_CLASSES c = Some alts /\ In alt alts
                   /\ includes lowerSymbol alt = true.

Definition alias_occursb (c : AssetClass) (lowerSymbol : string) : bool :=
  match aliases_in CONFIG.ASSET_CLASSES c with
  | Some alts => existsb (fun alt => includes lowerSymbol alt) alts
  | None => false
  end.

(** ** Symbols read by the normalizers *)

Definition gecko_symbols (pool : RawPool.t) : string * string :=
  let attrs := match RawPool.attributes pool with Some a => a | None => RawAttrs.empty end in
  (str_or (RawAttrs.base_token_symbol attrs) "", str_or (RawAttrs.quote_token_symbol attrs) "").

Definition dex_symbols (pool : RawPool.t) : string * string :=
  let baseToken := match RawPool.baseToken pool with Some t => t | None => RawToken.empty end in
  let quoteToken := match RawPool.quoteToken pool with Some t => t | None => RawToken.empty end in
  (str_or (RawToken.symbol baseToken) "", str_or (RawToken.symbol quoteToken) "").

(** ** Provenance *)

Definition known_source (pool : RawPool.t) : bool :=
  (strict_eq (RawPool._source pool) (JStr "GeckoTerminal")
   || strict_eq (RawPool._source pool) (JStr "DexScreener"))%bool.

(** The normalizer draws a random id for this record: a GeckoTerminal record
    without an id that passes the pair classification. *)
Definition draws_id (pool : RawPool.t) : bool :=
  (strict_eq (RawPool._source pool) (JStr "GeckoTerminal")
   && negb (str_truthy (RawPool.id pool))
   && (let '(b, q) := orient (fst (gecko_symbols pool)) (snd (gecko_symbols pool)) in
       match determinePairType b q with
       | Some _ =>
           negb (negb (isWrappedPair (fst (gecko_symbols pool)) (snd (gecko_symbols pool)))
                 && class_eq b q)
       | None => false
       end))%bool.

(** ** Deduplication *)

(** Every raw record normalized in turn, the rejected ones left out. *)
Fixpoint normalizeEach (random36 : nat -> string) (rawPools : list RawPool.t)
  : Rand (list Pool.t) :=
  match rawPools with
  | [] => ret []
  | pool :: rest =>
      normalized <- normalizeOne random36 pool ;;
      others <- normalizeEach random36 rest ;;
      ret (match normalized with
           | Some p => p :: others
           | None => others
           end)
  end.

(** First-seen-wins as the specification words it: a record is kept exactly
    when no record before it, kept or dropped, has the same id. *)
Fixpoint first_occurrences (earlier pools : list Pool.t) : list Pool.t :=
  match pools with
  | [] => []
  | p :: rest =>
      if existsb (fun e => same_value_zero (Pool.id e) (Pool.id p)) earlier
      then first_occurrences (earlier ++ [p]) rest
      else p :: first_occurrences (earlier ++ [p]) rest
  end.

(** The loop's own bookkeeping: a record is kept when its id is not in the set. *)
Fixpoint dedup_seen (seenIds : list jsval) (pools : list Pool.t) : list Pool.t :=
  match pools with
  | [] => []
  | p :: rest =>
      if set_has seenIds (Pool.id p) then dedup_seen seenIds rest
      else p :: dedup_seen (seenIds ++ [Pool.id p]) rest
  end.

Definition distinct_ids (a b : Pool.t) : Prop :=
  same_value_zero (Pool.id a) (Pool.id b) = false.

(** ** Amounts, scores and ranks *)

(** The numeric fields of a pool are numbers that are not NaN. *)
Definition amounts_defined (p : Pool.t) : Prop :=
  exists l v, Pool.liquidityUsd p = JNum l /\ Pool.volumeUsd24h p = JNum v
              /\ is_nan l = false /\ is_nan v = false.

Definition score_of (p : Pool.t) : float := to_number (score_value (Pool.score p)).

Definition liquidity_of (p : Pool.t) : float := to_number (Pool.liquidityUsd p).

(** [a] may stand immediately before [b] in a ranking: the score does not
    increase, and on equal scores the liquidity does not increase. *)
Definition ranked_before (a b : Pool.t) : Prop :=
  (score_of b <=? score_of a)%float = true
  /\ ((score_of a =? score_of b)%float = true ->
      (liquidity_of b <=? liquidity_of a)%float = true).

Definition score_not_below (a b : Pool.t) : Prop := (score_of b <=? score_of a)%float = true.

(** [p] has the score and the liquidity of [q]. *)
Definition same_rank (q p : Pool.t) : bool :=
  ((score_of p =? score_of q)%float && (liquidity_of p =? liquidity_of q)%float)%bool.

(** A scored pool whose score and liquidity are numbers that compare. *)
Definition comparable (p : Pool.t) : Prop :=
  (exists s, Pool.score p = Some s) /\ is_nan (score_of p) = false
  /\ is_nan (liquidity_of p) = false.

(** The order of the scores, tested on adjacent entries. *)
Fixpoint scores_non_increasing (l : list Pool.t) : bool :=
  match l with
  | a :: (b :: _) as rest => ((score_of b <=? score_of a)%float && scores_non_increasing rest)%bool
  | _ => true
  end.

(** ** APR *)

(** The APR formula of the specification for a given fee percentage. *)
Definition apr_by_formula (fee : float) (pool : Pool.t) : float :=
  (to_number (Pool.volumeUsd24h pool) * (fee / 100) * 365
   / to_number (Pool.liquidityUsd pool) * 100)%float.

(** The fee as the specification words it: [feeTier] unless it is [null]. *)
Definition fee_or_default (pool : Pool.t) : float :=
  match Pool.feeTier pool with
  | Some f => f
  | None => CONFIG.DEFAULT_FEE_PERCENT
  end.

(** ** Sample data *)

Definition sample_pool (id : string) (liquidityUsd volumeUsd24h : float)
  (feeTier : option float) : Pool.t :=
  {| Pool.id := JStr id; Pool.name := JStr "WBTC/USDC";
     Pool.baseAsset := Some BTC; Pool.quoteAsset := Some STABLE;
     Pool.pairType := Some btc_stable;
     Pool.liquidityUsd := JNum liquidityUsd; Pool.volumeUsd24h := JNum volumeUsd24h;
     Pool.feeTier := feeTier; Pool.chain := "ethereum";
     Pool.source := JStr "GeckoTerminal"; Pool.sourceRank := JNum 1;
     Pool.score := None; Pool.apr := None; Pool.poolUrl := None |}.

Definition plain_pool : Pool.t := sample_pool "0xabc" 1000000 250000 None.

(** A pool whose liquidity and volume are NaN. *)
Definition nan_pool : Pool.t := sample_pool "0xnan" nan nan None.

(** A pool whose liquidity and volume are infinite: its score is NaN. *)
Definition unbounded_pool : Pool.t := sample_pool "0xinf" infinity infinity None.

(** A pool whose fee tier is the number zero. *)
Definition free_pool : Pool.t := sample_pool "0xfee" 1000000 250000 (Some 0%float).

Definition sample_pools : list Pool.t :=
  [ sample_pool "0x01" 1000000 250000 None;
    sample_pool "0x02" 500000 250000 None;
    sample_pool "0x03" 2000000 500000 None;
    sample_pool "0x04" 1000000 250000 None ].

Definition gecko_record (id : option string) (baseSymbol quoteSymbol : string)
  (reserve volume swap_fee : jsval) : RawPool.t :=
  {| RawPool._source := JStr "GeckoTerminal"; RawPool._sourceRank := JNum 1;
     RawPool._chain := Some "ethereum"; RawPool.id := id;
     RawPool.attributes :=
       Some {| RawAttrs.base_token_symbol := Some baseSymbol;
               RawAttrs.quote_token_symbol := Some quoteSymbol;
               RawAttrs.name := None;
               RawAttrs.reserve_in_usd := reserve; RawAttrs.volume_usd_h24 := volume;
               RawAttrs.swap_fee := swap_fee; RawAttrs.fee := JUndefined;
               RawAttrs.pool_fee := JUndefined;
               RawAttrs.network_identifier := None; RawAttrs.network_id := None;
               RawAttrs.pool_url := None |};
     RawPool.baseToken := None; RawPool.quoteToken := None; RawPool.chainId := None;
     RawPool.labels := None; RawPool.feeTier := JUndefined; RawPool.pairName := None;
     RawPool.pairAddress := JUndefined; RawPool.liquidity_usd := JUndefined;
     RawPool.volume_h24 := JUndefined; RawPool.url := None |}.

Definition dex_record (source : jsval) (pairAddress : jsval) (baseSymbol quoteSymbol : string)
  (liquidity volume : jsval) : RawPool.t :=
  {| RawPool._source := source; RawPool._sourceRank := JNum 2;
     RawPool._chain := None; RawPool.id := None; RawPool.attributes := None;
     RawPool.baseToken := Some {| RawToken.symbol := Some baseSymbol |};
     RawPool.quoteToken := Some {| RawToken.symbol := Some quoteSymbol |};
     RawPool.chainId := Some "ethereum"; RawPool.labels := None;
     RawPool.feeTier := JUndefined; RawPool.pairName := None;
     RawPool.pairAddress := pairAddress; RawPool.liquidity_usd := liquidity;
     RawPool.volume_h24 := volume; RawPool.url := None |}.

(** A GeckoTerminal record that carries no id. *)
Definition anonymous_record : RawPool.t :=
  gecko_record None "WBTC" "USDC" (JStr "500000") (JStr "50000") JUndefined.

(** A GeckoTerminal record whose id is the one drawn for [anonymous_record]
    when the oracle answers [k3x9q0a1z]. *)
Definition colliding_record : RawPool.t :=
  gecko_record (Some "gt-k3x9q0a1z") "WETH" "USDC" (JStr "900000") (JStr "90000") JUndefined.

Definition wrapped_gecko_record : RawPool.t :=
  gecko_record (Some "eth_0xabc") "wbtc" "tbtc" (JStr "500000") (JStr "50000") JUndefined.

Definition wrapped_dex_record : RawPool.t :=
  dex_record (JStr "DexScreener") (JStr "eth_0xabc") "wbtc" "tbtc" (JNum 700000) (JNum 70000).

Definition foreign_record : RawPool.t :=
  dex_record (JStr "Uniswap") (JStr "0xdef") "WBTC" "USDC" (JNum 800000) (JNum 80000).

Definition free_record : RawPool.t :=
  gecko_record (Some "eth_0xfee") "WBTC" "USDC" (JStr "1000000") (JStr "250000") (JStr "0").

Definition unbounded_record : RawPool.t :=
  gecko_record (Some "eth_0xinf") "WBTC" "USDC" (JStr "Infinity") (JStr "Infinity") JUndefined.

Definition plain_record : RawPool.t :=
  gecko_record (Some "eth_0x123") "WBTC" "USDC" (JStr "1000000") (JStr "250000") JUndefined.

Definition category_ids (categories : Categories) : list (PairType * list jsval) :=
  map (fun '(key, members) => (key, map Pool.id members)) categories.

Definition category_scores (categories : Categories) : list (PairType * list float) :=
  map (fun '(key, members) => (key, map score_of members)) categories.

(** ** Pairs and orientation *)

(** The pair is kept by a normalizer: both symbols resolve, and two symbols of
    one class are a wrapped pair. *)
Definition pair_accepted (baseSymbol quoteSymbol : string) : bool :=
  match resolveAssetClass (Some baseSymbol), resolveAssetClass (Some quoteSymbol) with
  | Some b, Some q => if AssetClass_eqb b q then isWrappedPair baseSymbol quoteSymbol else true
  | _, _ => false
  end.

(** The symbols a raw record is classified by, according to its source. *)
Definition raw_symbols (pool : RawPool.t) : string * string :=
  if strict_eq (RawPool._source pool) (JStr "GeckoTerminal") then gecko_symbols pool
  else dex_symbols pool.

(** The classes [b] and [q] stand in the order of the pair type [t]. *)
Definition classes_in_order (b q : option AssetClass) (t : PairType) : bool :=
  match t with
  | btc_stable => (is_class BTC b && is_class STABLE q)%bool
  | eth_stable => (is_class ETH b && is_class STABLE q)%bool
  | btc_eth => (is_class BTC b && is_class ETH q)%bool
  | wrapped => ((is_class BTC b && is_class BTC q) || (is_class ETH b && is_class ETH q))%bool
  end.

(** The classes of a pool stand in the order of its pair type. *)
Definition canonical_orientation (p : Pool.t) : bool :=
  match Pool.pairType p with
  | Some t => classes_in_order (Pool.baseAsset p) (Pool.quoteAsset p) t
  | None => false
  end.

(** The fields a normalizer fills in whatever the record holds. *)
Definition normalized_shape (pool : RawPool.t) (symbols : string * string) (p : Pool.t) : Prop :=
  let classes := orient (fst symbols) (snd symbols) in
  (exists t, determinePairType (fst classes) (snd classes) = Some t
             /\ Pool.pairType p = Some t)
  /\ (negb (isWrappedPair (fst symbols) (snd symbols))
      && class_eq (fst classes) (snd classes))%bool = false
  /\ Pool.baseAsset p = fst classes
  /\ Pool.quoteAsset p = snd classes
  /\ truthy (Pool.name p) = true
  /\ Pool.score p = None /\ Pool.apr p = None
  /\ Pool.source p = RawPool._source pool
  /\ Pool.sourceRank p = RawPool._sourceRank pool.

(** ** Validation and categories *)

(** The checks of [validatePool] that come before its last one. *)
Definition validatePool_before_guard (pool : Pool.t) : bool :=
  (truthy (Pool.id pool) && truthy (Pool.name pool)
   && negb (is_none (Pool.baseAsset pool)) && negb (is_none (Pool.pairType pool))
   && is_number (Pool.liquidityUsd pool) && is_number (Pool.volumeUsd24h pool)
   && negb (to_number (Pool.liquidityUsd pool) <? CONFIG.MIN_LIQUIDITY)%float
   && negb (to_number (Pool.volumeUsd24h pool) <? CONFIG.MIN_VOLUME_24H)%float)%bool.

(** [pool.pairType] is the key [k]. *)
Definition has_pair_type (k : PairType) (pool : Pool.t) : bool :=
  match Pool.pairType pool with
  | Some t => PairType_eqb k t
  | None => false
  end.

Definition category_keys : list PairType := [btc_stable; eth_stable; btc_eth; wrapped].

(** The pools of all sections, section after section. *)
Definition all_pools (categorizedPools : Categories) : list Pool.t :=
  List.concat (map snd categorizedPools).

(** ** Presentation classes and column sort *)

Definition apr_class_rank (colorClass : string) : nat :=
  if String.eqb colorClass "apr-excellent" then 3
  else if String.eqb colorClass "apr-good" then 2
  else if String.eqb colorClass "apr-moderate" then 1
  else 0.

Definition fee_class_rank (badgeClass : string) : nat :=
  if String.eqb badgeClass "fee-low" then 0
  else if String.eqb badgeClass "fee-medium" then 1
  else 2.

(** The number a pool is sorted by. *)
Definition sort_number (sortKey : SortKey) (p : Pool.t) : float :=
  to_number (value_or_zero (sort_field sortKey p)).

(** [a] may stand before [b] in the order chosen. *)
Definition in_sort_order (sortKey : SortKey) (order : SortOrder) (a b : Pool.t) : Prop :=
  match order with
  | asc => (sort_number sortKey a <=? sort_number sortKey b)%float = true
  | desc => (sort_number sortKey b <=? sort_number sortKey a)%float = true
  end.

(** [p] is sorted by the number [q] is sorted by. *)
Definition same_sort_number (sortKey : SortKey) (q p : Pool.t) : bool :=
  (sort_number sortKey p =? sort_number sortKey q)%float.

(** The liquidity and the volume of a pool are of type number. *)
Definition numeric_amounts (p : Pool.t) : Prop :=
  is_number (Pool.liquidityUsd p) = true /\ is_number (Pool.volumeUsd24h p) = true.

(** ** Fetching *)

(** The common shape of the two GeckoTerminal fetchers, from the cache lookup
    on: the cached array when there is one; otherwise the array of the answer,
    which is cached, or the empty array, which is not. *)
Definition fetchCached (network : Network) (cacheKey url : string) (cache : Cache)
  : list Upstream.t * Cache :=
  match cache_get cacheKey cache with
  | Some cached => (cached, cache)
  | None =>
      match fetchWithTimeout network url with
      | Some {| Body.data := Some data |} => (data, cache_set cacheKey data cache)
      | _ => ([], cache)
      end
  end.


Definition tagged_GeckoTerminal (pool : RawPool.t) : Prop :=
  RawPool._source pool = JStr "GeckoTerminal"
  /\ RawPool._sourceRank pool = JNum SOURCES.GeckoTerminal_rank.

Definition tagged_DexScreener (pool : RawPool.t) : Prop :=
  RawPool._source pool = JStr "DexScreener"
  /\ RawPool._sourceRank pool = JNum SOURCES.DexScreener_rank.

Definition distinct_addresses (a b : RawPool.t) : Prop :=
  same_value_zero (RawPool.pairAddress a) (RawPool.pairAddress b) = false.

(** The pairs the DexScreener loop keeps: those whose address is not in the set. *)
Fixpoint unseen_pairs (seenDexPairs : list jsval) (pairs : list Upstream.t) : list Upstream.t :=
  match pairs with
  | [] => []
  | dexPair :: rest =>
      let pairAddress := RawPool.pairAddress (Upstream.record dexPair) in
      if set_has seenDexPairs pairAddress then unseen_pairs seenDexPairs rest
      else dexPair :: unseen_pairs (seenDexPairs ++ [pairAddress]) rest
  end.




(** The cache key of a chain request; [None] for a chain without a
    GeckoTerminal id, which is not requested. *)
Definition chainCacheKey (chainName : string) : option string :=
  match lookup chainName CONFIG.CHAIN_TO_GECKO_ID with
  | Some geckoChainId => if is_empty geckoChainId then None else Some ("gt-" ++ geckoChainId)
  | None => None
  end.

Definition searchCacheKey (query : string) : option string := Some ("gt-search-" ++ query).


(** The cache keys of the GeckoTerminal requests of a run. *)
Definition run_cache_keys : list (option string) :=
  (map chainCacheKey chainsToFetch ++ map searchCacheKey tokenSearches)%list.


(** What the cache holds for a request. *)
Definition cached_data (cache : Cache) (key : option string) : list Upstream.t :=
  match key with
  | Some k => match cache_get k cache with Some data => data | None => [] end
  | None => []
  end.

(** The network when every request fails. *)
Definition offline : Network := fun _ => None.

(** ** More sample data *)

(** A DexScreener pair quoted the other way round: the stablecoin first. *)
Definition swapped_record : RawPool.t :=
  dex_record (JStr "DexScreener") (JStr "0xc0ffee") "usdc" "wbtc" (JNum 500000) (JNum 50000).



(** A dashboard that shows the four sample pools in its first section. *)
Definition sample_dashboard : Dashboard.t :=
  {| Dashboard.dataCache := [];
     Dashboard.currentCategorizedPools := categorizePools sample_pools;
     Dashboard.rendered := categorizePools sample_pools;
     Dashboard.statusBar := status_success 4 |}.

(** * Properties *)

Import JsNumber.

(** ** C1: asset class resolution *)

Lemma alias_occurs_iff (c : AssetClass) (l : string) :
  alias_occurs c l <-> alias_occursb c l = true.
Proof.
  unfold alias_occurs, alias_occursb. split.
  - intros (alts & alt & H1 & H2 & H3). rewrite H1. apply existsb_exists. eauto.
  - destruct (aliases_in CONFIG.ASSET_CLASSES c) as [alts|] eqn:E; [|discriminate].
    intros H. apply existsb_exists in H. destruct H as (alt & H2 & H3). eauto.
Qed.

Lemma str_truthy_lower (symbol : option string) :
  str_truthy symbol = negb (is_empty (toLowerCase (str_or symbol ""))).
Proof.
  destruct symbol as [s|]; [|reflexivity]. simpl.
  destruct s; reflexivity.
Qed.

(** C1, counterexample: [ezETH] is in no alias list, yet it resolves to [ETH]
    because the alias [eth] occurs inside it. *)
Lemma resolveAssetClass_not_membership :
  resolveAssetClass (Some "ezETH") = Some ETH
  /\ resolveAssetClass_by_membership (Some "ezETH") = None.
Proof. split; reflexivity. Qed.

(** C1, amended: [resolveAssetClass] lower-cases the symbol and returns the
    first class among BTC, ETH, STABLE, in that order, one of whose aliases
    occurs in the symbol as a substring; it returns null when no alias of any
    class occurs in it, and for the empty or absent symbol.  On a symbol that
    lower-cases to an alias, this is the class of that alias, as the membership
    rule gives it. *)
Theorem resolveAssetClass_first_substring_class : forall symbol : option string,
  let lowerSymbol := toLowerCase (str_or symbol "") in
  (str_truthy symbol = false -> resolveAssetClass symbol = None)
  /\ (forall c, resolveAssetClass symbol = Some c <->
        str_truthy symbol = true /\ alias_occurs c lowerSymbol
        /\ forall c', class_rank c' < class_rank c -> ~ alias_occurs c' lowerSymbol)
  /\ (resolveAssetClass symbol = None <->
        str_truthy symbol = false \/ forall c, ~ alias_occurs c lowerSymbol)
  /\ (forall c alts, In (c, alts) CONFIG.ASSET_CLASSES -> In lowerSymbol alts ->
        resolveAssetClass symbol = resolveAssetClass_by_membership symbol
        /\ resolveAssetClass symbol = Some c).
Proof.
  intros symbol lowerSymbol.
  assert (R : resolveAssetClass symbol =
              if negb (str_truthy symbol) then None
              else if alias_occursb BTC lowerSymbol then Some BTC
              else if alias_occursb ETH lowerSymbol then Some ETH
              else if alias_occursb STABLE lowerSymbol then Some STABLE
              else None) by reflexivity.
  repeat split.
  - intros H. rewrite R, H. reflexivity.
  - rewrite R in H. destruct (str_truthy symbol); [reflexivity|discriminate].
  - rewrite R in H. apply alias_occurs_iff.
    destruct (str_truthy symbol); [|discriminate]. simpl in H.
    destruct (alias_occursb BTC lowerSymbol) eqn:E1; [congruence|].
    destruct (alias_occursb ETH lowerSymbol) eqn:E2; [congruence|].
    destruct (alias_occursb STABLE lowerSymbol) eqn:E3; [congruence|discriminate].
  - rewrite R in H. intros c' Hlt Hc'. apply alias_occurs_iff in Hc'.
    destruct (str_truthy symbol); [|discriminate]. simpl in H.
    destruct (alias_occursb BTC lowerSymbol) eqn:E1;
      [|destruct (alias_occursb ETH lowerSymbol) eqn:E2;
        [|destruct (alias_occursb STABLE lowerSymbol) eqn:E3; [|discriminate]]];
      injection H as <-; destruct c'; simpl in Hlt; try lia; congruence.
  - intros (Ht & Hc & Hmin). rewrite R, Ht. simpl.
    apply alias_occurs_iff in Hc.
    assert (Hmin' : forall c', class_rank c' < class_rank c ->
                               alias_occursb c' lowerSymbol = false).
    { intros c' Hlt. specialize (Hmin c' Hlt). rewrite alias_occurs_iff in Hmin.
      destruct (alias_occursb c' lowerSymbol); congruence. }
    destruct c.
    + rewrite Hc. reflexivity.
    + rewrite (Hmin' BTC) by (simpl; lia). rewrite Hc. reflexivity.
    + rewrite (Hmin' BTC), (Hmin' ETH) by (simpl; lia). rewrite Hc. reflexivity.
  - intros H. rewrite R in H. destruct (str_truthy symbol); [right|left; reflexivity].
    simpl in H. intros c Hc. apply alias_occurs_iff in Hc.
    destruct (alias_occursb BTC lowerSymbol) eqn:E1; [discriminate|].
    destruct (alias_occursb ETH lowerSymbol) eqn:E2; [discriminate|].
    destruct (alias_occursb STABLE lowerSymbol) eqn:E3; [discriminate|].
    destruct c; congruence.
  - intros [H|H]; rewrite R.
    + rewrite H. reflexivity.
    + destruct (str_truthy symbol); [|reflexivity]. simpl.
      assert (H' : forall c, alias_occursb c lowerSymbol = false).
      { intros c. specialize (H c). rewrite alias_occurs_iff in H.
        destruct (alias_occursb c lowerSymbol); congruence. }
      rewrite !H'. reflexivity.
  - unfold resolveAssetClass, resolveAssetClass_by_membership.
    fold lowerSymbol. rewrite str_truthy_lower. fold lowerSymbol.
    simpl in H.
    destruct H as [H|[H|[H|[]]]]; injection H as <- <-; simpl in H0;
      repeat (destruct H0 as [H0|H0]; [rewrite <- H0; reflexivity|]); destruct H0.
  - unfold resolveAssetClass.
    fold lowerSymbol. rewrite str_truthy_lower. fold lowerSymbol.
    simpl in H.
    destruct H as [H|[H|[H|[]]]]; injection H as <- <-; simpl in H0;
      repeat (destruct H0 as [H0|H0]; [rewrite <- H0; reflexivity|]); destruct H0.
Qed.

(** ** C2: fee normalization *)

Lemma includes_char (c : ascii) (s : string) : includes s (String c "") = has_char c s.
Proof.
  induction s as [|a s IH]; simpl.
  - reflexivity.
  - destruct (Ascii.ascii_dec c a) as [->|N].
    + rewrite Ascii.eqb_refl. destruct s; reflexivity.
    + assert (E : Ascii.eqb a c = false) by (apply Ascii.eqb_neq; congruence).
      rewrite E. simpl. rewrite <- IH. reflexivity.
Qed.

Lemma remove_first_absent (c : ascii) (s : string) : has_char c s = false -> remove_first c s = s.
Proof.
  induction s as [|a s IH]; simpl; [reflexivity|].
  intros H. apply orb_false_iff in H. destruct H as [H1 H2].
  rewrite H1, IH by exact H2. reflexivity.
Qed.

Lemma heuristic_above (n : float) :
  (100 <? n)%float = true -> heuristic_percent n = (n / 10000)%float.
Proof. unfold heuristic_percent. intros ->. reflexivity. Qed.

Lemma heuristic_below (n : float) :
  (n <? 1)%float = true -> heuristic_percent n = (n * 100)%float.
Proof.
  unfold heuristic_percent. intros H.
  assert (H100 : (n <? 100)%float = true) by (apply (ltb_trans n 1 100); [exact H|reflexivity]).
  rewrite (ltb_asym _ _ H100), H. reflexivity.
Qed.

Lemma heuristic_between (n : float) :
  (1 <=? n)%float = true -> (n <=? 100)%float = true -> heuristic_percent n = n.
Proof.
  unfold heuristic_percent. intros H1 H2.
  rewrite (leb_not_ltb _ _ H2), (leb_not_ltb _ _ H1). reflexivity.
Qed.

(** C2: [parseFeeToPercent] normalizes a fee to a percentage.  A number above
    100 is divided by 10000, a number below 1 is multiplied by 100, a number
    from 1 to 100 is returned unchanged; a string is parsed after its first
    percent sign is removed and the rest is trimmed: when it carried a percent
    sign the parsed number is returned as it is, otherwise it is treated as the
    number is; a string that does not parse, [null] and [undefined] give
    [null].  So 3000 gives 0.30, the string 0.3% gives 0.3 and 0.003 gives 0.3. *)
Theorem parseFeeToPercent_normalizes :
  (forall n, (100 <? n)%float = true -> parseFeeToPercent (JNum n) = Some (n / 10000)%float)
  /\ (forall n, (n <? 1)%float = true -> parseFeeToPercent (JNum n) = Some (n * 100)%float)
  /\ (forall n, (1 <=? n)%float = true -> (n <=? 100)%float = true ->
        parseFeeToPercent (JNum n) = Some n)
  /\ (forall s, let parsed := parseFloat_string (trim (remove_first "%" s)) in
        (is_nan parsed = true -> parseFeeToPercent (JStr s) = None)
        /\ (is_nan parsed = false -> includes s "%" = true ->
              parseFeeToPercent (JStr s) = Some parsed)
        /\ (is_nan parsed = false -> includes s "%" = false ->
              parsed = parseFloat_string (trim s)
              /\ parseFeeToPercent (JStr s) = parseFeeToPercent (JNum parsed)))
  /\ parseFeeToPercent JNull = None
  /\ parseFeeToPercent JUndefined = None
  /\ parseFeeToPercent (JNum 3000) = Some 0.30%float
  /\ parseFeeToPercent (JStr "0.3%") = Some 0.3%float
  /\ parseFeeToPercent (JNum 0.003) = Some 0.3%float.
Proof.
  repeat match goal with |- _ /\ _ => split end; try reflexivity.
  - intros n H. simpl. rewrite heuristic_above by exact H. reflexivity.
  - intros n H. simpl. rewrite heuristic_below by exact H. reflexivity.
  - intros n H1 H2. simpl. rewrite heuristic_between by assumption. reflexivity.
  - intros s parsed. unfold parseFeeToPercent. fold parsed.
    repeat split.
    + intros ->. reflexivity.
    + intros -> ->. reflexivity.
    + rewrite includes_char in H0. unfold parsed.
      rewrite remove_first_absent by exact H0. reflexivity.
    + rewrite H, H0. reflexivity.
Qed.

(** ** Pools produced by the normalizer *)

Lemma num_or_zero_not_nan (x : float) : is_nan (num_or x 0) = false.
Proof.
  unfold num_or, truthy. destruct (is_zero x) eqn:Z; simpl; [reflexivity|].
  destruct (is_nan x) eqn:N; simpl; [reflexivity|exact N].
Qed.

Lemma normalizeGeckoTerminalPool_amounts random36 pool n p :
  fst (normalizeGeckoTerminalPool random36 pool n) = Some p -> amounts_defined p.
Proof.
  unfold normalizeGeckoTerminalPool.
  destruct (orient _ _) as [b q].
  destruct (determinePairType b q) as [pt|]; [|discriminate].
  destruct (negb _ && class_eq b q)%bool; [discriminate|].
  unfold bind, ret, draw.
  destruct (str_truthy (RawPool.id pool)); simpl; intros H; injection H as <-;
    eexists _, _; simpl; eauto using num_or_zero_not_nan.
Qed.

Lemma normalizeDexScreenerPool_amounts pool p :
  normalizeDexScreenerPool pool = Some p -> amounts_defined p.
Proof.
  unfold normalizeDexScreenerPool.
  destruct (orient _ _) as [b q].
  destruct (determinePairType b q) as [pt|]; [|discriminate].
  destruct (negb _ && class_eq b q)%bool; [discriminate|].
  intros H; injection H as <-. eexists _, _; simpl; eauto using num_or_zero_not_nan.
Qed.

Lemma normalizeOne_amounts random36 pool n p :
  fst (normalizeOne random36 pool n) = Some p -> amounts_defined p.
Proof.
  unfold normalizeOne.
  destruct (strict_eq _ (JStr "GeckoTerminal")); [apply normalizeGeckoTerminalPool_amounts|].
  destruct (strict_eq _ (JStr "DexScreener")); [|discriminate].
  apply normalizeDexScreenerPool_amounts.
Qed.

(** Every pool of the loop's result was in the accumulator or is the image of
    a raw record. *)
Lemma normalizeLoop_In random36 rawPools : forall acc seen n p,
  In p (fst (normalizeLoop random36 rawPools acc seen n)) ->
  In p acc \/ exists r m, In r rawPools /\ fst (normalizeOne random36 r m) = Some p.
Proof.
  induction rawPools as [|r rest IH]; intros acc seen n p; simpl.
  - auto.
  - unfold bind. destruct (normalizeOne random36 r n) as [[q|] n'] eqn:E.
    + destruct (negb (set_has seen (Pool.id q))); intros H; apply IH in H.
      * destruct H as [H|(r' & m & H1 & H2)].
        -- apply in_app_or in H. destruct H as [H|[<-|[]]]; [auto|].
           right. exists r, n. rewrite E. auto.
        -- right. exists r', m. auto.
      * destruct H as [H|(r' & m & H1 & H2)]; [auto|]. right. exists r', m. auto.
    + intros H. apply IH in H. destruct H as [H|(r' & m & H1 & H2)]; [auto|].
      right. exists r', m. auto.
Qed.

Lemma normalizeAllPools_In random36 rawPools n p :
  In p (fst (normalizeAllPools random36 rawPools n)) ->
  exists r m, In r rawPools /\ fst (normalizeOne random36 r m) = Some p.
Proof.
  unfold normalizeAllPools. destruct rawPools as [|r rest]; [intros []|].
  intros H. apply normalizeLoop_In in H. destruct H as [[]|H]. exact H.
Qed.

Lemma normalizeAllPools_loop random36 rawPools n :
  normalizeAllPools random36 rawPools n = normalizeLoop random36 rawPools [] [] n.
Proof. destruct rawPools; reflexivity. Qed.

(** ** C3: validation *)

Lemma validatePool_false_iff (pool : Pool.t) :
  validatePool pool = false <->
    truthy (Pool.id pool) = false \/ truthy (Pool.name pool) = false
    \/ Pool.baseAsset pool = None \/ Pool.pairType pool = None
    \/ is_number (Pool.liquidityUsd pool) = false
    \/ is_number (Pool.volumeUsd24h pool) = false
    \/ (to_number (Pool.liquidityUsd pool) <? CONFIG.MIN_LIQUIDITY)%float = true
    \/ (to_number (Pool.volumeUsd24h pool) <? CONFIG.MIN_VOLUME_24H)%float = true
    \/ (to_number (Pool.liquidityUsd pool) <=? 0)%float = true.
Proof.
  unfold validatePool.
  destruct (truthy (Pool.id pool)), (truthy (Pool.name pool)),
    (Pool.baseAsset pool), (Pool.pairType pool),
    (is_number (Pool.liquidityUsd pool)), (is_number (Pool.volumeUsd24h pool)),
    (to_number (Pool.liquidityUsd pool) <? CONFIG.MIN_LIQUIDITY)%float,
    (to_number (Pool.volumeUsd24h pool) <? CONFIG.MIN_VOLUME_24H)%float,
    (to_number (Pool.liquidityUsd pool) <=? 0)%float; simpl;
    split; intros H; try discriminate; try tauto;
    repeat (destruct H as [H|H]; try discriminate); discriminate.
Qed.

Lemma validatePool_true_bounds (pool : Pool.t) :
  validatePool pool = true ->
  exists l v, Pool.liquidityUsd pool = JNum l /\ Pool.volumeUsd24h pool = JNum v
    /\ (l <? CONFIG.MIN_LIQUIDITY)%float = false
    /\ (v <? CONFIG.MIN_VOLUME_24H)%float = false
    /\ (l <=? 0)%float = false.
Proof.
  intros H. destruct (validatePool pool) eqn:E; [|discriminate].
  assert (N : ~ (validatePool pool = false)) by congruence.
  rewrite validatePool_false_iff in N.
  destruct (Pool.liquidityUsd pool) as [| | |l|] eqn:El; try (exfalso; apply N; simpl; tauto).
  destruct (Pool.volumeUsd24h pool) as [| | |v|] eqn:Ev; try (exfalso; apply N; simpl; tauto).
  exists l, v. simpl in N.
  repeat split;
    match goal with
    | |- ?b = false => destruct b eqn:B; [exfalso; apply N; tauto|reflexivity]
    end.
Qed.

Lemma positive_of_not_leb (l : float) :
  is_nan l = false -> (l <=? 0)%float = false -> (0 <? l)%float = true.
Proof.
  intros N H. destruct (0 <? l)%float eqn:E; [reflexivity|].
  rewrite (not_ltb_leb 0 l) in H by (auto; reflexivity). discriminate.
Qed.

(** C3, counterexample: a pool whose liquidity and volume are NaN is of type
    number, fails none of the comparisons and is accepted, yet it is not at or
    above either threshold and its liquidity is not positive. *)
Lemma validatePool_accepts_nan :
  validatePool nan_pool = true
  /\ is_number (Pool.liquidityUsd nan_pool) = true
  /\ (CONFIG.MIN_LIQUIDITY <=? to_number (Pool.liquidityUsd nan_pool))%float = false
  /\ (CONFIG.MIN_VOLUME_24H <=? to_number (Pool.volumeUsd24h nan_pool))%float = false
  /\ (0 <? to_number (Pool.liquidityUsd nan_pool))%float = false.
Proof. repeat split; reflexivity. Qed.

(** C3, amended: [validatePool] returns false exactly when [id], [name],
    [baseAsset] or [pairType] is falsy (absent, null or empty), [liquidityUsd]
    or [volumeUsd24h] is not of type number, [liquidityUsd < MIN_LIQUIDITY],
    [volumeUsd24h < MIN_VOLUME_24H], or [liquidityUsd <= 0].  An accepted pool
    has numbers for liquidity and volume, and unless they are NaN they satisfy
    [liquidityUsd >= MIN_LIQUIDITY], [liquidityUsd > 0] and
    [volumeUsd24h >= MIN_VOLUME_24H]; this is so without exception for every
    accepted pool that the normalizer produced.  [filterPools] keeps exactly
    the accepted pools, in their input order. *)
Theorem validatePool_rejections_and_bounds :
  (forall pool : Pool.t,
     (validatePool pool = false <->
        truthy (Pool.id pool) = false \/ truthy (Pool.name pool) = false
        \/ Pool.baseAsset pool = None \/ Pool.pairType pool = None
        \/ is_number (Pool.liquidityUsd pool) = false
        \/ is_number (Pool.volumeUsd24h pool) = false
        \/ (to_number (Pool.liquidityUsd pool) <? CONFIG.MIN_LIQUIDITY)%float = true
        \/ (to_number (Pool.volumeUsd24h pool) <? CONFIG.MIN_VOLUME_24H)%float = true
        \/ (to_number (Pool.liquidityUsd pool) <=? 0)%float = true)
     /\ (validatePool pool = true ->
         exists l v, Pool.liquidityUsd pool = JNum l /\ Pool.volumeUsd24h pool = JNum v
           /\ (is_nan l = false ->
               (CONFIG.MIN_LIQUIDITY <=? l)%float = true /\ (0 <? l)%float = true)
           /\ (is_nan v = false -> (CONFIG.MIN_VOLUME_24H <=? v)%float = true)))
  /\ (forall random36 rawPools n p,
        In p (fst (normalizeAllPools random36 rawPools n)) -> validatePool p = true ->
        exists l v, Pool.liquidityUsd p = JNum l /\ Pool.volumeUsd24h p = JNum v
          /\ (CONFIG.MIN_LIQUIDITY <=? l)%float = true
          /\ (CONFIG.MIN_VOLUME_24H <=? v)%float = true
          /\ (0 <? l)%float = true)
  /\ (forall pools : list Pool.t,
        (forall p, In p (filterPools pools) <-> In p pools /\ validatePool p = true)
        /\ (forall p, filterPools [p] = if validatePool p then [p] else [])
        /\ (forall front back,
              pools = (front ++ back)%list ->
              filterPools pools = (filterPools front ++ filterPools back)%list)).
Proof.
  split; [|split].
  - intros pool. split; [apply validatePool_false_iff|].
    intros H. destruct (validatePool_true_bounds pool H) as (l & v & El & Ev & B1 & B2 & B3).
    exists l, v. split; [exact El|]. split; [exact Ev|]. split.
    + intros N. split; [apply not_ltb_leb; auto|apply positive_of_not_leb; auto].
    + intros N. apply not_ltb_leb; auto.
  - intros random36 rawPools n p Hin Hv.
    destruct (normalizeAllPools_In _ _ _ _ Hin) as (r & m & _ & Hr).
    destruct (normalizeOne_amounts _ _ _ _ Hr) as (l & v & El & Ev & Nl & Nv).
    destruct (validatePool_true_bounds p Hv) as (l' & v' & El' & Ev' & B1 & B2 & B3).
    rewrite El in El'. rewrite Ev in Ev'. injection El' as <-. injection Ev' as <-.
    exists l, v. split; [exact El|]. split; [exact Ev|].
    split; [apply not_ltb_leb; auto|]. split; [apply not_ltb_leb; auto|].
    apply positive_of_not_leb; auto.
  - intros pools. split; [|split].
    + intros p. unfold filterPools. rewrite filter_In. tauto.
    + intros p. unfold filterPools. simpl. destruct (validatePool p); reflexivity.
    + intros front back ->. apply filter_app.
Qed.

(** The bounds at a sample pool that the validator accepts. *)
Lemma validatePool_bounds_sample :
  exists l v,
    Pool.liquidityUsd plain_pool = JNum l /\ Pool.volumeUsd24h plain_pool = JNum v
    /\ (is_nan l = false ->
        (CONFIG.MIN_LIQUIDITY <=? l)%float = true /\ (0 <? l)%float = true)
    /\ (is_nan v = false -> (CONFIG.MIN_VOLUME_24H <=? v)%float = true).
Proof.
  exact (proj2 (proj1 validatePool_rejections_and_bounds plain_pool) eq_refl).
Defined.

(** ** C4: turnover score *)

(** C4: [calculateTurnoverScore] returns 0 whenever [liquidityUsd <= 0] and
    [volumeUsd24h / liquidityUsd] otherwise; a pool with liquidity 1,000,000
    and volume 250,000 scores exactly 0.25. *)
Theorem calculateTurnoverScore_ratio : forall pool : Pool.t,
  let l := to_number (Pool.liquidityUsd pool) in
  let v := to_number (Pool.volumeUsd24h pool) in
  ((l <=? 0)%float = true -> calculateTurnoverScore pool = 0%float)
  /\ ((l <=? 0)%float = false -> calculateTurnoverScore pool = (v / l)%float)
  /\ (Pool.liquidityUsd pool = JNum 1000000 -> Pool.volumeUsd24h pool = JNum 250000 ->
      calculateTurnoverScore pool = 0.25%float).
Proof.
  intros pool l v. unfold calculateTurnoverScore. fold l v. repeat split.
  - intros ->. reflexivity.
  - intros ->. reflexivity.
  - intros Hl Hv. subst l v. rewrite Hl, Hv. reflexivity.
Qed.

(** ** C5: ranking *)

Section JsSortFacts.

Context {A : Type}.
Variable comparefn : A -> A -> float.

Lemma sort_insert_Permutation (x : A) (l : list A) :
  Permutation (sort_insert comparefn x l) (x :: l).
Proof.
  induction l as [|y l IH]; simpl; [reflexivity|].
  destruct (0 <? comparefn x y)%float; [|reflexivity].
  rewrite IH. apply perm_swap.
Qed.

Lemma js_sort_Permutation (l : list A) : Permutation (js_sort comparefn l) l.
Proof.
  induction l as [|x l IH]; simpl; [reflexivity|].
  rewrite sort_insert_Permutation. constructor. exact IH.
Qed.

Lemma js_sort_Forall (P : A -> Prop) (l : list A) : Forall P l -> Forall P (js_sort comparefn l).
Proof.
  intros H. rewrite Forall_forall in *. intros x Hx. apply H.
  apply (Permutation_in _ (js_sort_Permutation l)). exact Hx.
Qed.

(** Sortedness, for a comparator that is consistent on the elements [ok]:
    an element it keeps in front is [before] the other, and so is the other
    when it moves the element behind. *)
Variable ok : A -> Prop.
Variable before : A -> A -> Prop.
Hypothesis keeps : forall x y, ok x -> ok y -> (0 <? comparefn x y)%float = false -> before x y.
Hypothesis moves : forall x y, ok x -> ok y -> (0 <? comparefn x y)%float = true -> before y x.

Lemma sort_insert_HdRel (x y : A) (l : list A) :
  ok x -> ok y -> Forall ok l ->
  (0 <? comparefn x y)%float = true -> HdRel before y l ->
  HdRel before y (sort_insert comparefn x l).
Proof.
  intros Hx Hy Hl Hxy Hd. destruct l as [|z l]; simpl.
  - constructor. apply moves; assumption.
  - destruct (0 <? comparefn x z)%float.
    + constructor. inversion Hd; assumption.
    + constructor. apply moves; assumption.
Qed.

Lemma sort_insert_Sorted (x : A) (l : list A) :
  ok x -> Forall ok l -> Sorted before l -> Sorted before (sort_insert comparefn x l).
Proof.
  intros Hx Hl Hs. induction l as [|y l IH]; simpl.
  - repeat constructor.
  - inversion Hl as [|? ? Hy Hl']; subst. inversion Hs as [|? ? Hs' Hd]; subst.
    destruct (0 <? comparefn x y)%float eqn:E.
    + constructor; [apply IH; assumption|].
      apply sort_insert_HdRel; assumption.
    + constructor; [assumption|]. constructor. apply keeps; assumption.
Qed.

Lemma js_sort_Sorted (l : list A) : Forall ok l -> Sorted before (js_sort comparefn l).
Proof.
  induction l as [|x l IH]; simpl; intros H.
  - constructor.
  - inversion H; subst. apply sort_insert_Sorted; auto using js_sort_Forall.
Qed.

(** Stability: elements that the comparator never orders keep their order. *)
Variable same : A -> bool.
Hypothesis ties : forall x y, same x = true -> same y = true -> (0 <? comparefn x y)%float = false.

Lemma sort_insert_filter (x : A) (l : list A) :
  filter same (sort_insert comparefn x l) = filter same (x :: l).
Proof.
  induction l as [|y l IH]; [reflexivity|].
  simpl sort_insert. destruct (0 <? comparefn x y)%float eqn:E; [|reflexivity].
  simpl. simpl in IH. rewrite IH.
  destruct (same x) eqn:Sx; [|reflexivity].
  destruct (same y) eqn:Sy; [|reflexivity].
  rewrite (ties x y Sx Sy) in E. discriminate.
Qed.

Lemma js_sort_filter (l : list A) : filter same (js_sort comparefn l) = filter same l.
Proof.
  induction l as [|x l IH]; [reflexivity|].
  simpl js_sort. rewrite sort_insert_filter. simpl. rewrite IH. reflexivity.
Qed.

End JsSortFacts.

Lemma compareScored_scored (a b : Pool.t) (sa sb : float) :
  Pool.score a = Some sa -> Pool.score b = Some sb ->
  compareScored a b =
  if negb (sb =? sa)%float then (sb - sa)%float else (liquidity_of b - liquidity_of a)%float.
Proof. unfold compareScored. intros -> ->. reflexivity. Qed.

Lemma compareScored_keeps (a b : Pool.t) :
  comparable a -> comparable b -> (0 <? compareScored a b)%float = false -> ranked_before a b.
Proof.
  intros ([sa Ea] & Na & La) ([sb Eb] & Nb & Lb).
  rewrite (compareScored_scored a b sa sb Ea Eb).
  unfold ranked_before, score_of in *. rewrite Ea, Eb in *. simpl in *.
  destruct (sb =? sa)%float eqn:E; simpl.
  - rewrite ltb_zero_sub by assumption. intros H. split.
    + apply eqb_leb. exact E.
    + intros _. apply not_ltb_leb; assumption.
  - rewrite ltb_zero_sub by assumption. intros H. split.
    + apply not_ltb_leb; assumption.
    + rewrite eqb_sym, E. discriminate.
Qed.

Lemma compareScored_asym (a b : Pool.t) :
  comparable a -> comparable b ->
  (0 <? compareScored a b)%float = true -> (0 <? compareScored b a)%float = false.
Proof.
  intros ([sa Ea] & Na & La) ([sb Eb] & Nb & Lb).
  rewrite (compareScored_scored a b sa sb Ea Eb), (compareScored_scored b a sb sa Eb Ea).
  unfold score_of in *. rewrite Ea, Eb in *. simpl in *.
  rewrite (eqb_sym sa sb).
  destruct (sb =? sa)%float eqn:E; simpl; rewrite !ltb_zero_sub by assumption; apply ltb_asym.
Qed.

Lemma compareScored_moves (a b : Pool.t) :
  comparable a -> comparable b -> (0 <? compareScored a b)%float = true -> ranked_before b a.
Proof.
  intros Ha Hb H. apply compareScored_keeps; auto. apply compareScored_asym; auto.
Qed.

Lemma compareScored_ties (q a b : Pool.t) :
  same_rank q a = true -> same_rank q b = true -> (0 <? compareScored a b)%float = false.
Proof.
  unfold same_rank. intros Ha Hb.
  apply andb_true_iff in Ha. destruct Ha as [Sa La].
  apply andb_true_iff in Hb. destruct Hb as [Sb Lb].
  assert (Sab : (score_of a =? score_of b)%float = true)
    by (apply (eqb_trans _ (score_of q)); [exact Sa|rewrite eqb_sym; exact Sb]).
  assert (Lab : (liquidity_of a =? liquidity_of b)%float = true)
    by (apply (eqb_trans _ (liquidity_of q)); [exact La|rewrite eqb_sym; exact Lb]).
  destruct (eqb_not_nan _ _ Sab) as [Nsa Nsb]. destruct (eqb_not_nan _ _ Lab) as [Nla Nlb].
  unfold compareScored. fold (liquidity_of a) (liquidity_of b).
  destruct (negb _).
  - fold (score_of a) (score_of b). rewrite ltb_zero_sub by assumption.
    apply eqb_not_ltb. exact Sab.
  - rewrite ltb_zero_sub by assumption. apply eqb_not_ltb. exact Lab.
Qed.

Lemma scorePool_comparable (p : Pool.t) :
  is_nan (calculateTurnoverScore p) = false -> is_nan (liquidity_of p) = false ->
  comparable (scorePool p).
Proof.
  intros H1 H2. split; [eexists; reflexivity|]. split; assumption.
Qed.

Lemma score_not_below_trans : Relations_1.Transitive score_not_below.
Proof. intros a b c Hab Hbc. unfold score_not_below in *. exact (leb_trans _ _ _ Hbc Hab). Qed.

(** C5, counterexample: a pool with infinite liquidity and volume passes the
    validator and scores NaN; next to any other pool, its score is neither at
    or above nor at or below the neighbour's, whichever way the two are put.
    Such a pool comes out of the normalizer for a raw record whose amounts are
    the string [Infinity]. *)
Lemma scoreAndRankPools_nan_score :
  validatePool unbounded_pool = true /\ validatePool plain_pool = true
  /\ map score_of (scoreAndRankPools [unbounded_pool; plain_pool]) = [nan; 0.25%float]
  /\ scores_non_increasing (scoreAndRankPools [unbounded_pool; plain_pool]) = false
  /\ scores_non_increasing (rev (scoreAndRankPools [unbounded_pool; plain_pool])) = false
  /\ category_scores (pipeline (fun _ => "") [unbounded_record; plain_record])
     = [(btc_stable, [nan; 0.25%float]); (eth_stable, []); (btc_eth, []); (wrapped, [])].
Proof. repeat split; reflexivity. Qed.

(** C5, amended: for every input list whose pools have a score and a
    liquidity that are not NaN, the list returned by [scoreAndRankPools] holds
    the scored input pools, its scores are non-increasing across the sequence,
    two adjacent entries of equal score have non-increasing liquidity, and the
    pools of one score and one liquidity stand in their input order. *)
Theorem scoreAndRankPools_ranked : forall pools : list Pool.t,
  Forall (fun p => is_nan (calculateTurnoverScore p) = false
                   /\ is_nan (liquidity_of p) = false) pools ->
  let ranked := scoreAndRankPools pools in
  Permutation ranked (map scorePool pools)
  /\ StronglySorted score_not_below ranked
  /\ Sorted ranked_before ranked
  /\ (forall q, filter (same_rank q) ranked = filter (same_rank q) (map scorePool pools)).
Proof.
  intros pools H ranked. subst ranked. unfold scoreAndRankPools.
  assert (Hc : Forall comparable (map scorePool pools)).
  { apply Forall_map. rewrite Forall_forall in *. intros p Hp.
    destruct (H p Hp). apply scorePool_comparable; assumption. }
  split; [apply js_sort_Permutation|]. split; [|split].
  - apply Sorted_StronglySorted; [exact score_not_below_trans|].
    apply (js_sort_Sorted compareScored comparable); [| |exact Hc].
    + intros x y Hx Hy Hxy. exact (proj1 (compareScored_keeps x y Hx Hy Hxy)).
    + intros x y Hx Hy Hxy. exact (proj1 (compareScored_moves x y Hx Hy Hxy)).
  - apply (js_sort_Sorted compareScored comparable);
      [exact compareScored_keeps|exact compareScored_moves|exact Hc].
  - intros q. apply js_sort_filter. apply compareScored_ties.
Qed.

(** The ranking of four sample pools: the two pools of equal score and
    liquidity, [0x01] and [0x04], keep their input order. *)
Lemma scoreAndRankPools_ranked_sample :
  Forall (fun p => is_nan (calculateTurnoverScore p) = false
                   /\ is_nan (liquidity_of p) = false) sample_pools
  /\ map Pool.id (scoreAndRankPools sample_pools)
     = [JStr "0x02"; JStr "0x03"; JStr "0x01"; JStr "0x04"]
  /\ Permutation (scoreAndRankPools sample_pools) (map scorePool sample_pools)
  /\ StronglySorted score_not_below (scoreAndRankPools sample_pools)
  /\ Sorted ranked_before (scoreAndRankPools sample_pools)
  /\ (forall q, filter (same_rank q) (scoreAndRankPools sample_pools)
                = filter (same_rank q) (map scorePool sample_pools)).
Proof.
  assert (H : Forall (fun p => is_nan (calculateTurnoverScore p) = false
                               /\ is_nan (liquidity_of p) = false) sample_pools)
    by (repeat constructor).
  split; [exact H|]. split; [reflexivity|].
  exact (scoreAndRankPools_ranked sample_pools H).
Defined.

(** ** C6: wrapped pairs *)

Lemma isWrappedPair_classes (baseSymbol quoteSymbol : string) :
  isWrappedPair baseSymbol quoteSymbol = true ->
  (resolveAssetClass (Some baseSymbol) = Some BTC
   /\ resolveAssetClass (Some quoteSymbol) = Some BTC)
  \/ (resolveAssetClass (Some baseSymbol) = Some ETH
      /\ resolveAssetClass (Some quoteSymbol) = Some ETH).
Proof.
  unfold isWrappedPair. intros H.
  apply andb_true_iff in H. destruct H as [H _].
  apply andb_true_iff in H. destruct H as [H1 H2].
  destruct (resolveAssetClass (Some baseSymbol)) as [[]|],
    (resolveAssetClass (Some quoteSymbol)) as [[]|];
    try discriminate; auto.
Qed.

Lemma isWrappedPair_orient (baseSymbol quoteSymbol : string) :
  isWrappedPair baseSymbol quoteSymbol = true ->
  orient baseSymbol quoteSymbol
  = (resolveAssetClass (Some baseSymbol), resolveAssetClass (Some quoteSymbol))
  /\ determinePairType (resolveAssetClass (Some baseSymbol))
       (resolveAssetClass (Some quoteSymbol)) = Some wrapped.
Proof.
  intros H. unfold orient. rewrite H. simpl. split; [reflexivity|].
  destruct (isWrappedPair_classes _ _ H) as [[-> ->]|[-> ->]]; reflexivity.
Qed.

Lemma normalizeGeckoTerminalPool_wrapped random36 pool n :
  isWrappedPair (fst (gecko_symbols pool)) (snd (gecko_symbols pool)) = true ->
  exists p, fst (normalizeGeckoTerminalPool random36 pool n) = Some p
    /\ Pool.pairType p = Some wrapped
    /\ Pool.baseAsset p = resolveAssetClass (Some (fst (gecko_symbols pool)))
    /\ Pool.quoteAsset p = resolveAssetClass (Some (snd (gecko_symbols pool))).
Proof.
  unfold gecko_symbols, normalizeGeckoTerminalPool. cbn [fst snd]. intros H.
  destruct (isWrappedPair_orient _ _ H) as [Ho Hd]. rewrite Ho, Hd, H. simpl.
  unfold bind, ret, draw. destruct (str_truthy (RawPool.id pool)); simpl;
    eexists; repeat split; reflexivity.
Qed.

Lemma normalizeDexScreenerPool_wrapped pool :
  isWrappedPair (fst (dex_symbols pool)) (snd (dex_symbols pool)) = true ->
  exists p, normalizeDexScreenerPool pool = Some p
    /\ Pool.pairType p = Some wrapped
    /\ Pool.baseAsset p = resolveAssetClass (Some (fst (dex_symbols pool)))
    /\ Pool.quoteAsset p = resolveAssetClass (Some (snd (dex_symbols pool))).
Proof.
  unfold dex_symbols, normalizeDexScreenerPool. cbn [fst snd]. intros H.
  destruct (isWrappedPair_orient _ _ H) as [Ho Hd]. rewrite Ho, Hd, H. simpl.
  eexists; repeat split; reflexivity.
Qed.

(** C6: a raw record, of either source, whose base symbol is [wbtc] and whose
    quote symbol is [tbtc] is normalized to a pool of pair type [wrapped], and
    is not rejected by the same-class guard.  More generally the wrapped-pair
    test is made on the classes as resolved, before any swap: a pair found
    wrapped keeps its base and quote classes, and is normalized to a pool of
    pair type [wrapped] with these classes. *)
Theorem wrapped_pair_before_orientation :
  (forall random36 pool n,
     gecko_symbols pool = ("wbtc", "tbtc") ->
     exists p, fst (normalizeGeckoTerminalPool random36 pool n) = Some p
       /\ Pool.pairType p = Some wrapped
       /\ Pool.baseAsset p = Some BTC /\ Pool.quoteAsset p = Some BTC)
  /\ (forall pool,
        dex_symbols pool = ("wbtc", "tbtc") ->
        exists p, normalizeDexScreenerPool pool = Some p
          /\ Pool.pairType p = Some wrapped
          /\ Pool.baseAsset p = Some BTC /\ Pool.quoteAsset p = Some BTC)
  /\ (forall baseSymbol quoteSymbol,
        isWrappedPair baseSymbol quoteSymbol = true ->
        orient baseSymbol quoteSymbol
        = (resolveAssetClass (Some baseSymbol), resolveAssetClass (Some quoteSymbol)))
  /\ (forall random36 pool n,
        isWrappedPair (fst (gecko_symbols pool)) (snd (gecko_symbols pool)) = true ->
        exists p, fst (normalizeGeckoTerminalPool random36 pool n) = Some p
          /\ Pool.pairType p = Some wrapped
          /\ Pool.baseAsset p = resolveAssetClass (Some (fst (gecko_symbols pool)))
          /\ Pool.quoteAsset p = resolveAssetClass (Some (snd (gecko_symbols pool))))
  /\ (forall pool,
        isWrappedPair (fst (dex_symbols pool)) (snd (dex_symbols pool)) = true ->
        exists p, normalizeDexScreenerPool pool = Some p
          /\ Pool.pairType p = Some wrapped
          /\ Pool.baseAsset p = resolveAssetClass (Some (fst (dex_symbols pool)))
          /\ Pool.quoteAsset p = resolveAssetClass (Some (snd (dex_symbols pool)))).
Proof.
  split; [|split; [|split; [|split]]].
  - intros random36 pool n E.
    destruct (normalizeGeckoTerminalPool_wrapped random36 pool n) as (p & H1 & H2 & H3 & H4).
    { rewrite E. reflexivity. }
    exists p. rewrite E in H3, H4. auto.
  - intros pool E.
    destruct (normalizeDexScreenerPool_wrapped pool) as (p & H1 & H2 & H3 & H4).
    { rewrite E. reflexivity. }
    exists p. rewrite E in H3, H4. auto.
  - intros b q H. apply isWrappedPair_orient. exact H.
  - apply normalizeGeckoTerminalPool_wrapped.
  - apply normalizeDexScreenerPool_wrapped.
Qed.

(** The wrapped pair at a sample record of each source. *)
Lemma wrapped_pair_sample :
  (exists p, fst (normalizeGeckoTerminalPool (fun _ => "") wrapped_gecko_record 0) = Some p
     /\ Pool.pairType p = Some wrapped
     /\ Pool.baseAsset p = Some BTC /\ Pool.quoteAsset p = Some BTC)
  /\ (exists p, normalizeDexScreenerPool wrapped_dex_record = Some p
        /\ Pool.pairType p = Some wrapped
        /\ Pool.baseAsset p = Some BTC /\ Pool.quoteAsset p = Some BTC).
Proof.
  split.
  - exact (proj1 wrapped_pair_before_orientation (fun _ => "") wrapped_gecko_record 0 eq_refl).
  - exact (proj1 (proj2 wrapped_pair_before_orientation) wrapped_dex_record eq_refl).
Defined.

(** ** C7: unique ids *)

Lemma same_value_zero_refl (x : jsval) : same_value_zero x x = true.
Proof.
  destruct x as [| |b|a|s]; simpl; try reflexivity.
  - destruct b; reflexivity.
  - destruct (is_nan a) eqn:N; [apply orb_true_r|].
    unfold is_nan in N. apply negb_false_iff in N. rewrite N. reflexivity.
  - apply String.eqb_refl.
Qed.

Lemma same_value_zero_sym (x y : jsval) : same_value_zero x y = same_value_zero y x.
Proof.
  destruct x as [| |b|a|s], y as [| |b'|a'|s']; simpl; try reflexivity.
  - destruct b, b'; reflexivity.
  - rewrite (eqb_sym a a'), (andb_comm (is_nan a)). reflexivity.
  - apply String.eqb_sym.
Qed.

Lemma same_value_zero_trans (x y z : jsval) :
  same_value_zero x y = true -> same_value_zero y z = true -> same_value_zero x z = true.
Proof.
  destruct x as [| |b|a|s], y as [| |b'|a'|s'], z as [| |b''|a''|s'']; simpl;
    try discriminate; try reflexivity.
  - destruct b, b', b''; try discriminate; reflexivity.
  - intros H1 H2. apply orb_true_iff in H1. apply orb_true_iff in H2. apply orb_true_iff.
    destruct H1 as [H1|H1], H2 as [H2|H2].
    + left. exact (eqb_trans _ _ _ H1 H2).
    + apply andb_true_iff in H2. destruct H2 as [N _].
      destruct (eqb_not_nan _ _ H1). congruence.
    + apply andb_true_iff in H1. destruct H1 as [_ N].
      destruct (eqb_not_nan _ _ H2). congruence.
    + apply andb_true_iff in H1. apply andb_true_iff in H2. right.
      apply andb_true_iff. tauto.
  - intros H1 H2. apply String.eqb_eq in H1. apply String.eqb_eq in H2. subst.
    apply String.eqb_refl.
Qed.

Lemma normalizeLoop_dedup_seen random36 (rawPools : list RawPool.t) : forall acc seen n,
  normalizeLoop random36 rawPools acc seen n
  = ((acc ++ dedup_seen seen (fst (normalizeEach random36 rawPools n)))%list,
     snd (normalizeEach random36 rawPools n)).
Proof.
  induction rawPools as [|r rest IH]; intros acc seen n; simpl.
  - unfold ret. simpl. rewrite app_nil_r. reflexivity.
  - unfold bind, ret. destruct (normalizeOne random36 r n) as [[p|] n'].
    + destruct (normalizeEach random36 rest n') as [others n''] eqn:E. simpl.
      destruct (set_has seen (Pool.id p)); simpl; rewrite IH, E; simpl.
      * reflexivity.
      * rewrite <- app_assoc. reflexivity.
    + destruct (normalizeEach random36 rest n') as [others n''] eqn:E. simpl.
      rewrite IH, E. reflexivity.
Qed.

Lemma set_has_app (seen : list jsval) (y x : jsval) :
  set_has (seen ++ [y]) x = (set_has seen x || same_value_zero y x)%bool.
Proof. unfold set_has. rewrite existsb_app. simpl. rewrite orb_false_r. reflexivity. Qed.

(** The set of kept ids answers as the list of all earlier records does. *)
Lemma dedup_seen_first_occurrences (pools : list Pool.t) : forall seen earlier,
  (forall x, set_has seen x = existsb (fun e => same_value_zero (Pool.id e) x) earlier) ->
  dedup_seen seen pools = first_occurrences earlier pools.
Proof.
  induction pools as [|p rest IH]; intros seen earlier Inv; [reflexivity|].
  simpl. rewrite <- Inv. destruct (set_has seen (Pool.id p)) eqn:E.
  - apply IH. intros x. rewrite existsb_app. simpl. rewrite orb_false_r, <- Inv.
    destruct (same_value_zero (Pool.id p) x) eqn:S; [|rewrite orb_false_r; reflexivity].
    rewrite orb_true_r. unfold set_has in *.
    apply existsb_exists in E. destruct E as (k & Hk & Hkp).
    apply existsb_exists. exists k. split; [exact Hk|].
    exact (same_value_zero_trans _ _ _ Hkp S).
  - f_equal. apply IH. intros x. rewrite set_has_app, existsb_app. simpl.
    rewrite orb_false_r, <- Inv. reflexivity.
Qed.

Lemma dedup_seen_distinct (pools : list Pool.t) : forall seen,
  Forall (fun p => set_has seen (Pool.id p) = false) (dedup_seen seen pools)
  /\ ForallOrdPairs distinct_ids (dedup_seen seen pools).
Proof.
  induction pools as [|p rest IH]; intros seen; simpl.
  - split; constructor.
  - destruct (set_has seen (Pool.id p)) eqn:E; [apply IH|].
    destruct (IH (seen ++ [Pool.id p])%list) as [F O].
    assert (F' : Forall (fun q => set_has seen (Pool.id q) = false
                                  /\ same_value_zero (Pool.id p) (Pool.id q) = false)
                        (dedup_seen (seen ++ [Pool.id p]) rest)).
    { eapply Forall_impl; [|exact F]. intros q Hq. simpl in Hq.
      rewrite set_has_app in Hq. apply orb_false_iff in Hq. exact Hq. }
    split.
    + constructor; [exact E|]. eapply Forall_impl; [|exact F']. intros q [Hq _]. exact Hq.
    + constructor; [|exact O]. eapply Forall_impl; [|exact F']. intros q [_ Hq]. exact Hq.
Qed.

Lemma normalizeAllPools_first_occurrences random36 (rawPools : list RawPool.t) (n : nat) :
  normalizeAllPools random36 rawPools n
  = (first_occurrences [] (fst (normalizeEach random36 rawPools n)),
     snd (normalizeEach random36 rawPools n)).
Proof.
  rewrite normalizeAllPools_loop, normalizeLoop_dedup_seen. simpl.
  rewrite (dedup_seen_first_occurrences _ [] []); [reflexivity|]. intros x. reflexivity.
Qed.

(** C7: the output of [normalizeAllPools] has pairwise distinct ids.  It is
    the sequence of the normalized records in which a record is kept exactly
    when no earlier one has its id: the first seen is kept and every later
    duplicate is dropped.  So two raw records that normalize to the same id
    yield exactly one pool, the first. *)
Theorem normalizeAllPools_unique_ids :
  forall (random36 : nat -> string) (rawPools : list RawPool.t) (n : nat),
    let normalizedPools := fst (normalizeAllPools random36 rawPools n) in
    ForallOrdPairs distinct_ids normalizedPools
    /\ normalizedPools = first_occurrences [] (fst (normalizeEach random36 rawPools n))
    /\ (forall first second p1 p2 n1 n2,
          rawPools = [first; second] ->
          normalizeOne random36 first n = (Some p1, n1) ->
          normalizeOne random36 second n1 = (Some p2, n2) ->
          same_value_zero (Pool.id p1) (Pool.id p2) = true ->
          normalizedPools = [p1]).
Proof.
  intros random36 rawPools n normalizedPools. subst normalizedPools. split; [|split].
  - rewrite normalizeAllPools_loop, normalizeLoop_dedup_seen. simpl.
    apply dedup_seen_distinct.
  - rewrite normalizeAllPools_first_occurrences. reflexivity.
  - intros first second p1 p2 n1 n2 -> H1 H2 S.
    simpl. unfold bind. rewrite H1. simpl. unfold bind. rewrite H2.
    unfold set_has. simpl. rewrite S. reflexivity.
Qed.

(** Two records of different sources with one id: the GeckoTerminal pool,
    seen first, is the one that stays. *)
Lemma normalizeAllPools_unique_ids_sample :
  map Pool.source
      (fst (normalizeAllPools (fun _ => "") [wrapped_gecko_record; wrapped_dex_record] 0))
  = [JStr "GeckoTerminal"]
  /\ ForallOrdPairs distinct_ids
       (fst (normalizeAllPools (fun _ => "") [wrapped_gecko_record; wrapped_dex_record] 0)).
Proof.
  split; [reflexivity|].
  exact (proj1 (normalizeAllPools_unique_ids (fun _ => "")
                  [wrapped_gecko_record; wrapped_dex_record] 0)).
Defined.

(** ** C8: estimated APR *)

Lemma effectiveFee_truthy (pool : Pool.t) : truthy (JNum (effectiveFee pool)) = true.
Proof.
  unfold effectiveFee. destruct (Pool.feeTier pool) as [f|]; [|reflexivity].
  destruct (truthy (JNum f)) eqn:E; [exact E|reflexivity].
Qed.

Lemma scorePool_apr (pool : Pool.t) :
  Pool.apr (scorePool pool) =
  Some (if (negb (truthy (Pool.liquidityUsd pool))
            || (to_number (Pool.liquidityUsd pool) <=? 0)%float)%bool
        then 0%float else apr_by_formula (effectiveFee pool) pool).
Proof.
  unfold scorePool, with_score. cbn [Pool.apr]. unfold calculateApr, apr_by_formula.
  rewrite effectiveFee_truthy. cbn [negb]. rewrite orb_false_r. reflexivity.
Qed.

Lemma validated_liquidity (pool : Pool.t) :
  validatePool pool = true -> is_nan (to_number (Pool.liquidityUsd pool)) = false ->
  truthy (Pool.liquidityUsd pool) = true
  /\ (to_number (Pool.liquidityUsd pool) <=? 0)%float = false.
Proof.
  intros V N. destruct (validatePool_true_bounds pool V) as (l & v & El & Ev & B1 & B2 & B3).
  rewrite El in *. simpl in *. split; [|exact B3].
  rewrite N, orb_false_r. apply negb_true_iff.
  destruct (is_zero l) eqn:Z; [|reflexivity].
  unfold is_zero, PrimFloat.zero in Z. rewrite (eqb_leb _ _ Z) in B3. discriminate.
Qed.

Lemma scoreAndRankPools_In (pools : list Pool.t) (p : Pool.t) :
  In p (scoreAndRankPools pools) <-> exists q, In q pools /\ p = scorePool q.
Proof.
  unfold scoreAndRankPools. split.
  - intros H. apply (Permutation_in _ (js_sort_Permutation compareScored _)) in H.
    apply in_map_iff in H. destruct H as (q & <- & Hq). eauto.
  - intros (q & Hq & ->).
    apply (Permutation_in _ (Permutation_sym (js_sort_Permutation compareScored _))).
    apply in_map. exact Hq.
Qed.

(** C8, counterexample: a pool whose fee tier is the number zero, not null, is
    scored with the default fee of 0.3 percent: its APR is 27.375 where the
    formula with its own fee tier gives 0.  The normalizer produces such a fee
    tier for a raw record whose [swap_fee] is the string [0]. *)
Lemma apr_of_zero_fee_tier :
  validatePool free_pool = true
  /\ Pool.feeTier free_pool = Some 0%float
  /\ Pool.apr (scorePool free_pool) = Some 27.375%float
  /\ apr_by_formula (fee_or_default free_pool) free_pool = 0%float
  /\ map Pool.feeTier (fst (normalizeAllPools (fun _ => "") [free_record] 0)) = [Some 0%float].
Proof. repeat split; reflexivity. Qed.

(** C8, amended: every pool that [scoreAndRankPools] returns is a scored input
    pool.  The fee of a scored pool is its [feeTier] when that is a number other
    than zero and NaN, and the configured default fee percentage when it is
    null, zero or NaN.  When [liquidityUsd] is truthy and not [<= 0], as it is
    for every validated pool whose liquidity is not NaN, [apr] equals
    [((volumeUsd24h * (fee / 100)) * 365 / liquidityUsd) * 100]; otherwise
    [apr] is 0. *)
Theorem scored_pool_apr :
  (forall pools p, In p (scoreAndRankPools pools) <-> exists q, In q pools /\ p = scorePool q)
  /\ (forall pool : Pool.t,
        (Pool.feeTier pool = None -> effectiveFee pool = CONFIG.DEFAULT_FEE_PERCENT)
        /\ (forall f, Pool.feeTier pool = Some f ->
              (is_zero f || is_nan f)%bool = false -> effectiveFee pool = f)
        /\ (forall f, Pool.feeTier pool = Some f ->
              (is_zero f || is_nan f)%bool = true ->
              effectiveFee pool = CONFIG.DEFAULT_FEE_PERCENT)
        /\ (truthy (Pool.liquidityUsd pool) = true ->
            (to_number (Pool.liquidityUsd pool) <=? 0)%float = false ->
            Pool.apr (scorePool pool) = Some (apr_by_formula (effectiveFee pool) pool))
        /\ (truthy (Pool.liquidityUsd pool) = false
            \/ (to_number (Pool.liquidityUsd pool) <=? 0)%float = true ->
            Pool.apr (scorePool pool) = Some 0%float)
        /\ (validatePool pool = true ->
            is_nan (to_number (Pool.liquidityUsd pool)) = false ->
            Pool.apr (scorePool pool) = Some (apr_by_formula (effectiveFee pool) pool))).
Proof.
  split; [exact scoreAndRankPools_In|]. intros pool.
  split; [|split; [|split; [|split; [|split]]]].
  - unfold effectiveFee. intros ->. reflexivity.
  - unfold effectiveFee, truthy. intros f -> ->. reflexivity.
  - unfold effectiveFee, truthy. intros f -> ->. reflexivity.
  - intros T L. rewrite scorePool_apr, T, L. reflexivity.
  - intros H. rewrite scorePool_apr.
    destruct H as [-> | ->]; [reflexivity|]. rewrite orb_true_r. reflexivity.
  - intros V N. destruct (validated_liquidity pool V N) as [T L].
    rewrite scorePool_apr, T, L. reflexivity.
Qed.

(** The APR of a validated sample pool without a fee tier: the default fee
    applies. *)
Lemma scored_pool_apr_sample :
  effectiveFee plain_pool = CONFIG.DEFAULT_FEE_PERCENT
  /\ Pool.apr (scorePool plain_pool)
     = Some (apr_by_formula (effectiveFee plain_pool) plain_pool).
Proof.
  split.
  - exact (proj1 (proj2 scored_pool_apr plain_pool) eq_refl).
  - exact (proj2 (proj2 (proj2 (proj2 (proj2 (proj2 scored_pool_apr plain_pool)))))
             eq_refl eq_refl).
Defined.

(** ** C9: determinism *)

Lemma normalizeOne_no_draw (r1 r2 : nat -> string) (pool : RawPool.t) (n : nat) :
  draws_id pool = false ->
  normalizeOne r1 pool n = normalizeOne r2 pool n /\ snd (normalizeOne r1 pool n) = n.
Proof.
  unfold draws_id, normalizeOne, gecko_symbols. cbn [fst snd].
  destruct (strict_eq (RawPool._source pool) (JStr "GeckoTerminal")); simpl.
  - unfold normalizeGeckoTerminalPool.
    destruct (orient _ _) as [b q]. destruct (determinePairType b q); [|split; reflexivity].
    destruct (negb _ && class_eq b q)%bool; [split; reflexivity|].
    destruct (str_truthy (RawPool.id pool)); simpl; [split; reflexivity|discriminate].
  - intros _. destruct (strict_eq _ _); split; reflexivity.
Qed.

Lemma normalizeLoop_no_draw (r1 r2 : nat -> string) (rawPools : list RawPool.t) :
  Forall (fun pool => draws_id pool = false) rawPools ->
  forall acc seen n,
    normalizeLoop r1 rawPools acc seen n = normalizeLoop r2 rawPools acc seen n.
Proof.
  induction 1 as [|pool rest H _ IH]; intros acc seen n; [reflexivity|].
  simpl. unfold bind. destruct (normalizeOne_no_draw r1 r2 pool n H) as [<- _].
  destruct (normalizeOne r1 pool n) as [[p|] n'].
  - destruct (negb (set_has seen (Pool.id p))); apply IH.
  - apply IH.
Qed.

(** Only the draws that are made matter. *)
Lemma normalizeOne_same_draws (r1 r2 : nat -> string) (pool : RawPool.t) (n : nat) :
  r1 n = r2 n ->
  normalizeOne r1 pool n = normalizeOne r2 pool n
  /\ (snd (normalizeOne r1 pool n) = n \/ snd (normalizeOne r1 pool n) = S n).
Proof.
  intros E. unfold normalizeOne.
  destruct (strict_eq (RawPool._source pool) (JStr "GeckoTerminal")).
  - unfold normalizeGeckoTerminalPool.
    destruct (orient _ _) as [b q]. destruct (determinePairType b q); [|split; auto].
    destruct (negb _ && class_eq b q)%bool; [split; auto|].
    unfold bind, ret, draw.
    destruct (str_truthy (RawPool.id pool)); simpl; [|rewrite E]; split; auto.
  - destruct (strict_eq _ _); split; auto.
Qed.

Lemma normalizeLoop_same_draws (r1 r2 : nat -> string) (rawPools : list RawPool.t) :
  forall acc seen n,
    (forall k, n <= k -> r1 k = r2 k) ->
    normalizeLoop r1 rawPools acc seen n = normalizeLoop r2 rawPools acc seen n.
Proof.
  induction rawPools as [|pool rest IH]; intros acc seen n E; [reflexivity|].
  simpl. unfold bind.
  destruct (normalizeOne_same_draws r1 r2 pool n (E n (le_n n))) as [<- Hn].
  destruct (normalizeOne r1 pool n) as [[p|] n']; simpl in Hn;
    assert (E' : forall k, n' <= k -> r1 k = r2 k) by (intros k Hk; apply E; lia).
  - destruct (negb (set_has seen (Pool.id p))); apply IH; exact E'.
  - apply IH; exact E'.
Qed.

(** C9, counterexample: a GeckoTerminal record without an id gets a random
    one, so two runs on the same dataset give pools of different ids; and when
    the drawn id is the id of another record, the runs differ in membership
    too. *)
Lemma pipeline_depends_on_draws :
  category_ids (pipeline (fun _ => "k3x9q0a1z") [anonymous_record])
  = [(btc_stable, [JStr "gt-k3x9q0a1z"]); (eth_stable, []); (btc_eth, []); (wrapped, [])]
  /\ category_ids (pipeline (fun _ => "7hw2m5c8d") [anonymous_record])
     = [(btc_stable, [JStr "gt-7hw2m5c8d"]); (eth_stable, []); (btc_eth, []); (wrapped, [])]
  /\ pipeline (fun _ => "k3x9q0a1z") [anonymous_record]
     <> pipeline (fun _ => "7hw2m5c8d") [anonymous_record]
  /\ category_ids (pipeline (fun _ => "k3x9q0a1z") [colliding_record; anonymous_record])
     = [(btc_stable, []); (eth_stable, [JStr "gt-k3x9q0a1z"]); (btc_eth, []); (wrapped, [])]
  /\ category_ids (pipeline (fun _ => "7hw2m5c8d") [colliding_record; anonymous_record])
     = [(btc_stable, [JStr "gt-7hw2m5c8d"]); (eth_stable, [JStr "gt-k3x9q0a1z"]);
        (btc_eth, []); (wrapped, [])].
Proof.
  split; [reflexivity|]. split; [reflexivity|]. split; [|split; reflexivity].
  intros H. apply (f_equal category_ids) in H. vm_compute in H. discriminate.
Qed.

(** C9, amended: the categorized output is a function of the raw dataset and
    of the random draws made for GeckoTerminal records that carry no id.  On a
    dataset in which no record needs such a draw, any two runs yield the same
    categorized output, in membership and in order; on any dataset, so do two
    runs whose draws agree. *)
Theorem pipeline_deterministic_given_ids :
  (forall (rawPools : list RawPool.t),
     Forall (fun pool => draws_id pool = false) rawPools ->
     forall (run1 run2 : nat -> string), pipeline run1 rawPools = pipeline run2 rawPools)
  /\ (forall (rawPools : list RawPool.t) (run1 run2 : nat -> string),
        (forall k, run1 k = run2 k) -> pipeline run1 rawPools = pipeline run2 rawPools).
Proof.
  split.
  - intros rawPools H run1 run2. unfold pipeline.
    rewrite !normalizeAllPools_loop, (normalizeLoop_no_draw run1 run2 rawPools H). reflexivity.
  - intros rawPools run1 run2 E. unfold pipeline.
    rewrite !normalizeAllPools_loop.
    rewrite (normalizeLoop_same_draws run1 run2 rawPools [] [] 0); [reflexivity|].
    intros k _. apply E.
Qed.

(** Two runs on a dataset whose records carry their ids. *)
Lemma pipeline_deterministic_sample :
  Forall (fun pool => draws_id pool = false) [plain_record; wrapped_dex_record; foreign_record]
  /\ pipeline (fun _ => "k3x9q0a1z") [plain_record; wrapped_dex_record; foreign_record]
     = pipeline (fun _ => "7hw2m5c8d") [plain_record; wrapped_dex_record; foreign_record].
Proof.
  assert (H : Forall (fun pool => draws_id pool = false)
                     [plain_record; wrapped_dex_record; foreign_record])
    by (repeat constructor).
  split; [exact H|].
  exact (proj1 pipeline_deterministic_given_ids _ H _ _).
Defined.

(** ** C10: unknown sources *)

Lemma normalizeOne_unknown random36 pool n :
  known_source pool = false -> normalizeOne random36 pool n = (None, n).
Proof.
  unfold known_source, normalizeOne. intros H. apply orb_false_iff in H. destruct H as [-> ->].
  reflexivity.
Qed.

Lemma normalizeLoop_known random36 rawPools : forall acc seen n,
  normalizeLoop random36 rawPools acc seen n
  = normalizeLoop random36 (filter known_source rawPools) acc seen n.
Proof.
  induction rawPools as [|r rest IH]; intros acc seen n; [reflexivity|].
  simpl. destruct (known_source r) eqn:K.
  - simpl. unfold bind. destruct (normalizeOne random36 r n) as [[p|] n'].
    + destruct (negb (set_has seen (Pool.id p))); apply IH.
    + apply IH.
  - unfold bind. rewrite (normalizeOne_unknown _ _ _ K). apply IH.
Qed.

Lemma normalizeOne_source random36 pool n p :
  fst (normalizeOne random36 pool n) = Some p ->
  known_source pool = true /\ Pool.source p = RawPool._source pool.
Proof.
  intros H. destruct (known_source pool) eqn:K.
  - split; [reflexivity|]. revert H. unfold normalizeOne.
    destruct (strict_eq _ (JStr "GeckoTerminal")).
    + unfold normalizeGeckoTerminalPool. destruct (orient _ _) as [b q].
      destruct (determinePairType b q); [|discriminate].
      destruct (negb _ && class_eq b q)%bool; [discriminate|].
      unfold bind, ret, draw. destruct (str_truthy (RawPool.id pool)); simpl;
        intros H; injection H as <-; reflexivity.
    + destruct (strict_eq _ (JStr "DexScreener")); [|discriminate].
      unfold ret, normalizeDexScreenerPool. destruct (orient _ _) as [b q].
      destruct (determinePairType b q); [|discriminate].
      destruct (negb _ && class_eq b q)%bool; [discriminate|].
      simpl. intros H; injection H as <-; reflexivity.
  - rewrite (normalizeOne_unknown _ _ _ K) in H. discriminate.
Qed.

(** C10: [normalizeAllPools] silently leaves out every raw record whose
    [_source] is neither [GeckoTerminal] nor [DexScreener]: such a record
    normalizes to nothing whatever else it holds, the output is that of the
    list without these records, and every pool of the output is the image of a
    record of one of the two sources. *)
Theorem normalizeAllPools_ignores_unknown_sources :
  forall (random36 : nat -> string) (rawPools : list RawPool.t) (n : nat),
    normalizeAllPools random36 rawPools n
    = normalizeAllPools random36 (filter known_source rawPools) n
    /\ (forall pool, known_source pool = false -> normalizeOne random36 pool n = (None, n))
    /\ (forall p, In p (fst (normalizeAllPools random36 rawPools n)) ->
          exists pool m, In pool rawPools /\ known_source pool = true
                         /\ fst (normalizeOne random36 pool m) = Some p
                         /\ Pool.source p = RawPool._source pool).
Proof.
  intros random36 rawPools n. split; [|split].
  - rewrite !normalizeAllPools_loop. apply normalizeLoop_known.
  - intros pool K. apply normalizeOne_unknown. exact K.
  - intros p H. apply normalizeAllPools_In in H. destruct H as (pool & m & H1 & H2).
    destruct (normalizeOne_source _ _ _ _ H2) as [K S]. exists pool, m. auto.
Qed.

(** A record of another source between two known ones leaves no trace. *)
Lemma normalizeAllPools_ignores_sample :
  known_source foreign_record = false
  /\ normalizeAllPools (fun _ => "") [plain_record; foreign_record; wrapped_dex_record] 0
     = normalizeAllPools (fun _ => "") [plain_record; wrapped_dex_record] 0.
Proof.
  split; [reflexivity|].
  exact (proj1 (normalizeAllPools_ignores_unknown_sources (fun _ => "")
                  [plain_record; foreign_record; wrapped_dex_record] 0)).
Defined.

(** * Further properties of the pipeline *)

(** ** Pair types *)

(** X1: [determinePairType] does not depend on the order of its two classes.
    It answers [null] exactly when a class is missing or both are [STABLE],
    and [wrapped] exactly when both are the same class, [BTC] or [ETH]. *)
Theorem determinePairType_orientation_free : forall a b : option AssetClass,
  determinePairType a b = determinePairType b a
  /\ (determinePairType a b = None <->
      a = None \/ b = None \/ (a = Some STABLE /\ b = Some STABLE))
  /\ (determinePairType a b = Some wrapped <-> a = b /\ (a = Some BTC \/ a = Some ETH)).
Proof.
  intros [[| |]|] [[| |]|]; cbv; repeat split; intros;
    repeat match goal with
           | H : _ \/ _ |- _ => destruct H
           | H : _ /\ _ |- _ => destruct H
           end; try discriminate; try reflexivity; auto.
Qed.

(** ** Asset classes *)

Lemma lower_char_idempotent (c : ascii) : lower_char (lower_char c) = lower_char c.
Proof. destruct c as [[] [] [] [] [] [] [] []]; reflexivity. Qed.

Lemma toLowerCase_idempotent (s : string) : toLowerCase (toLowerCase s) = toLowerCase s.
Proof.
  induction s as [|c s IH]; simpl; [reflexivity|].
  rewrite lower_char_idempotent, IH. reflexivity.
Qed.

Lemma toLowerCase_app (s t : string) : toLowerCase (s ++ t) = toLowerCase s ++ toLowerCase t.
Proof. induction s as [|c s IH]; simpl; [reflexivity|]. rewrite IH. reflexivity. Qed.

Lemma toLowerCase_empty (s : string) : is_empty (toLowerCase s) = is_empty s.
Proof. destruct s; reflexivity. Qed.

Lemma str_or_some (s : string) : str_or (Some s) "" = s.
Proof. destruct s; reflexivity. Qed.

Lemma resolveAssetClass_lower (s : string) :
  resolveAssetClass (Some s) =
  if is_empty s then None else first_matching_class (toLowerCase s) CONFIG.ASSET_CLASSES.
Proof. unfold resolveAssetClass. rewrite str_or_some. destruct s; reflexivity. Qed.

Lemma prefix_empty (s : string) : prefix "" s = true.
Proof. destruct s; reflexivity. Qed.

Lemma prefix_app (sub s t : string) : prefix sub s = true -> prefix sub (s ++ t) = true.
Proof.
  revert sub. induction s as [|b s IH]; intros sub.
  - destruct sub; [intros _; apply prefix_empty|discriminate].
  - destruct sub as [|a sub]; [reflexivity|]. simpl.
    destruct (ascii_dec a b); [apply IH|discriminate].
Qed.

Lemma includes_app_r (s t sub : string) : includes s sub = true -> includes (s ++ t) sub = true.
Proof.
  induction s as [|c s IH].
  - simpl. destruct sub; [intros _|discriminate].
    destruct t; simpl; rewrite ?prefix_empty; reflexivity.
  - cbn [includes append]. destruct (prefix sub (String c s)) eqn:P.
    + intros _. apply (prefix_app _ _ t) in P. cbn [append] in P. rewrite P. reflexivity.
    + intros H. destruct (prefix sub (String c (s ++ t))); [reflexivity|]. apply IH. exact H.
Qed.

Lemma includes_app_l (s t sub : string) : includes t sub = true -> includes (s ++ t) sub = true.
Proof.
  induction s as [|c s IH]; [auto|]. cbn [includes append].
  intros H. destruct (prefix sub (String c (s ++ t))); [reflexivity|]. apply IH. exact H.
Qed.

Lemma includes_within (before s after sub : string) :
  includes s sub = true -> includes (before ++ s ++ after) sub = true.
Proof. intros H. apply includes_app_l, includes_app_r, H. Qed.

Lemma existsb_impl {A : Type} (f g : A -> bool) (l : list A) :
  (forall x, f x = true -> g x = true) -> existsb f l = true -> existsb g l = true.
Proof.
  intros H. rewrite !existsb_exists. intros (x & Hx & Hf). exists x. auto.
Qed.

(** A symbol in which every alias of the other occurs resolves too, to the
    same class or to one tested earlier. *)
Lemma first_matching_class_grows (l l' : string) :
  (forall alt, includes l alt = true -> includes l' alt = true) ->
  forall c, first_matching_class l CONFIG.ASSET_CLASSES = Some c ->
  exists c', first_matching_class l' CONFIG.ASSET_CLASSES = Some c'
             /\ class_rank c' <= class_rank c.
Proof.
  intros H c. unfold CONFIG.ASSET_CLASSES. cbn [first_matching_class].
  repeat match goal with
  | |- context [existsb (fun alt => includes l alt) ?alts] =>
      let E := fresh "E" in
      destruct (existsb (fun alt => includes l alt) alts) eqn:E;
      [apply (existsb_impl _ (fun alt => includes l' alt) _ H) in E; try rewrite E|]
  end;
  repeat match goal with
  | |- context [existsb (fun alt => includes l' alt) ?alts] =>
      destruct (existsb (fun alt => includes l' alt) alts)
  end;
  intros Hc; try discriminate; injection Hc as <-; eexists; (split; [reflexivity|simpl; lia]).
Qed.

(** X2: [resolveAssetClass] looks at the lower-cased symbol only: two symbols
    that differ in case resolve alike.  And because aliases are looked for
    inside the symbol, a symbol that contains a symbol that resolves does
    resolve itself, to the same class or to one tested earlier (BTC before ETH
    before STABLE). *)
Theorem resolveAssetClass_ignores_case_and_context :
  (forall s1 s2 : string,
     toLowerCase s1 = toLowerCase s2 ->
     resolveAssetClass (Some s1) = resolveAssetClass (Some s2))
  /\ (forall s : string, resolveAssetClass (Some (toLowerCase s)) = resolveAssetClass (Some s))
  /\ (forall (before s after : string) (c : AssetClass),
        resolveAssetClass (Some s) = Some c ->
        exists c', resolveAssetClass (Some (before ++ s ++ after)) = Some c'
                   /\ class_rank c' <= class_rank c).
Proof.
  split; [|split].
  - intros s1 s2 H. rewrite !resolveAssetClass_lower.
    rewrite <- (toLowerCase_empty s1), <- (toLowerCase_empty s2), H. reflexivity.
  - intros s. rewrite !resolveAssetClass_lower.
    rewrite toLowerCase_empty, toLowerCase_idempotent. reflexivity.
  - intros before s after c. rewrite !resolveAssetClass_lower.
    destruct (is_empty s) eqn:Es; [discriminate|].
    assert (En : is_empty (before ++ s ++ after) = false).
    { destruct before; [|reflexivity]. destruct s; [discriminate|reflexivity]. }
    rewrite En. apply first_matching_class_grows.
    intros alt. rewrite !toLowerCase_app. apply includes_within.
Qed.

(** [WETH] resolves to ETH, and so does a symbol built around it; a symbol
    that also contains a BTC alias moves up to BTC. *)
Lemma resolveAssetClass_context_sample :
  resolveAssetClass (Some "WETH") = Some ETH
  /\ resolveAssetClass (Some "aWETH.e") = Some ETH
  /\ resolveAssetClass (Some "tBTC-WETH-LP") = Some BTC
  /\ (exists c', resolveAssetClass (Some ("tBTC-" ++ "WETH" ++ "-LP")) = Some c'
                 /\ class_rank c' <= class_rank ETH).
Proof.
  repeat (split; [reflexivity|]).
  exact (proj2 (proj2 resolveAssetClass_ignores_case_and_context) "tBTC-" "WETH" "-LP" ETH
           eq_refl).
Defined.

(** ** Wrapped pairs *)

Lemma class_eq_sym (a b : option AssetClass) : class_eq a b = class_eq b a.
Proof. destruct a as [[]|], b as [[]|]; reflexivity. Qed.

Lemma areDifferentVariants_sym (s1 s2 : option string) (c : option AssetClass) :
  areDifferentVariants s1 s2 c = areDifferentVariants s2 s1 c.
Proof.
  unfold areDifferentVariants. destruct c as [c|]; [|reflexivity].
  rewrite (orb_comm (negb (str_truthy s2))).
  destruct (negb (str_truthy s1) || negb (str_truthy s2))%bool; [reflexivity|].
  rewrite (String.eqb_sym (toLowerCase (str_or s2 ""))).
  destruct (String.eqb _ _); [reflexivity|].
  destruct (aliases_in _ c); [|reflexivity]. apply andb_comm.
Qed.

Lemma isWrappedPair_sym (b q : string) : isWrappedPair b q = isWrappedPair q b.
Proof.
  unfold isWrappedPair.
  rewrite (areDifferentVariants_sym (Some b) (Some q)), (class_eq_sym (resolveAssetClass (Some q))).
  destruct (resolveAssetClass (Some b)) as [[]|], (resolveAssetClass (Some q)) as [[]|];
    reflexivity.
Qed.

Lemma isWrappedPair_same_lower (b q : string) :
  toLowerCase b = toLowerCase q -> isWrappedPair b q = false.
Proof.
  intros H. unfold isWrappedPair, areDifferentVariants.
  rewrite !str_or_some, H, String.eqb_refl.
  destruct (resolveAssetClass (Some b)) as [c|]; [|apply andb_false_r].
  destruct (negb _ || negb _)%bool; apply andb_false_r.
Qed.

(** X3: the wrapped-pair test of the normalizers does not depend on which
    symbol is the base and which the quote, and neither does
    [areDifferentVariants]; two symbols that differ in case only are never a
    wrapped pair; and the symbols of a wrapped pair resolve to one class, which
    is BTC or ETH. *)
Theorem isWrappedPair_symmetric_irreflexive : forall baseSymbol quoteSymbol : string,
  isWrappedPair baseSymbol quoteSymbol = isWrappedPair quoteSymbol baseSymbol
  /\ (toLowerCase baseSymbol = toLowerCase quoteSymbol ->
      isWrappedPair baseSymbol quoteSymbol = false)
  /\ (forall c, areDifferentVariants (Some baseSymbol) (Some quoteSymbol) c
                = areDifferentVariants (Some quoteSymbol) (Some baseSymbol) c)
  /\ (isWrappedPair baseSymbol quoteSymbol = true ->
      resolveAssetClass (Some baseSymbol) = resolveAssetClass (Some quoteSymbol)
      /\ resolveAssetClass (Some baseSymbol) <> Some STABLE
      /\ resolveAssetClass (Some baseSymbol) <> None).
Proof.
  intros b q. split; [apply isWrappedPair_sym|]. split; [apply isWrappedPair_same_lower|].
  split; [intros c; apply areDifferentVariants_sym|].
  intros H. destruct (isWrappedPair_classes b q H) as [[-> ->]|[-> ->]];
    repeat split; discriminate.
Qed.

(** ** The last check of the validator *)

Lemma leb_ltb_trans (a b c : float) :
  (a <=? b)%float = true -> (b <? c)%float = true -> (a <? c)%float = true.
Proof.
  rewrite leb_fcompare, !ltb_fcompare. unfold fcompare.
  destruct (SFcompare (Prim2SF a) (Prim2SF b)) as [[]|] eqn:E1; try discriminate;
    destruct (SFcompare (Prim2SF b) (Prim2SF c)) as [[]|] eqn:E2; try discriminate; intros _ _.
  - rewrite (SFcompare_trans_eq_lt _ _ _ E1 E2). reflexivity.
  - rewrite (SFcompare_trans_lt _ _ _ E1 E2). reflexivity.
Qed.

Lemma ltb_leb (a b : float) : (a <? b)%float = true -> (a <=? b)%float = true.
Proof. rewrite ltb_fcompare, leb_fcompare. destruct (fcompare a b) as [[]|]; congruence. Qed.

(** A liquidity that is not below the minimum is not at or below zero. *)
Lemma not_below_minimum_positive (l : float) :
  (l <? CONFIG.MIN_LIQUIDITY)%float = false -> (l <=? 0)%float = false.
Proof.
  intros H. destruct (l <=? 0)%float eqn:E; [|reflexivity].
  rewrite (leb_ltb_trans l 0 CONFIG.MIN_LIQUIDITY E) in H; [discriminate|reflexivity].
Qed.

Lemma validatePool_before_guard_eq (pool : Pool.t) :
  validatePool pool = validatePool_before_guard pool.
Proof.
  unfold validatePool, validatePool_before_guard.
  destruct (truthy (Pool.id pool)), (truthy (Pool.name pool)),
    (Pool.baseAsset pool), (Pool.pairType pool),
    (is_number (Pool.liquidityUsd pool)), (is_number (Pool.volumeUsd24h pool));
    try reflexivity; cbn [negb orb andb is_none].
  destruct (to_number (Pool.liquidityUsd pool) <? CONFIG.MIN_LIQUIDITY)%float eqn:L;
    [reflexivity|].
  rewrite (not_below_minimum_positive _ L).
  destruct (to_number (Pool.volumeUsd24h pool) <? CONFIG.MIN_VOLUME_24H)%float; reflexivity.
Qed.

(** X4: the last check of [validatePool], [liquidityUsd <= 0], never decides:
    a pool that passes the checks before it passes this one too, because the
    minimum liquidity is positive.  So [validatePool] is the conjunction of the
    checks before it, and the score of an accepted pool is always
    [volumeUsd24h / liquidityUsd], never the 0 of the scorer's own guard. *)
Theorem validatePool_last_check_never_decides : forall pool : Pool.t,
  validatePool pool = validatePool_before_guard pool
  /\ (validatePool pool = true ->
      (to_number (Pool.liquidityUsd pool) <=? 0)%float = false
      /\ calculateTurnoverScore pool
         = (to_number (Pool.volumeUsd24h pool) / to_number (Pool.liquidityUsd pool))%float).
Proof.
  intros pool. split; [apply validatePool_before_guard_eq|].
  intros V. destruct (validatePool_true_bounds pool V) as (l & v & El & Ev & B1 & B2 & B3).
  unfold calculateTurnoverScore. rewrite El, Ev. simpl. rewrite B3. auto.
Qed.

(** ** What the normalizers accept and what they return *)

Lemma orient_accepts (b q : string) :
  match determinePairType (fst (orient b q)) (snd (orient b q)) with
  | Some _ => negb (negb (isWrappedPair b q) && class_eq (fst (orient b q)) (snd (orient b q)))
  | None => false
  end = pair_accepted b q.
Proof.
  unfold pair_accepted, orient.
  destruct (isWrappedPair b q) eqn:W.
  - destruct (isWrappedPair_classes b q W) as [[-> ->]|[-> ->]]; reflexivity.
  - destruct (resolveAssetClass (Some b)) as [[]|], (resolveAssetClass (Some q)) as [[]|];
      reflexivity.
Qed.

Lemma orient_canonical (b q : string) (t : PairType) :
  determinePairType (fst (orient b q)) (snd (orient b q)) = Some t ->
  (negb (isWrappedPair b q) && class_eq (fst (orient b q)) (snd (orient b q)))%bool = false ->
  classes_in_order (fst (orient b q)) (snd (orient b q)) t = true
  /\ PairType_eqb t wrapped = isWrappedPair b q.
Proof.
  unfold orient.
  destruct (isWrappedPair b q) eqn:W.
  - destruct (isWrappedPair_classes b q W) as [[-> ->]|[-> ->]]; simpl;
      intros H _; injection H as <-; split; reflexivity.
  - destruct (resolveAssetClass (Some b)) as [[]|], (resolveAssetClass (Some q)) as [[]|];
      simpl; intros H G; try discriminate; injection H as <-; split; reflexivity.
Qed.

Lemma slash_name_not_empty (b q : string) : is_empty (b ++ "/" ++ q) = false.
Proof. destruct b; reflexivity. Qed.

Lemma str_or_not_empty (o : option string) (d : string) :
  is_empty d = false -> is_empty (str_or o d) = false.
Proof.
  intros H. destruct o as [s|]; simpl; [|exact H]. destruct (is_empty s) eqn:E; assumption.
Qed.

Lemma normalizeGeckoTerminalPool_shape random36 pool n p :
  fst (normalizeGeckoTerminalPool random36 pool n) = Some p ->
  normalized_shape pool (gecko_symbols pool) p
  /\ exists s, Pool.id p = JStr s /\ is_empty s = false.
Proof.
  unfold normalizeGeckoTerminalPool, normalized_shape, gecko_symbols. cbn [fst snd].
  destruct (orient _ _) as [b q]. cbn [fst snd].
  destruct (determinePairType b q) as [t|]; [|discriminate].
  destruct (negb _ && class_eq b q)%bool eqn:G; [discriminate|].
  unfold bind, ret, draw.
  destruct (str_truthy (RawPool.id pool)) eqn:I; cbn [fst]; intros H; injection H as <-;
    cbn [Pool.pairType Pool.baseAsset Pool.quoteAsset Pool.name Pool.score Pool.apr
         Pool.source Pool.sourceRank Pool.id truthy].
  - split.
    + repeat split; eauto.
      rewrite str_or_not_empty; [reflexivity|apply slash_name_not_empty].
    + eexists; split; [reflexivity|].
      destruct (RawPool.id pool) as [s|]; [|discriminate]. rewrite str_or_some.
      simpl in I. destruct (is_empty s); [discriminate|reflexivity].
  - split.
    + repeat split; eauto.
      rewrite str_or_not_empty; [reflexivity|apply slash_name_not_empty].
    + eexists; split; reflexivity.
Qed.

Lemma normalizeDexScreenerPool_shape pool p :
  normalizeDexScreenerPool pool = Some p ->
  normalized_shape pool (dex_symbols pool) p /\ Pool.id p = RawPool.pairAddress pool.
Proof.
  unfold normalizeDexScreenerPool, normalized_shape, dex_symbols. cbn [fst snd].
  destruct (orient _ _) as [b q]. cbn [fst snd].
  destruct (determinePairType b q) as [t|]; [|discriminate].
  destruct (negb _ && class_eq b q)%bool eqn:G; [discriminate|].
  intros H; injection H as <-;
    cbn [Pool.pairType Pool.baseAsset Pool.quoteAsset Pool.name Pool.score Pool.apr
         Pool.source Pool.sourceRank Pool.id truthy].
  split; [|reflexivity]. repeat split; eauto.
  apply negb_true_iff, slash_name_not_empty.
Qed.

Lemma normalizeOne_shape random36 pool n p :
  fst (normalizeOne random36 pool n) = Some p ->
  normalized_shape pool (raw_symbols pool) p
  /\ (strict_eq (RawPool._source pool) (JStr "GeckoTerminal") = true ->
      exists s, Pool.id p = JStr s /\ is_empty s = false)
  /\ (strict_eq (RawPool._source pool) (JStr "GeckoTerminal") = false ->
      Pool.id p = RawPool.pairAddress pool).
Proof.
  unfold normalizeOne, raw_symbols.
  destruct (strict_eq _ (JStr "GeckoTerminal")).
  - intros H. apply normalizeGeckoTerminalPool_shape in H. destruct H as [H1 H2].
    split; [exact H1|]. split; [auto|discriminate].
  - destruct (strict_eq _ (JStr "DexScreener")); [|discriminate].
    cbn [ret fst]. intros H. apply normalizeDexScreenerPool_shape in H. destruct H as [H1 H2].
    split; [exact H1|]. split; [discriminate|auto].
Qed.

Lemma normalized_shape_orientation pool symbols p :
  normalized_shape pool symbols p ->
  canonical_orientation p = true
  /\ (Pool.pairType p = Some wrapped <-> isWrappedPair (fst symbols) (snd symbols) = true).
Proof.
  intros ((t & Ht & Hp) & G & Hb & Hq & _).
  destruct (orient_canonical _ _ t Ht G) as [C W].
  unfold canonical_orientation. rewrite Hp, Hb, Hq. split; [exact C|].
  rewrite <- W. destruct t; simpl; split; intros H; try discriminate; try reflexivity.
Qed.

Lemma normalizeOne_accepts random36 pool n :
  is_none (fst (normalizeOne random36 pool n))
  = negb (known_source pool
          && pair_accepted (fst (raw_symbols pool)) (snd (raw_symbols pool)))%bool.
Proof.
  unfold normalizeOne, raw_symbols, known_source.
  destruct (strict_eq _ (JStr "GeckoTerminal")).
  - cbn [orb andb]. rewrite <- orient_accepts.
    unfold normalizeGeckoTerminalPool, gecko_symbols. cbn [fst snd].
    destruct (orient _ _) as [b q]. cbn [fst snd].
    destruct (determinePairType b q) as [t|]; [|reflexivity].
    destruct (negb _ && class_eq b q)%bool; [reflexivity|].
    unfold bind, ret, draw. destruct (str_truthy (RawPool.id pool)); reflexivity.
  - cbn [orb]. destruct (strict_eq _ (JStr "DexScreener")); [|reflexivity].
    cbn [andb ret fst]. rewrite <- orient_accepts.
    unfold normalizeDexScreenerPool, dex_symbols. cbn [fst snd].
    destruct (orient _ _) as [b q]. cbn [fst snd].
    destruct (determinePairType b q) as [t|]; [|reflexivity].
    destruct (negb _ && class_eq b q)%bool; reflexivity.
Qed.

(** X5: a raw record is dropped by its normalizer exactly when its source is
    unknown, one of its two symbols resolves to no class, or both resolve to
    one class without being a wrapped pair; nothing else in the record can get
    it dropped.  In particular a pair of two stablecoins is always dropped. *)
Theorem normalizer_accepts_resolved_pairs :
  forall (random36 : nat -> string) (pool : RawPool.t) (n : nat),
    let symbols := raw_symbols pool in
    (fst (normalizeOne random36 pool n) = None <->
       known_source pool = false
       \/ resolveAssetClass (Some (fst symbols)) = None
       \/ resolveAssetClass (Some (snd symbols)) = None
       \/ (resolveAssetClass (Some (fst symbols)) = resolveAssetClass (Some (snd symbols))
           /\ isWrappedPair (fst symbols) (snd symbols) = false))
    /\ (resolveAssetClass (Some (fst symbols)) = Some STABLE ->
        resolveAssetClass (Some (snd symbols)) = Some STABLE ->
        fst (normalizeOne random36 pool n) = None).
Proof.
  intros random36 pool n symbols. subst symbols.
  pose proof (normalizeOne_accepts random36 pool n) as A.
  assert (W : isWrappedPair (fst (raw_symbols pool)) (snd (raw_symbols pool)) = true ->
              resolveAssetClass (Some (fst (raw_symbols pool)))
              = resolveAssetClass (Some (snd (raw_symbols pool)))
              /\ resolveAssetClass (Some (fst (raw_symbols pool))) <> Some STABLE
              /\ resolveAssetClass (Some (fst (raw_symbols pool))) <> None).
  { intros H. destruct (isWrappedPair_classes _ _ H) as [[-> ->]|[-> ->]];
      repeat split; discriminate. }
  unfold pair_accepted in A.
  destruct (fst (normalizeOne random36 pool n)) as [p|];
    destruct (known_source pool);
    destruct (isWrappedPair _ _);
    destruct (resolveAssetClass (Some (fst (raw_symbols pool)))) as [[]|];
    destruct (resolveAssetClass (Some (snd (raw_symbols pool)))) as [[]|];
    simpl in A; try discriminate A;
    (split; [split|]); intros;
    repeat match goal with
           | H : _ \/ _ |- _ => destruct H
           | H : _ /\ _ |- _ => destruct H
           end;
    try discriminate; try reflexivity; auto;
    try (exfalso; destruct (W eq_refl) as (W1 & W2 & W3); congruence).
  all: try (right; right; right; split; [reflexivity|reflexivity]).
Qed.

(** X6: the classes of a normalized pool stand in the order of its pair type:
    BTC before STABLE, ETH before STABLE, BTC before ETH, whichever way the
    source quoted the pair; the pair type is [wrapped] exactly when the record's
    symbols are a wrapped pair, and only then are base and quote of one class.
    The base is never a stablecoin and the quote is never missing. *)
Theorem normalized_pool_orientation :
  forall (random36 : nat -> string) (pool : RawPool.t) (n : nat) (p : Pool.t),
    fst (normalizeOne random36 pool n) = Some p ->
    canonical_orientation p = true
    /\ (Pool.pairType p = Some wrapped <->
        isWrappedPair (fst (raw_symbols pool)) (snd (raw_symbols pool)) = true)
    /\ (Pool.pairType p <> Some wrapped -> Pool.baseAsset p <> Pool.quoteAsset p)
    /\ Pool.baseAsset p <> Some STABLE
    /\ Pool.quoteAsset p <> None.
Proof.
  intros random36 pool n p H. apply normalizeOne_shape in H. destruct H as [H _].
  destruct (normalized_shape_orientation _ _ _ H) as [C W].
  split; [exact C|]. split; [exact W|].
  unfold canonical_orientation, classes_in_order in C.
  destruct (Pool.pairType p) as [[]|], (Pool.baseAsset p) as [[]|], (Pool.quoteAsset p) as [[]|];
    try discriminate C; repeat split; try discriminate; intros F; exfalso; apply F; reflexivity.
Qed.

(** A pair quoted as usdc/wbtc comes out as BTC against STABLE. *)
Lemma normalized_pool_orientation_sample :
  exists p,
    fst (normalizeOne (fun _ => "") swapped_record 0) = Some p
    /\ Pool.baseAsset p = Some BTC /\ Pool.quoteAsset p = Some STABLE
    /\ Pool.pairType p = Some btc_stable
    /\ canonical_orientation p = true.
Proof.
  eexists. split; [reflexivity|]. repeat (split; [reflexivity|]).
  exact (proj1 (normalized_pool_orientation (fun _ => "") swapped_record 0 _ eq_refl)).
Defined.

(** X7: every pool that a normalizer returns has a name that is not empty,
    both classes and a pair type, a liquidity and a volume that are numbers
    other than NaN, no score and no APR yet, and the provenance of its record;
    the id of a GeckoTerminal pool is a string that is not empty, the id of a
    DexScreener pool is the pair address as it came.  So the validator can
    reject a normalized pool only for a falsy id or an amount below its
    minimum. *)
Theorem normalized_pool_fields :
  forall (random36 : nat -> string) (pool : RawPool.t) (n : nat) (p : Pool.t),
    fst (normalizeOne random36 pool n) = Some p ->
    truthy (Pool.name p) = true
    /\ Pool.baseAsset p <> None /\ Pool.quoteAsset p <> None /\ Pool.pairType p <> None
    /\ amounts_defined p
    /\ Pool.score p = None /\ Pool.apr p = None
    /\ Pool.source p = RawPool._source pool
    /\ Pool.sourceRank p = RawPool._sourceRank pool
    /\ (strict_eq (RawPool._source pool) (JStr "GeckoTerminal") = true ->
        exists s, Pool.id p = JStr s /\ s <> "")
    /\ (strict_eq (RawPool._source pool) (JStr "GeckoTerminal") = false ->
        Pool.id p = RawPool.pairAddress pool)
    /\ validatePool p
       = (truthy (Pool.id p)
          && negb (to_number (Pool.liquidityUsd p) <? CONFIG.MIN_LIQUIDITY)%float
          && negb (to_number (Pool.volumeUsd24h p) <? CONFIG.MIN_VOLUME_24H)%float)%bool.
Proof.
  intros random36 pool n p H.
  pose proof (normalizeOne_amounts _ _ _ _ H) as A.
  destruct (normalizeOne_shape _ _ _ _ H) as (S & Ig & Id).
  destruct (normalized_shape_orientation _ _ _ S) as [C _].
  destruct S as ((t & _ & Ht) & _ & _ & _ & Hn & Hs & Ha & Hsrc & Hr).
  assert (B : Pool.baseAsset p <> None /\ Pool.quoteAsset p <> None).
  { unfold canonical_orientation, classes_in_order in C. rewrite Ht in C.
    destruct t, (Pool.baseAsset p) as [[]|], (Pool.quoteAsset p) as [[]|];
      try discriminate C; split; discriminate. }
  destruct B as [Bb Bq].
  repeat (split; [first [assumption|congruence]|]).
  split; [|split; [exact Id|]].
  - intros G. destruct (Ig G) as (s & Es & Ne). exists s. split; [exact Es|].
    intros ->. discriminate.
  - rewrite validatePool_before_guard_eq. unfold validatePool_before_guard.
    destruct A as (l & v & El & Ev & _). rewrite Hn, Ht, El, Ev.
    destruct (Pool.baseAsset p); [|congruence]. simpl.
    rewrite !andb_true_r. reflexivity.
Qed.

(** The fields of the pool of a sample GeckoTerminal record. *)
Lemma normalized_pool_fields_sample :
  exists p,
    fst (normalizeOne (fun _ => "") plain_record 0) = Some p
    /\ Pool.id p = JStr "eth_0x123" /\ Pool.name p = JStr "WBTC/USDC"
    /\ Pool.score p = None /\ Pool.apr p = None
    /\ validatePool p = true
    /\ amounts_defined p.
Proof.
  eexists. split; [reflexivity|]. repeat (split; [reflexivity|]).
  exact (proj1 (proj2 (proj2 (proj2 (proj2
           (normalized_pool_fields (fun _ => "") plain_record 0 _ eq_refl)))))).
Defined.

(** ** Normalizing one batch after another *)

Lemma normalizeEach_app random36 (l1 l2 : list RawPool.t) : forall n,
  normalizeEach random36 (l1 ++ l2) n
  = ((fst (normalizeEach random36 l1 n)
      ++ fst (normalizeEach random36 l2 (snd (normalizeEach random36 l1 n))))%list,
     snd (normalizeEach random36 l2 (snd (normalizeEach random36 l1 n)))).
Proof.
  induction l1 as [|r l1 IH]; intros n; simpl.
  - unfold ret. simpl. destruct (normalizeEach random36 l2 n); reflexivity.
  - unfold bind, ret. destruct (normalizeOne random36 r n) as [o n1].
    rewrite IH. destruct (normalizeEach random36 l1 n1) as [a n2]. simpl.
    destruct o; reflexivity.
Qed.

Lemma dedup_seen_app (a b : list Pool.t) : forall seen,
  dedup_seen seen (a ++ b)
  = (dedup_seen seen a
     ++ dedup_seen (seen ++ map Pool.id (dedup_seen seen a)) b)%list.
Proof.
  induction a as [|p a IH]; intros seen; simpl.
  - rewrite app_nil_r. reflexivity.
  - destruct (set_has seen (Pool.id p)); [apply IH|].
    simpl. rewrite IH, <- app_assoc. reflexivity.
Qed.

(** X8: records that come later never change what the records before them
    gave.  The output of [normalizeAllPools] for a list followed by a second
    list is its output for the first list, followed by those normalized
    records of the second list whose id the first part does not hold (and no
    earlier record of the second list). *)
Theorem normalizeAllPools_extends_first_batch :
  forall (random36 : nat -> string) (first second : list RawPool.t) (n : nat),
    let before := normalizeAllPools random36 first n in
    let more := dedup_seen (map Pool.id (fst before))
                           (fst (normalizeEach random36 second (snd before))) in
    fst (normalizeAllPools random36 (first ++ second) n) = (fst before ++ more)%list
    /\ Forall (fun p => set_has (map Pool.id (fst before)) (Pool.id p) = false) more.
Proof.
  intros random36 first second n before more. subst before more.
  split; [|apply dedup_seen_distinct].
  rewrite !normalizeAllPools_loop, !normalizeLoop_dedup_seen. cbn [fst snd app].
  rewrite normalizeEach_app. cbn [fst]. apply dedup_seen_app.
Qed.

(** ** Ranking a ranked list *)

Section JsSortInOrder.

Context {A : Type}.
Variable comparefn : A -> A -> float.

(** The sort leaves a list alone when no element has to move behind its
    successor. *)
Lemma js_sort_in_order (l : list A) :
  Sorted (fun x y => (0 <? comparefn x y)%float = false) l -> js_sort comparefn l = l.
Proof.
  induction 1 as [|x l S IH H]; [reflexivity|].
  change (js_sort comparefn (x :: l)) with (sort_insert comparefn x (js_sort comparefn l)).
  rewrite IH. destruct H as [|y l' H]; simpl; [reflexivity|]. rewrite H. reflexivity.
Qed.

End JsSortInOrder.

Lemma scorePool_scorePool (p : Pool.t) : scorePool (scorePool p) = scorePool p.
Proof. reflexivity. Qed.

Lemma map_fixed {A : Type} (f : A -> A) (l : list A) :
  Forall (fun x => f x = x) l -> map f l = l.
Proof. induction 1 as [|x l H _ IH]; simpl; [reflexivity|]. rewrite H, IH. reflexivity. Qed.

Lemma scoreAndRankPools_scored (pools : list Pool.t) :
  Forall (fun p => scorePool p = p) (scoreAndRankPools pools).
Proof.
  unfold scoreAndRankPools. apply js_sort_Forall, Forall_map, Forall_forall.
  intros p _. apply scorePool_scorePool.
Qed.

(** X9: ranking is idempotent.  Scoring a scored pool changes nothing, and for
    pools whose score and liquidity are not NaN, ranking the ranked list again
    returns it as it is. *)
Theorem scoreAndRankPools_idempotent : forall pools : list Pool.t,
  Forall (fun p => is_nan (calculateTurnoverScore p) = false
                   /\ is_nan (liquidity_of p) = false) pools ->
  scoreAndRankPools (scoreAndRankPools pools) = scoreAndRankPools pools
  /\ Forall (fun p => scorePool p = p) (scoreAndRankPools pools).
Proof.
  intros pools H. split; [|apply scoreAndRankPools_scored].
  unfold scoreAndRankPools at 1. rewrite (map_fixed _ _ (scoreAndRankPools_scored pools)).
  apply js_sort_in_order. unfold scoreAndRankPools.
  apply (js_sort_Sorted compareScored comparable).
  - intros x y _ _ K. exact K.
  - intros x y Hx Hy. apply compareScored_asym; assumption.
  - apply Forall_map. rewrite Forall_forall in *. intros p Hp.
    destruct (H p Hp). apply scorePool_comparable; assumption.
Qed.

(** Ranking the four sample pools twice. *)
Lemma scoreAndRankPools_idempotent_sample :
  Forall (fun p => is_nan (calculateTurnoverScore p) = false
                   /\ is_nan (liquidity_of p) = false) sample_pools
  /\ scoreAndRankPools (scoreAndRankPools sample_pools) = scoreAndRankPools sample_pools.
Proof.
  assert (H : Forall (fun p => is_nan (calculateTurnoverScore p) = false
                               /\ is_nan (liquidity_of p) = false) sample_pools)
    by (repeat constructor).
  split; [exact H|]. exact (proj1 (scoreAndRankPools_idempotent sample_pools H)).
Defined.

(** ** Categories *)

Lemma PairType_eqb_eq (a b : PairType) : PairType_eqb a b = true <-> a = b.
Proof. destruct a, b; simpl; split; intros H; try discriminate; reflexivity. Qed.

Lemma fold_push_category (pools : list Pool.t) : forall categories : Categories,
  fold_left push_category pools categories
  = map (fun '(k, members) => (k, (members ++ filter (has_pair_type k) pools)%list)) categories.
Proof.
  induction pools as [|p pools IH]; intros categories; simpl.
  - rewrite <- (map_id categories) at 1. apply map_ext. intros [k ms].
    rewrite app_nil_r. reflexivity.
  - rewrite IH. unfold push_category, has_pair_type.
    destruct (Pool.pairType p) as [t|].
    + rewrite map_map. apply map_ext. intros [k ms].
      destruct (PairType_eqb k t); [|reflexivity].
      rewrite <- app_assoc. reflexivity.
    + reflexivity.
Qed.

Lemma categorizePools_by_type (pools : list Pool.t) :
  categorizePools pools
  = map (fun k => (k, scoreAndRankPools (filter (has_pair_type k) pools))) category_keys.
Proof. unfold categorizePools. rewrite fold_push_category. reflexivity. Qed.

(** X10: [categorizePools] always returns the four sections, in the order
    btc-stable, eth-stable, btc-eth, wrapped; the section of a pair type is
    the ranking of the input pools of that pair type, taken in input order; a
    pool without pair type is in no section. *)
Theorem categorizePools_sections : forall pools : list Pool.t,
  categorizePools pools
  = map (fun k => (k, scoreAndRankPools (filter (has_pair_type k) pools))) category_keys
  /\ map fst (categorizePools pools) = [btc_stable; eth_stable; btc_eth; wrapped]
  /\ (forall k members p,
        In (k, members) (categorizePools pools) ->
        (In p members <-> exists q, In q pools /\ Pool.pairType q = Some k /\ p = scorePool q)).
Proof.
  intros pools. split; [apply categorizePools_by_type|].
  rewrite categorizePools_by_type. split; [reflexivity|].
  intros k members p H. apply in_map_iff in H. destruct H as (k' & E & _).
  injection E as -> <-. rewrite scoreAndRankPools_In. split.
  - intros (q & Hq & ->). apply filter_In in Hq. destruct Hq as [Hq T].
    exists q. repeat split; [exact Hq|]. unfold has_pair_type in T.
    destruct (Pool.pairType q) as [t|]; [|discriminate].
    apply PairType_eqb_eq in T. congruence.
  - intros (q & Hq & T & ->). exists q. split; [|reflexivity].
    apply filter_In. split; [exact Hq|]. unfold has_pair_type. rewrite T.
    apply PairType_eqb_eq. reflexivity.
Qed.

(** ** The number of pools reported *)

Lemma fold_left_sum_lengths {A : Type} (ls : list (list A)) : forall n,
  fold_left (fun sum arr => sum + List.length arr) ls n = n + List.length (List.concat ls).
Proof.
  induction ls as [|l ls IH]; intros n; simpl; [lia|].
  rewrite IH, length_app. lia.
Qed.

Lemma totalPools_all_pools (categorizedPools : Categories) :
  totalPools categorizedPools = List.length (all_pools categorizedPools).
Proof. unfold totalPools, all_pools. rewrite fold_left_sum_lengths. reflexivity. Qed.

Lemma scoreAndRankPools_Permutation (pools : list Pool.t) :
  Permutation (scoreAndRankPools pools) (map scorePool pools).
Proof. apply js_sort_Permutation. Qed.

Lemma filter_by_type_Permutation (pools : list Pool.t) :
  Permutation
    (filter (has_pair_type btc_stable) pools ++ filter (has_pair_type eth_stable) pools
     ++ filter (has_pair_type btc_eth) pools ++ filter (has_pair_type wrapped) pools)%list
    (filter (fun p => negb (is_none (Pool.pairType p))) pools).
Proof.
  induction pools as [|p pools IH]; [reflexivity|].
  cbn [filter].
  assert (K : forall k, has_pair_type k p
                        = match Pool.pairType p with
                          | Some t => PairType_eqb k t
                          | None => false
                          end) by reflexivity.
  rewrite !K. destruct (Pool.pairType p) as [[]|]; cbn [PairType_eqb is_none negb].
  - simpl. apply perm_skip, IH.
  - symmetry. apply Permutation_cons_app. symmetry. exact IH.
  - symmetry. rewrite app_assoc. apply Permutation_cons_app. rewrite <- app_assoc.
    symmetry. exact IH.
  - symmetry. rewrite !app_assoc. apply Permutation_cons_app. rewrite <- !app_assoc.
    symmetry. exact IH.
  - exact IH.
Qed.

Lemma categorizePools_all_pools (pools : list Pool.t) :
  Permutation (all_pools (categorizePools pools))
              (map scorePool (filter (fun p => negb (is_none (Pool.pairType p))) pools)).
Proof.
  rewrite categorizePools_by_type. unfold all_pools, category_keys. cbn [map snd List.concat].
  rewrite app_nil_r.
  rewrite <- (filter_by_type_Permutation pools), !map_app.
  repeat apply Permutation_app; apply scoreAndRankPools_Permutation.
Qed.

Lemma validated_has_pair_type (pools : list Pool.t) :
  filter (fun p => negb (is_none (Pool.pairType p))) (filterPools pools) = filterPools pools.
Proof.
  unfold filterPools. induction pools as [|p pools IH]; [reflexivity|].
  cbn [filter]. destruct (validatePool p) eqn:V; [|exact IH].
  cbn [filter]. rewrite IH.
  rewrite validatePool_before_guard_eq in V. unfold validatePool_before_guard in V.
  destruct (Pool.pairType p); [reflexivity|].
  simpl in V. rewrite !andb_false_r in V. discriminate.
Qed.

(** X11: the number of pools that [mainApp] reports after a refresh, the sum
    of the lengths of the four sections, is the number of input pools that
    have a pair type; for the pools that the validator accepted it is their
    number, so the count of a refresh is the number of valid pools: none is
    lost and none is counted twice. *)
Theorem totalPools_counts_valid_pools :
  (forall pools : list Pool.t,
     totalPools (categorizePools pools)
     = List.length (filter (fun p => negb (is_none (Pool.pairType p))) pools))
  /\ (forall pools : list Pool.t,
        totalPools (categorizePools (filterPools pools)) = List.length (filterPools pools))
  /\ (forall (random36 : nat -> string) (allRawPools : list RawPool.t),
        totalPools (pipeline random36 allRawPools)
        = List.length (filterPools (fst (normalizeAllPools random36 allRawPools 0)))).
Proof.
  assert (T : forall pools : list Pool.t,
             totalPools (categorizePools pools)
             = List.length (filter (fun p => negb (is_none (Pool.pairType p))) pools)).
  { intros pools. rewrite totalPools_all_pools.
    rewrite (Permutation_length (categorizePools_all_pools pools)). apply length_map. }
  split; [exact T|].
  assert (T' : forall pools : list Pool.t,
             totalPools (categorizePools (filterPools pools)) = List.length (filterPools pools)).
  { intros pools. rewrite T, validated_has_pair_type. reflexivity. }
  split; [exact T'|]. intros random36 allRawPools. apply T'.
Qed.

(** ** The sections of a refresh *)

Lemma ForallOrdPairs_Permutation {A : Type} (R : A -> A -> Prop) (l l' : list A) :
  (forall x y, R x y -> R y x) ->
  Permutation l l' -> ForallOrdPairs R l -> ForallOrdPairs R l'.
Proof.
  intros Sym P. induction P as [|x l l' P IH|x y l|l l' l'' P1 IH1 P2 IH2]; intros H.
  - exact H.
  - inversion H as [|? ? F O]; subst. constructor; [|auto].
    rewrite Forall_forall in *. intros z Hz. apply F.
    apply (Permutation_in _ (Permutation_sym P)). exact Hz.
  - inversion H as [|? ? Fy Oy]; subst. inversion Oy as [|? ? Fx Ox]; subst.
    inversion Fy as [|? ? Ryx Fy']; subst.
    constructor; [constructor; auto|]. constructor; assumption.
  - auto.
Qed.

Lemma ForallOrdPairs_filter {A : Type} (R : A -> A -> Prop) (f : A -> bool) (l : list A) :
  ForallOrdPairs R l -> ForallOrdPairs R (filter f l).
Proof.
  induction 1 as [|x l F O IH]; simpl; [constructor|].
  destruct (f x); [|exact IH]. constructor; [|exact IH].
  rewrite Forall_forall in *. intros y Hy. apply F. apply filter_In in Hy. tauto.
Qed.

Lemma ForallOrdPairs_map {A B : Type} (R : B -> B -> Prop) (f : A -> B) (l : list A) :
  ForallOrdPairs (fun x y => R (f x) (f y)) l -> ForallOrdPairs R (map f l).
Proof.
  induction 1 as [|x l F O IH]; simpl; constructor; [|exact IH].
  apply Forall_map. exact F.
Qed.

Lemma distinct_ids_sym (a b : Pool.t) : distinct_ids a b -> distinct_ids b a.
Proof. unfold distinct_ids. rewrite same_value_zero_sym. auto. Qed.

Lemma normalizeAllPools_distinct random36 (rawPools : list RawPool.t) (n : nat) :
  ForallOrdPairs distinct_ids (fst (normalizeAllPools random36 rawPools n)).
Proof.
  rewrite normalizeAllPools_loop, normalizeLoop_dedup_seen. simpl. apply dedup_seen_distinct.
Qed.

(** X12: in the categorized output of a refresh every pool stands in the
    section of its own pair type, passes the validator, and is the scored form
    of a normalized pool; every normalized pool that passes the validator is
    in a section; and no two pools of the whole output, within a section or
    across sections, have the same id. *)
Theorem pipeline_sections_hold_valid_pools_once :
  forall (random36 : nat -> string) (allRawPools : list RawPool.t),
    let normalizedPools := fst (normalizeAllPools random36 allRawPools 0) in
    let categorizedPools := pipeline random36 allRawPools in
    (forall k members p,
       In (k, members) categorizedPools -> In p members ->
       Pool.pairType p = Some k /\ validatePool p = true
       /\ exists q, In q normalizedPools /\ p = scorePool q)
    /\ (forall q, In q normalizedPools -> validatePool q = true ->
          exists k members, In (k, members) categorizedPools /\ In (scorePool q) members)
    /\ ForallOrdPairs distinct_ids (all_pools categorizedPools).
Proof.
  intros random36 allRawPools normalizedPools categorizedPools.
  subst categorizedPools. unfold pipeline. fold normalizedPools.
  split; [|split].
  - intros k members p Hk Hp. rewrite categorizePools_by_type in Hk.
    apply in_map_iff in Hk. destruct Hk as (k' & E & _). injection E as -> <-.
    apply scoreAndRankPools_In in Hp. destruct Hp as (q & Hq & ->).
    apply filter_In in Hq. destruct Hq as [Hq T].
    apply filter_In in Hq. destruct Hq as [Hq V].
    split; [|split; [exact V|exists q; auto]].
    unfold has_pair_type in T. change (Pool.pairType (scorePool q)) with (Pool.pairType q).
    destruct (Pool.pairType q) as [t|]; [|discriminate].
    apply PairType_eqb_eq in T. congruence.
  - intros q Hq V.
    assert (T : exists k, Pool.pairType q = Some k).
    { rewrite validatePool_before_guard_eq in V. unfold validatePool_before_guard in V.
      destruct (Pool.pairType q) as [k|]; [eauto|].
      simpl in V. rewrite !andb_false_r in V. discriminate. }
    destruct T as [k T]. rewrite categorizePools_by_type.
    exists k, (scoreAndRankPools (filter (has_pair_type k) (filterPools normalizedPools))).
    split.
    + apply in_map_iff. exists k. split; [reflexivity|]. destruct k; simpl; auto.
    + apply scoreAndRankPools_In. exists q. split; [|reflexivity].
      apply filter_In. split.
      * apply filter_In. auto.
      * unfold has_pair_type. rewrite T. apply PairType_eqb_eq. reflexivity.
  - apply (ForallOrdPairs_Permutation _ _ _ distinct_ids_sym
             (Permutation_sym (categorizePools_all_pools _))).
    apply (ForallOrdPairs_map distinct_ids scorePool).
    change (fun x y => distinct_ids (scorePool x) (scorePool y)) with distinct_ids.
    apply ForallOrdPairs_filter. unfold filterPools. apply ForallOrdPairs_filter.
    apply normalizeAllPools_distinct.
Qed.

(** * Further properties of presentation, fetching and the dashboard *)

(** ** Presentation classes *)

(** X13: the colour class of an APR and the badge class of a fee follow the
    order of the numbers: a larger APR never gets a lower class, a larger fee
    never gets a lower badge.  NaN, which compares with nothing, gets the
    lowest APR class and the highest fee badge. *)
Theorem presentation_classes_monotone :
  (forall a b : float,
     (a <=? b)%float = true ->
     apr_class_rank (getAprColorClass a) <= apr_class_rank (getAprColorClass b))
  /\ (forall a b : float,
        (a <=? b)%float = true ->
        fee_class_rank (getFeeBadgeClass a) <= fee_class_rank (getFeeBadgeClass b))
  /\ (forall x : float, is_nan x = true ->
        getAprColorClass x = "apr-low" /\ getFeeBadgeClass x = "fee-high").
Proof.
  split; [|split].
  - intros a b H. unfold getAprColorClass.
    destruct (50 <=? a)%float eqn:A1, (20 <=? a)%float eqn:A2, (5 <=? a)%float eqn:A3,
      (50 <=? b)%float eqn:B1, (20 <=? b)%float eqn:B2, (5 <=? b)%float eqn:B3;
      try (vm_compute; lia);
      match goal with
      | A : (?c <=? a)%float = true, B : (?c <=? b)%float = false |- _ =>
          rewrite (leb_trans _ _ _ A H) in B; discriminate
      end.
  - intros a b H. unfold getFeeBadgeClass.
    destruct (a <=? 0.05)%float eqn:A1, (a <=? 0.3)%float eqn:A2,
      (b <=? 0.05)%float eqn:B1, (b <=? 0.3)%float eqn:B2;
      try (vm_compute; lia);
      match goal with
      | B : (b <=? ?c)%float = true, A : (a <=? ?c)%float = false |- _ =>
          rewrite (leb_trans _ _ _ H B) in A; discriminate
      end.
  - intros x N. unfold getAprColorClass, getFeeBadgeClass.
    rewrite !leb_fcompare.
    rewrite (proj2 (fcompare_nan 50 x)), (proj2 (fcompare_nan 20 x)),
      (proj2 (fcompare_nan 5 x)), (proj2 (fcompare_nan x 0.05)),
      (proj2 (fcompare_nan x 0.3)) by auto.
    split; reflexivity.
Qed.

(** The classes of two APRs and of two fees. *)
Lemma presentation_classes_sample :
  getAprColorClass 27.375 = "apr-good" /\ getAprColorClass 60 = "apr-excellent"
  /\ apr_class_rank (getAprColorClass 27.375) <= apr_class_rank (getAprColorClass 60)
  /\ getFeeBadgeClass 0.05 = "fee-low" /\ getFeeBadgeClass 0.3 = "fee-medium"
  /\ fee_class_rank (getFeeBadgeClass 0.05) <= fee_class_rank (getFeeBadgeClass 0.3).
Proof.
  split; [reflexivity|]. split; [reflexivity|]. split.
  - exact (proj1 presentation_classes_monotone 27.375%float 60%float eq_refl).
  - split; [reflexivity|]. split; [reflexivity|].
    exact (proj1 (proj2 presentation_classes_monotone) 0.05%float 0.3%float eq_refl).
Defined.

(** ** Tagging the answers *)

Lemma pushDexPairs_unseen (data : list Upstream.t) : forall allRawPools seenDexPairs,
  pushDexPairs data allRawPools seenDexPairs
  = ((allRawPools ++ map tagDexPair (unseen_pairs seenDexPairs data))%list,
     (seenDexPairs
      ++ map (fun dexPair => RawPool.pairAddress (Upstream.record dexPair))
             (unseen_pairs seenDexPairs data))%list).
Proof.
  induction data as [|dexPair rest IH]; intros allRawPools seenDexPairs; simpl.
  - rewrite !app_nil_r. reflexivity.
  - destruct (set_has seenDexPairs _); simpl; rewrite IH; [reflexivity|].
    rewrite <- !app_assoc. reflexivity.
Qed.

Lemma unseen_pairs_app (a b : list Upstream.t) : forall seen,
  unseen_pairs seen (a ++ b)
  = (unseen_pairs seen a
     ++ unseen_pairs (seen ++ map (fun dexPair => RawPool.pairAddress (Upstream.record dexPair))
                                  (unseen_pairs seen a)) b)%list.
Proof.
  induction a as [|p a IH]; intros seen; simpl.
  - rewrite app_nil_r. reflexivity.
  - destruct (set_has seen _); [apply IH|].
    simpl. rewrite IH, <- app_assoc. reflexivity.
Qed.

Lemma processDexResults_unseen (dexResults : list (list Upstream.t * string)) :
  forall allRawPools seenDexPairs,
    processDexResults dexResults allRawPools seenDexPairs
    = ((allRawPools
        ++ map tagDexPair (unseen_pairs seenDexPairs (List.concat (map fst dexResults))))%list,
       (seenDexPairs
        ++ map (fun dexPair => RawPool.pairAddress (Upstream.record dexPair))
               (unseen_pairs seenDexPairs (List.concat (map fst dexResults))))%list).
Proof.
  induction dexResults as [|[data q] rest IH]; intros allRawPools seenDexPairs; simpl.
  - rewrite !app_nil_r. reflexivity.
  - rewrite pushDexPairs_unseen, IH, unseen_pairs_app, !map_app, <- !app_assoc. reflexivity.
Qed.

Lemma unseen_pairs_distinct (pairs : list Upstream.t) : forall seen,
  Forall (fun dexPair => set_has seen (RawPool.pairAddress (Upstream.record dexPair)) = false)
         (unseen_pairs seen pairs)
  /\ ForallOrdPairs distinct_addresses (map tagDexPair (unseen_pairs seen pairs)).
Proof.
  induction pairs as [|p rest IH]; intros seen; simpl.
  - split; constructor.
  - destruct (set_has seen (RawPool.pairAddress (Upstream.record p))) eqn:E; [apply IH|].
    destruct (IH (seen ++ [RawPool.pairAddress (Upstream.record p)])%list) as [F O].
    assert (F' : Forall (fun q =>
                   set_has seen (RawPool.pairAddress (Upstream.record q)) = false
                   /\ same_value_zero (RawPool.pairAddress (Upstream.record p))
                                      (RawPool.pairAddress (Upstream.record q)) = false)
                        (unseen_pairs (seen ++ [RawPool.pairAddress (Upstream.record p)]) rest)).
    { eapply Forall_impl; [|exact F]. intros q Hq. simpl in Hq.
      rewrite set_has_app in Hq. apply orb_false_iff in Hq. exact Hq. }
    split.
    + constructor; [exact E|]. eapply Forall_impl; [|exact F']. intros q [Hq _]. exact Hq.
    + simpl. constructor; [|exact O]. apply Forall_map.
      eapply Forall_impl; [|exact F']. intros q [_ Hq]. exact Hq.
Qed.

Lemma tagChainResult_tagged (result : list Upstream.t * string) :
  Forall tagged_GeckoTerminal (tagChainResult result).
Proof.
  destruct result as [[|p data] chain]; simpl; [constructor|].
  constructor; [split; reflexivity|]. apply Forall_map, Forall_forall.
  intros q _. split; reflexivity.
Qed.

Lemma tagSearchResult_tagged (result : list Upstream.t * string) :
  Forall tagged_GeckoTerminal (tagSearchResult result).
Proof.
  destruct result as [[|p data] chain]; simpl; [constructor|].
  constructor; [split; reflexivity|]. apply Forall_map, Forall_forall.
  intros q _. split; reflexivity.
Qed.

Lemma Forall_flat_map {A B : Type} (P : B -> Prop) (f : A -> list B) (l : list A) :
  (forall x, Forall P (f x)) -> Forall P (flat_map f l).
Proof.
  intros H. induction l as [|x l IH]; simpl; [constructor|].
  apply Forall_app. split; [apply H|exact IH].
Qed.

Lemma collectRawPools_parts (chainResults searchResults dexResults : list (list Upstream.t * string)) :
  exists gecko dex,
    collectRawPools chainResults searchResults dexResults = (gecko ++ dex)%list
    /\ gecko = (flat_map tagChainResult chainResults
                ++ flat_map tagSearchResult searchResults)%list
    /\ dex = map tagDexPair (unseen_pairs [] (List.concat (map fst dexResults)))
    /\ Forall tagged_GeckoTerminal gecko
    /\ Forall tagged_DexScreener dex
    /\ ForallOrdPairs distinct_addresses dex.
Proof.
  eexists _, _. split; [|split; [reflexivity|split; [reflexivity|]]].
  - unfold collectRawPools. rewrite processDexResults_unseen. reflexivity.
  - split; [|split].
    + apply Forall_app. split; apply Forall_flat_map;
        [apply tagChainResult_tagged|apply tagSearchResult_tagged].
    + apply Forall_map, Forall_forall. intros q _. split; reflexivity.
    + apply unseen_pairs_distinct.
Qed.





(** ** The cache *)



(** The two fetchers are cached fetches under the key of their query. *)
Lemma fetchGeckoTerminalPoolsForChain_cached (network : Network) (chainName : string)
  (cache : Cache) :
  match chainCacheKey chainName with
  | Some k => exists url,
      fetchGeckoTerminalPoolsForChain network chainName cache = fetchCached network k url cache
  | None => fetchGeckoTerminalPoolsForChain network chainName cache = ([], cache)
  end.
Proof.
  unfold chainCacheKey, fetchGeckoTerminalPoolsForChain.
  destruct (lookup chainName CONFIG.CHAIN_TO_GECKO_ID) as [g|]; [|reflexivity].
  destruct (is_empty g); [reflexivity|]. eexists. reflexivity.
Qed.

Lemma fetchGeckoTerminalTokenSearch_cached (network : Network) (query : string)
  (cache : Cache) :
  match searchCacheKey query with
  | Some k => exists url,
      fetchGeckoTerminalTokenSearch network query cache = fetchCached network k url cache
  | None => fetchGeckoTerminalTokenSearch network query cache = ([], cache)
  end.
Proof. unfold searchCacheKey. eexists. reflexivity. Qed.











(** ** Two refreshes *)

Section Keyed.

Variable fetch : string -> Cache -> list Upstream.t * Cache.
Variable key : string -> option string.

(** The fetcher is a cached fetch under the key of its query. *)
Hypothesis keyed : forall query cache,
  match key query with
  | Some k => exists network url, fetch query cache = fetchCached network k url cache
  | None => fetch query cache = ([], cache)
  end.







End Keyed.










(** ** Fetching while every request fails *)

Lemma fetchEach_offline (key : string -> option string)
  (fetch : string -> Cache -> list Upstream.t * Cache) :
  (forall query cache,
     match key query with
     | Some k => exists url, fetch query cache = fetchCached offline k url cache
     | None => fetch query cache = ([], cache)
     end) ->
  forall (queries : list string) (cache : Cache),
    fetchEach fetch queries cache
    = (map (fun q => (cached_data cache (key q), q)) queries, cache).
Proof.
  intros keyed_offline queries cache.
  induction queries as [|q rest IH]; simpl; [reflexivity|].
  pose proof (keyed_offline q cache) as K. unfold cached_data.
  destruct (key q) as [k|].
  - destruct K as (url & ->). unfold fetchCached.
    destruct (cache_get k cache); cbn [fetchWithTimeout offline]; rewrite IH; reflexivity.
  - rewrite K, IH. reflexivity.
Qed.

Lemma tagChainResult_nil (data : list Upstream.t) (q : string) :
  tagChainResult (data, q) = [] <-> data = [].
Proof. destruct data; simpl; split; intros H; try discriminate; reflexivity. Qed.

Lemma tagSearchResult_nil (data : list Upstream.t) (q : string) :
  tagSearchResult (data, q) = [] <-> data = [].
Proof. destruct data; simpl; split; intros H; try discriminate; reflexivity. Qed.

Lemma flat_map_tagged_nil (tag : list Upstream.t * string -> list RawPool.t)
  (data_of : string -> list Upstream.t) (queries : list string) :
  (forall data q, tag (data, q) = [] <-> data = []) ->
  flat_map tag (map (fun q => (data_of q, q)) queries) = []
  <-> Forall (fun q => data_of q = []) queries.
Proof.
  intros T. induction queries as [|q rest IH]; simpl.
  - split; [constructor|reflexivity].
  - split.
    + intros H. apply app_eq_nil in H. destruct H as [Hq Hrest].
      constructor; [apply T in Hq; exact Hq|apply IH, Hrest].
    + intros H. inversion H as [|? ? Hq Hrest]; subst.
      rewrite (proj2 (T _ q) Hq), (proj2 IH Hrest). reflexivity.
Qed.

(** X17: when every request fails, [fetchAllPoolData] returns exactly the
    GeckoTerminal records that the cache holds for the chains and the token
    searches of a run, tagged as always, and no DexScreener pair; the cache
    stays as it is.  So an outage is not even noticed while the cache holds
    records, and the fetch is empty, which is what makes [mainApp] report a
    failure, exactly when the cache holds no record for any request. *)
Theorem fetchAllPoolData_offline_serves_cache : forall cache : Cache,
  let chainResults := map (fun q => (cached_data cache (chainCacheKey q), q)) chainsToFetch in
  let searchResults := map (fun q => (cached_data cache (searchCacheKey q), q)) tokenSearches in
  fetchAllPoolData offline cache
  = ((flat_map tagChainResult chainResults ++ flat_map tagSearchResult searchResults)%list,
     cache)
  /\ (fst (fetchAllPoolData offline cache) = [] <->
      Forall (fun key => cached_data cache key = []) run_cache_keys).
Proof.
  intros cache chainResults searchResults.
  assert (E : fetchAllPoolData offline cache
              = ((flat_map tagChainResult chainResults
                  ++ flat_map tagSearchResult searchResults)%list, cache)).
  { unfold fetchAllPoolData.
    rewrite (fetchEach_offline chainCacheKey _
               (fetchGeckoTerminalPoolsForChain_cached offline)).
    rewrite (fetchEach_offline searchCacheKey _
               (fetchGeckoTerminalTokenSearch_cached offline)).
    unfold collectRawPools. rewrite processDexResults_unseen.
    cbn [fst]. f_equal. apply app_nil_r. }
  split; [exact E|]. rewrite E. cbn [fst].
  unfold run_cache_keys. rewrite Forall_app, !Forall_map.
  subst chainResults searchResults.
  rewrite <- (flat_map_tagged_nil tagChainResult
                (fun q => cached_data cache (chainCacheKey q)) chainsToFetch
                tagChainResult_nil).
  rewrite <- (flat_map_tagged_nil tagSearchResult
                (fun q => cached_data cache (searchCacheKey q)) tokenSearches
                tagSearchResult_nil).
  split; [apply app_eq_nil|intros [-> ->]; reflexivity].
Qed.

(** ** Source priority *)

Lemma dedup_seen_distinct_filter (pools : list Pool.t) : forall seen,
  ForallOrdPairs distinct_ids pools ->
  dedup_seen seen pools = filter (fun p => negb (set_has seen (Pool.id p))) pools.
Proof.
  induction pools as [|p rest IH]; intros seen D; [reflexivity|].
  inversion D as [|? ? Dp Drest]; subst.
  simpl. destruct (set_has seen (Pool.id p)) eqn:E; simpl; [apply IH, Drest|].
  f_equal. rewrite IH by exact Drest. apply filter_ext_in.
  intros q Hq. rewrite set_has_app.
  rewrite Forall_forall in Dp. rewrite (Dp q Hq), orb_false_r. reflexivity.
Qed.

Lemma normalizeOne_DexScreener random36 (pool : RawPool.t) (n : nat) (p : Pool.t) :
  tagged_DexScreener pool ->
  fst (normalizeOne random36 pool n) = Some p ->
  Pool.id p = RawPool.pairAddress pool /\ Pool.source p = JStr "DexScreener".
Proof.
  intros [S _] H. destruct (normalizeOne_shape _ _ _ _ H) as (Sh & _ & Id).
  split.
  - apply Id. rewrite S. reflexivity.
  - destruct Sh as (_ & _ & _ & _ & _ & _ & _ & Src & _). rewrite Src. exact S.
Qed.

Lemma normalizeEach_DexScreener random36 (pools : list RawPool.t) : forall n,
  Forall tagged_DexScreener pools ->
  ForallOrdPairs distinct_addresses pools ->
  Forall (fun p => Pool.source p = JStr "DexScreener"
                   /\ exists pool, In pool pools /\ Pool.id p = RawPool.pairAddress pool)
         (fst (normalizeEach random36 pools n))
  /\ ForallOrdPairs distinct_ids (fst (normalizeEach random36 pools n)).
Proof.
  induction pools as [|pool rest IH]; intros n T D; simpl.
  - split; constructor.
  - inversion T as [|? ? Tp Trest]; subst. inversion D as [|? ? Dp Drest]; subst.
    unfold bind, ret.
    destruct (normalizeOne random36 pool n) as [o n1] eqn:E.
    destruct (IH n1 Trest Drest) as [F O].
    destruct (normalizeEach random36 rest n1) as [others n2]. cbn [fst] in *.
    assert (F' : Forall (fun p => Pool.source p = JStr "DexScreener"
                                  /\ exists pool', In pool' (pool :: rest)
                                                   /\ Pool.id p = RawPool.pairAddress pool')
                        others).
    { eapply Forall_impl; [|exact F]. intros p (Hs & pool' & Hin & Hid).
      split; [exact Hs|]. exists pool'. split; [right; exact Hin|exact Hid]. }
    destruct o as [p|]; [|split; assumption].
    destruct (normalizeOne_DexScreener random36 pool n p Tp) as [Hid Hsrc];
      [rewrite E; reflexivity|].
    split.
    + constructor; [|exact F']. split; [exact Hsrc|].
      exists pool. split; [left; reflexivity|exact Hid].
    + constructor; [|exact O]. rewrite Forall_forall in *.
      intros q Hq. destruct (F q Hq) as (_ & pool' & Hin & Hid').
      unfold distinct_ids. rewrite Hid, Hid'. apply (Dp pool' Hin).
Qed.

Lemma normalizeEach_GeckoTerminal random36 (pools : list RawPool.t) : forall n,
  Forall tagged_GeckoTerminal pools ->
  Forall (fun p => Pool.source p = JStr "GeckoTerminal") (fst (normalizeEach random36 pools n)).
Proof.
  induction pools as [|pool rest IH]; intros n T; simpl; [constructor|].
  inversion T as [|? ? Tp Trest]; subst. unfold bind, ret.
  destruct (normalizeOne random36 pool n) as [o n1] eqn:E.
  specialize (IH n1 Trest).
  destruct (normalizeEach random36 rest n1) as [others n2]. cbn [fst] in *.
  destruct o as [p|]; [|exact IH]. constructor; [|exact IH].
  assert (H : fst (normalizeOne random36 pool n) = Some p) by (rewrite E; reflexivity).
  destruct (normalizeOne_source _ _ _ _ H) as [_ ->]. apply Tp.
Qed.

Lemma dedup_seen_Forall (P : Pool.t -> Prop) (pools : list Pool.t) : forall seen,
  Forall P pools -> Forall P (dedup_seen seen pools).
Proof.
  induction pools as [|p rest IH]; intros seen H; simpl; [constructor|].
  inversion H as [|? ? Hp Hrest]; subst.
  destruct (set_has seen (Pool.id p)); [apply IH, Hrest|].
  constructor; [exact Hp|apply IH, Hrest].
Qed.

(** X18: GeckoTerminal has priority over DexScreener.  Normalizing what
    [fetchAllPoolData] collected gives first the pools that the GeckoTerminal
    records alone give, then every normalized DexScreener pair whose address is
    not the id of one of these: a DexScreener pair never displaces a
    GeckoTerminal pool, and is never dropped for another DexScreener pair. *)
Theorem GeckoTerminal_pools_take_priority :
  forall (random36 : nat -> string) (n : nat)
         (chainResults searchResults dexResults : list (list Upstream.t * string)),
    let gecko := (flat_map tagChainResult chainResults
                  ++ flat_map tagSearchResult searchResults)%list in
    let dex := map tagDexPair (unseen_pairs [] (List.concat (map fst dexResults))) in
    let fromGecko := normalizeAllPools random36 gecko n in
    let fromDex := fst (normalizeEach random36 dex (snd fromGecko)) in
    fst (normalizeAllPools random36 (collectRawPools chainResults searchResults dexResults) n)
    = (fst fromGecko
       ++ filter (fun p => negb (set_has (map Pool.id (fst fromGecko)) (Pool.id p))) fromDex)%list
    /\ Forall (fun p => Pool.source p = JStr "GeckoTerminal") (fst fromGecko)
    /\ Forall (fun p => Pool.source p = JStr "DexScreener") fromDex.
Proof.
  intros random36 n chainResults searchResults dexResults gecko dex fromGecko fromDex.
  destruct (collectRawPools_parts chainResults searchResults dexResults)
    as (gecko' & dex' & E & Eg & Ed & G & D & O).
  fold gecko in Eg. fold dex in Ed. subst gecko' dex'.
  destruct (normalizeEach_DexScreener random36 dex (snd fromGecko) D O) as [FD OD].
  fold fromDex in FD, OD.
  split; [|split].
  - rewrite E. subst fromGecko fromDex.
    rewrite !normalizeAllPools_loop, !normalizeLoop_dedup_seen. cbn [fst snd app].
    rewrite normalizeEach_app. cbn [fst]. rewrite dedup_seen_app. f_equal.
    apply dedup_seen_distinct_filter.
    rewrite normalizeAllPools_loop, normalizeLoop_dedup_seen in OD. exact OD.
  - subst fromGecko. rewrite normalizeAllPools_loop, normalizeLoop_dedup_seen. cbn [fst app].
    apply dedup_seen_Forall, normalizeEach_GeckoTerminal, G.
  - eapply Forall_impl; [|exact FD]. intros p [H _]. exact H.
Qed.

(** ** Sorting a section by a column *)

Lemma value_or_zero_not_nan (v : jsval) :
  match v with JStr _ => False | _ => True end -> is_nan (to_number (value_or_zero v)) = false.
Proof.
  unfold value_or_zero. destruct v as [| |[]|x|s]; try reflexivity; [|intros []].
  intros _. cbn [truthy]. destruct (is_zero x) eqn:Z; [reflexivity|].
  destruct (is_nan x) eqn:N; [reflexivity|exact N].
Qed.

(** The number a pool is sorted by is never NaN: a missing value and a NaN
    count as zero. *)
Lemma sort_number_not_nan (sortKey : SortKey) (p : Pool.t) :
  numeric_amounts p -> is_nan (sort_number sortKey p) = false.
Proof.
  intros [L V]. unfold sort_number. apply value_or_zero_not_nan.
  destruct sortKey; simpl.
  - destruct (Pool.feeTier p); exact I.
  - destruct (Pool.apr p); exact I.
  - destruct (Pool.liquidityUsd p); try exact I. discriminate.
  - destruct (Pool.volumeUsd24h p); try exact I. discriminate.
  - destruct (Pool.score p); exact I.
Qed.

Lemma compareByKey_moves_behind (sortKey : SortKey) (order : SortOrder) (x y : Pool.t) :
  numeric_amounts x -> numeric_amounts y ->
  (0 <? compareByKey sortKey order x y)%float
  = match order with
    | asc => (sort_number sortKey y <? sort_number sortKey x)%float
    | desc => (sort_number sortKey x <? sort_number sortKey y)%float
    end.
Proof.
  intros Hx Hy. unfold compareByKey. fold (sort_number sortKey x) (sort_number sortKey y).
  destruct order; apply ltb_zero_sub; apply sort_number_not_nan; assumption.
Qed.

Lemma compareByKey_keeps (sortKey : SortKey) (order : SortOrder) (x y : Pool.t) :
  numeric_amounts x -> numeric_amounts y ->
  (0 <? compareByKey sortKey order x y)%float = false -> in_sort_order sortKey order x y.
Proof.
  intros Hx Hy. rewrite compareByKey_moves_behind by assumption.
  destruct order; simpl; apply not_ltb_leb; apply sort_number_not_nan; assumption.
Qed.

Lemma compareByKey_moves (sortKey : SortKey) (order : SortOrder) (x y : Pool.t) :
  numeric_amounts x -> numeric_amounts y ->
  (0 <? compareByKey sortKey order x y)%float = true -> in_sort_order sortKey order y x.
Proof.
  intros Hx Hy. rewrite compareByKey_moves_behind by assumption.
  destruct order; simpl; apply ltb_leb.
Qed.

Lemma compareByKey_ties (sortKey : SortKey) (order : SortOrder) (q x y : Pool.t) :
  same_sort_number sortKey q x = true -> same_sort_number sortKey q y = true ->
  (0 <? compareByKey sortKey order x y)%float = false.
Proof.
  unfold same_sort_number. intros Hx Hy.
  assert (E : (sort_number sortKey x =? sort_number sortKey y)%float = true)
    by (apply (eqb_trans _ (sort_number sortKey q)); [exact Hx|rewrite eqb_sym; exact Hy]).
  destruct (eqb_not_nan _ _ E) as [Nx Ny].
  unfold compareByKey. fold (sort_number sortKey x) (sort_number sortKey y).
  destruct order; rewrite ltb_zero_sub by assumption; apply eqb_not_ltb.
  - rewrite eqb_sym. exact E.
  - exact E.
Qed.

Lemma in_sort_order_trans (sortKey : SortKey) (order : SortOrder) :
  Relations_1.Transitive (in_sort_order sortKey order).
Proof.
  intros a b c. destruct order; simpl; intros H1 H2.
  - exact (leb_trans _ _ _ H1 H2).
  - exact (leb_trans _ _ _ H2 H1).
Qed.

Lemma section_pools_set_same (k : PairType) (pools : list Pool.t) (categories : Categories) :
  section_pools k categories <> None ->
  section_pools k (set_section k pools categories) = Some pools.
Proof.
  induction categories as [|[key members] rest IH]; simpl; [congruence|].
  destruct (PairType_eqb key k) eqn:E; simpl; rewrite E; [reflexivity|exact IH].
Qed.

Lemma section_pools_set_other (k other : PairType) (pools : list Pool.t)
  (categories : Categories) :
  PairType_eqb k other = false ->
  section_pools other (set_section k pools categories) = section_pools other categories.
Proof.
  intros N. induction categories as [|[key members] rest IH]; simpl; [reflexivity|].
  destruct (PairType_eqb key k) eqn:E; simpl.
  - apply PairType_eqb_eq in E. subst key. rewrite N. exact IH.
  - destruct (PairType_eqb key other); [reflexivity|exact IH].
Qed.

(** X19: a click on the header of a numeric column sorts the section by that
    column: descending, or ascending when the header was marked descending.
    The section keeps its pools; they stand in the order of the column, a
    missing value (and a NaN) counting as zero; pools of one value keep the
    order they had; the other sections are not touched.  This holds for every
    section whose amounts are of type number, NaN and infinities included. *)
Theorem sortSectionByKey_orders_section :
  forall (d : Dashboard.t) (sectionId : PairType) (sortKey : SortKey) (isCurrentlyDesc : bool)
         (pools : list Pool.t),
    section_pools sectionId (Dashboard.currentCategorizedPools d) = Some pools ->
    pools <> [] ->
    Forall numeric_amounts pools ->
    let order := if isCurrentlyDesc then asc else desc in
    let after := fst (sortSectionByKey sectionId sortKey isCurrentlyDesc d) in
    snd (sortSectionByKey sectionId sortKey isCurrentlyDesc d) = Some order
    /\ (exists sorted,
          section_pools sectionId (Dashboard.currentCategorizedPools after) = Some sorted
          /\ Permutation sorted pools
          /\ StronglySorted (in_sort_order sortKey order) sorted
          /\ (forall q, filter (same_sort_number sortKey q) sorted
                        = filter (same_sort_number sortKey q) pools))
    /\ (forall other, other <> sectionId ->
          section_pools other (Dashboard.currentCategorizedPools after)
          = section_pools other (Dashboard.currentCategorizedPools d)).
Proof.
  intros d sectionId sortKey isCurrentlyDesc pools Hs Ne H order after.
  subst after. unfold sortSectionByKey. rewrite Hs.
  destruct pools as [|p pools']; [contradiction|]. fold order. cbn [fst snd].
  split; [reflexivity|]. split.
  - exists (js_sort (compareByKey sortKey order) (p :: pools')).
    cbn [Dashboard.currentCategorizedPools]. split; [|split; [|split]].
    + apply section_pools_set_same. congruence.
    + apply js_sort_Permutation.
    + apply Sorted_StronglySorted; [apply in_sort_order_trans|].
      apply (js_sort_Sorted _ numeric_amounts);
        [apply compareByKey_keeps|apply compareByKey_moves|exact H].
    + intros q. apply js_sort_filter. apply compareByKey_ties.
  - intros other N. cbn [Dashboard.currentCategorizedPools].
    apply section_pools_set_other.
    destruct (PairType_eqb sectionId other) eqn:E; [|reflexivity].
    apply PairType_eqb_eq in E. congruence.
Qed.

(** The first section of the sample dashboard, ranked by score, sorted by
    liquidity: the two pools of equal liquidity keep their order. *)
Lemma sortSectionByKey_sample :
  option_map (map Pool.id)
    (section_pools btc_stable (Dashboard.currentCategorizedPools sample_dashboard))
  = Some [JStr "0x02"; JStr "0x03"; JStr "0x01"; JStr "0x04"]
  /\ option_map (map Pool.id)
       (section_pools btc_stable
          (Dashboard.currentCategorizedPools
             (fst (sortSectionByKey btc_stable sort_liquidityUsd false sample_dashboard))))
     = Some [JStr "0x03"; JStr "0x01"; JStr "0x04"; JStr "0x02"]
  /\ snd (sortSectionByKey btc_stable sort_liquidityUsd false sample_dashboard) = Some desc.
Proof.
  split; [reflexivity|]. split; [reflexivity|].
  assert (H1 : section_pools btc_stable (Dashboard.currentCategorizedPools sample_dashboard)
               = Some (scoreAndRankPools sample_pools)) by reflexivity.
  assert (H2 : scoreAndRankPools sample_pools <> []) by (vm_compute; discriminate).
  assert (H3 : Forall numeric_amounts (scoreAndRankPools sample_pools))
    by (vm_compute; repeat constructor).
  exact (proj1 (sortSectionByKey_orders_section sample_dashboard btc_stable
                  sort_liquidityUsd false _ H1 H2 H3)).
Defined.

(** ** A refresh that fails *)

(** X20: when a refresh fetches nothing, [mainApp] shows the error and four
    empty sections, but keeps the categories of the last successful refresh:
    a click on a column header then renders the pools of that refresh again,
    under the error message.  A manual refresh clears the cache first, so with
    every request failing it always ends this way. *)
Theorem failed_refresh_keeps_pools_for_sorting :
  (forall (random36 : nat -> string) (network : Network) (d : Dashboard.t),
     fst (fetchAllPoolData network (Dashboard.dataCache d)) = [] ->
     let failed := mainApp random36 network d in
     Dashboard.rendered failed = emptyCategories
     /\ Dashboard.statusBar failed
        = status_error "All data sources failed to return pool data."
     /\ Dashboard.currentCategorizedPools failed = Dashboard.currentCategorizedPools d
     /\ (forall sectionId sortKey isCurrentlyDesc p pools,
           section_pools sectionId (Dashboard.currentCategorizedPools d) = Some (p :: pools) ->
           let clicked := fst (sortSectionByKey sectionId sortKey isCurrentlyDesc failed) in
           Dashboard.statusBar clicked
           = status_error "All data sources failed to return pool data."
           /\ exists sorted,
                section_pools sectionId (Dashboard.rendered clicked) = Some sorted
                /\ Permutation sorted (p :: pools)))
  /\ (forall (random36 : nat -> string) (d : Dashboard.t),
        let failed := manualRefresh random36 offline d in
        Dashboard.rendered failed = emptyCategories
        /\ Dashboard.statusBar failed
           = status_error "All data sources failed to return pool data."
        /\ Dashboard.currentCategorizedPools failed = Dashboard.currentCategorizedPools d).
Proof.
  split.
  - intros random36 network d H failed. subst failed. unfold mainApp.
    destruct (fetchAllPoolData network (Dashboard.dataCache d)) as [allRawPools cache'].
    simpl in H. subst allRawPools.
    cbn [Dashboard.rendered Dashboard.statusBar Dashboard.currentCategorizedPools].
    split; [reflexivity|]. split; [reflexivity|]. split; [reflexivity|].
    intros sectionId sortKey isCurrentlyDesc p pools Hs.
    unfold sortSectionByKey. cbn [Dashboard.currentCategorizedPools]. rewrite Hs.
    cbn [fst Dashboard.rendered Dashboard.statusBar]. split; [reflexivity|].
    eexists. split.
    + apply section_pools_set_same. destruct sectionId; discriminate.
    + apply js_sort_Permutation.
  - intros random36 d failed. subst failed. repeat split.
Qed.

(** A manual refresh of the sample dashboard while every request fails, and a
    click on the score column afterwards. *)
Lemma failed_refresh_sample :
  Dashboard.rendered (mainApp (fun _ => "") offline sample_dashboard) = emptyCategories
  /\ option_map (map Pool.id)
       (section_pools btc_stable
          (Dashboard.rendered
             (fst (sortSectionByKey btc_stable sort_score true
                     (mainApp (fun _ => "") offline sample_dashboard)))))
     = Some [JStr "0x03"; JStr "0x01"; JStr "0x04"; JStr "0x02"]
  /\ Dashboard.statusBar
       (fst (sortSectionByKey btc_stable sort_score true
               (mainApp (fun _ => "") offline sample_dashboard)))
     = status_error "All data sources failed to return pool data.".
Proof.
  pose proof (proj1 failed_refresh_keeps_pools_for_sorting (fun _ => "") offline
                sample_dashboard eq_refl) as (R & _ & _ & C).
  split; [exact R|]. split; [reflexivity|].
  assert (H : exists p pools,
             section_pools btc_stable (Dashboard.currentCategorizedPools sample_dashboard)
             = Some (p :: pools)) by (vm_compute; eauto).
  destruct H as (p & pools & H).
  exact (proj1 (C btc_stable sort_score true p pools H)).
Defined.
